(** * fitsconcat: a shallow embedding of [fitsconcat.py]

    The program assembles single-channel FITS images into one 4-D cube:
    [make_empty_image] writes a header and extends the file to its final
    size, [insert_channel] / [fill_cube_with_images] copy every input into
    its own channel of the memory-mapped output, and [update_fits_header]
    assigns three depth-axis cards in a file opened in update mode.

    Conventions of the embedding.
    - Python integers are [Z]; the values numpy computes ([np.product] and
      everything derived from it) are 64-bit signed and wrap ([wrap64]).
    - An n-dimensional array is its shape and its row-major buffer
      ([ndarray]). The element type of the inputs is a parameter, [value];
      the output is float32, four bytes per element, its element type is
      the parameter [pixel], and [cast] is the conversion numpy applies when
      an element of an input is assigned to the cube.
    - A header is the list of its cards; closing a file opened in update
      mode is part of the call that opened it ([update_header]).
    - The input files are a finite map from path to the data array of the
      primary HDU; the output file is kept apart from it (the output path is
      not one of the inputs).
    - Exceptions are values of [exn]; a function that can raise after it has
      written returns the state it leaves behind together with the error. *)

From Stdlib Require Import ZArith Lia Strings.Byte Permutation.
From stdpp Require Import base list strings gmap.

Local Open Scope Z_scope.

(** ** Exceptions and results *)

Inductive exn : Type :=
| FileNotFoundError
| IndexError
| ValueError
| OSError.

Global Instance exn_eq_dec : EqDecision exn.
Proof. solve_decision. Defined.

Inductive result (A : Type) : Type :=
| Ok (a : A)
| Raise (e : exn).
Arguments Ok {A} a.
Arguments Raise {A} e.

Global Instance result_bind : MBind result := fun A B k r =>
  match r with Ok a => k a | Raise e => Raise e end.

(** ** 64-bit integers of numpy *)

Definition wrap64 (z : Z) : Z := (z + 2 ^ 63) mod 2 ^ 64 - 2 ^ 63.

(** [np.product(dims)]: the product, reduced in int64. The list becomes
    an int64 array when each of its elements is within the int64 range,
    the case modelled here; with an element outside it numpy chooses
    another element type. *)
Definition np_product (dims : list Z) : Z :=
  fold_left (fun acc d => wrap64 (acc * d)) dims 1.

Definition block_size : Z := 2880.

(** [np.dtype(np.float32).itemsize] *)
Definition itemsize : Z := 4.

(** Lines 50-54: [data_size], every operation on an [np.int64]. *)
Definition raw_data_size (dims : list Z) : Z :=
  wrap64 (np_product dims * itemsize).

Definition pad_data_size (data_size : Z) : Z :=
  wrap64 (block_size * wrap64 (wrap64 (wrap64 (data_size - 1) / block_size) + 1)).

(** The same rounding expression over unbounded integers. *)
Definition round_up_expr (d : Z) : Z := block_size * (((d - 1) / block_size) + 1).

(** The spec's wording: [ceil(d / 2880) * 2880]. *)
Definition ceil_div (a b : Z) : Z := - ((- a) / b).
Definition spec_padded (d : Z) : Z := ceil_div d block_size * block_size.

(** ** Arrays *)

Section Arrays.
Context {pixel : Type}.

Record ndarray : Type := NdArray { shape : list nat; buf : list pixel }.

Definition numel (sh : list nat) : nat := foldr Nat.mul 1%nat sh.

Definition wf_array (a : ndarray) : Prop := length (buf a) = numel (shape a).

(** [np.squeeze(a).shape]: every axis of length one is dropped. *)
Definition squeeze_shape (sh : list nat) : list nat :=
  filter (fun n => n ≠ 1%nat) sh.

(** [sh[-2:]] *)
Definition last_two (sh : list nat) : list nat :=
  drop (length sh - 2)%nat sh.

(** [a[i]] with an integer [i >= 0]: the i-th sub-array along axis 0. *)
Definition index0 (a : ndarray) (i : nat) : result ndarray :=
  match shape a with
  | [] => Raise IndexError
  | n :: rest =>
      if decide (i < n)%nat
      then Ok (NdArray rest (take (numel rest) (drop (i * numel rest)%nat (buf a))))
      else Raise IndexError
  end.

(** [a[ss, 0, :, :]]: four indices need at least four axes. *)
Definition getitem_plane (a : ndarray) (ss : nat) : result ndarray :=
  if decide (length (shape a) < 4)%nat then Raise IndexError
  else a1 ← index0 a ss; index0 a1 0%nat.
End Arrays.

Arguments ndarray : clear implicits.

(** ** Headers *)

Inductive hval : Type :=
| HBool (b : bool)
| HInt (z : Z)
| HStr (s : string).

Global Instance hval_eq_dec : EqDecision hval.
Proof. solve_decision. Defined.

(** A header is the ordered list of its cards (keyword, value). *)
Definition card : Type := string * hval.
Definition Header : Type := list card.

Fixpoint header_get (h : Header) (key : string) : option hval :=
  match h with
  | [] => None
  | c :: h' => if decide (fst c = key) then Some (snd c) else header_get h' key
  end.

(** [header[key] = value] for the keywords the program assigns: upper-case
    keywords other than COMMENT, HISTORY and the blank keyword, on headers
    without commentary cards. An existing card keeps its place and takes
    the new value, a new keyword is appended. (astropy folds the case of a
    keyword and adds a card at each assignment to a commentary keyword;
    neither occurs in the program.) *)
Fixpoint header_set (key : string) (v : hval) (h : Header) : Header :=
  match h with
  | [] => [(key, v)]
  | c :: h' => if decide (fst c = key) then (key, v) :: h'
               else c :: header_set key v h'
  end.

Definition keywords (h : Header) : list string := fst <$> h.

(** ["NAXIS%d" % i] for a one-digit [i]. *)
Definition naxis_key (i : nat) : string :=
  "NAXIS" +:+ String (Ascii.ascii_of_nat (48 + i)) "".

(** The header astropy gives [fits.PrimaryHDU(data=dummy_data)] for the
    float32 array of shape (1, 1, 1, 1) of lines 34-36. *)
Definition primary_header : Header :=
  [ ("SIMPLE", HBool true); ("BITPIX", HInt (-32)); ("NAXIS", HInt 4);
    ("NAXIS1", HInt 1); ("NAXIS2", HInt 1); ("NAXIS3", HInt 1);
    ("NAXIS4", HInt 1); ("EXTEND", HBool true) ].

(** [int(x / 2)] of lines 41-42: true division, then truncation toward
    zero. The quotient is exact for every operand below 2^53, far above
    any array dimension. *)
Definition int_half (x : Z) : Z := Z.quot x 2.

(** Lines 39-42: the loop over [enumerate(dims, 1)]. *)
Fixpoint set_dims (i : nat) (dims : list Z) (xdim ydim : Z) (h : Header) : Header :=
  match dims with
  | [] => h
  | dim :: rest =>
      let h1 := header_set (naxis_key i) (HInt dim) h in
      let h2 := header_set "CRPIX1" (HInt (int_half xdim)) h1 in
      let h3 := header_set "CRPIX2" (HInt (int_half ydim)) h2 in
      set_dims (S i) rest xdim ydim h3
  end.

(** ** Input files *)

Section Files.
Context {pixel : Type}.

(** [fits.open(path)[0].data] *)
Definition fits_open_data (fs : gmap string (ndarray pixel)) (path : string)
  : result (ndarray pixel) :=
  match fs !! path with
  | Some a => Ok a
  | None => Raise FileNotFoundError
  end.

(** [imlist[i]] for [i >= 0] *)
Definition list_item (imlist : list string) (i : nat) : result string :=
  match imlist !! i with
  | Some p => Ok p
  | None => Raise IndexError
  end.

(** Lines 21-22: [xdim, ydim = np.squeeze(hud[0].data).shape[-2:]]; the
    unpacking needs exactly two values. *)
Definition image_dims (fs : gmap string (ndarray pixel)) (imlist : list string)
  : result (Z * Z) :=
  p ← list_item imlist 0%nat;
  a ← fits_open_data fs p;
  match last_two (squeeze_shape (shape a)) with
  | [x; y] => Ok (Z.of_nat x, Z.of_nat y)
  | _ => Raise ValueError
  end.

(** Lines 27-30 *)
Definition cube_dims (xdim ydim : Z) (imlist : list string) (nstokes : Z) : list Z :=
  [xdim; ydim; Z.of_nat (length imlist); nstokes].

(** Lines 30-42: the header built from the dimensions. *)
Definition cube_header (xdim ydim : Z) (imlist : list string) (nstokes : Z) : Header :=
  set_dims 1 (cube_dims xdim ydim imlist nstokes) xdim ydim primary_header.

End Files.

(** ** Bytes on disk *)

Definition blank : byte := x20.

Definition end_card : list byte := [x45; x4e; x44] ++ replicate 77 blank.

Definition pad_len (n : nat) : nat :=
  ((2880 - n `mod` 2880) `mod` 2880)%nat.

Section Serialise.
(** The 80-column image astropy prints for one card. *)
Variable card_image : card → list byte.

(** [header.tostring()]: the cards, the END card, blanks up to a whole
    number of 2880-byte blocks. [header.tofile] writes the same bytes. *)
Definition tostring (h : Header) : list byte :=
  let s := concat (card_image <$> h) ++ end_card in
  s ++ replicate (pad_len (length s)) blank.

(** [f.seek(pos); f.write(data)] on a file opened "rb+": a negative
    position is refused, a position past the end leaves a gap of zero
    bytes. *)
Definition seek_write (file : list byte) (pos : Z) (data : list byte)
  : result (list byte) :=
  if decide (pos < 0) then Raise OSError
  else
    let p := Z.to_nat pos in
    Ok (take p file ++ replicate (p - length file)%nat x00
          ++ data ++ drop (p + length data)%nat file).

(** Lines 10-58. The result is what the call leaves at [outname], [None]
    when it has not written the file, and how the call ends: the header
    is on disk once line 44 has run, also when the seek of line 57 is
    refused. *)
Definition make_empty_image {value : Type} (fs : gmap string (ndarray value))
    (imlist : list string) (nstokes : Z) : option (list byte) * result unit :=
  match image_dims fs imlist with
  | Raise e => (None, Raise e)
  | Ok xy =>
      let dims := cube_dims xy.1 xy.2 imlist nstokes in
      let header := cube_header xy.1 xy.2 imlist nstokes in
      let file := tostring header in
      let header_size := Z.of_nat (length (tostring header)) in
      let data_size := pad_data_size (raw_data_size dims) in
      match seek_write file (wrap64 (wrap64 (header_size + data_size) - 1)) [x00] with
      | Ok file' => (Some file', Ok ())
      | Raise e => (Some file, Raise e)
      end
  end.
End Serialise.

(** ** The output cube *)

(** Axis lengths as astropy derives them from a header: [NAXISn], ...,
    [NAXIS1], the order of the numpy shape. *)
Fixpoint axes (h : Header) (n : nat) : option (list nat) :=
  match n with
  | O => Some []
  | S m =>
      match header_get h (naxis_key n) with
      | Some (HInt z) =>
          if decide (0 ≤ z) then (fun sh => Z.to_nat z :: sh) <$> axes h m else None
      | _ => None
      end
  end.

Definition header_shape (h : Header) : option (list nat) :=
  match header_get h "NAXIS" with
  | Some (HInt n) => if decide (0 ≤ n) then axes h (Z.to_nat n) else None
  | _ => None
  end.

(** *** What a flush in update mode does to the header

    A file opened with [mode="update"] is written back when it is closed.
    Before the header of an image HDU is written, astropy's
    [update_header] sets BITPIX, NAXIS and every NAXISi to what it read
    when the file was opened and deletes the NAXISj beyond NAXIS; the
    header is written only when it was modified. Keywords are upper-case
    keywords other than COMMENT, HISTORY and the blank one, as all
    keywords of the program are. On a header whose mandatory cards stand
    in the order of the standard (SIMPLE, BITPIX, NAXIS, the NAXISi, then
    EXTEND), as in every header written by astropy, the positional
    arguments of these assignments move no card. *)

(** [header.get("NAXIS", 0)] *)
Definition naxis_count (h : Header) : nat :=
  match header_get h "NAXIS" with
  | Some (HInt n) => Z.to_nat n
  | _ => 0%nat
  end.

(** The axes read at open: [header.get("NAXISi", 0)] for i = 1 .. NAXIS. *)
Definition header_axes (h : Header) : list hval :=
  (fun i => default (HInt 0) (header_get h (naxis_key i))) <$> seq 1 (naxis_count h).

(** [del header[key]], a missing keyword being ignored. *)
Fixpoint header_del (key : string) (h : Header) : Header :=
  match h with
  | [] => []
  | c :: h' => if decide (fst c = key) then h' else c :: header_del key h'
  end.

(** A new card behind the card [after], or at the end without it. *)
Fixpoint header_insert_after (after : string) (c : card) (h : Header) : Header :=
  match h with
  | [] => [c]
  | c0 :: h' => if decide (fst c0 = after) then c0 :: c :: h'
                else c0 :: header_insert_after after c h'
  end.

(** [header.set(key, value, after=after)] *)
Definition header_set_after (after key : string) (v : hval) (h : Header) : Header :=
  if decide (key ∈ keywords h) then header_set key v h
  else header_insert_after after (key, v) h.

(** [header.set(key, value, after=0)] *)
Definition header_set_second (key : string) (v : hval) (h : Header) : Header :=
  if decide (key ∈ keywords h) then header_set key v h
  else match h with
       | [] => [(key, v)]
       | c0 :: h' => c0 :: (key, v) :: h'
       end.

(** The loop over [enumerate(self._axes)]: NAXIS1 behind NAXIS, NAXISi
    behind NAXIS(i-1). *)
Fixpoint set_axes (i : nat) (axs : list hval) (h : Header) : Header :=
  match axs with
  | [] => h
  | a :: rest =>
      let after := match i with 1%nat => "NAXIS" | _ => naxis_key (i - 1) end in
      set_axes (S i) rest (header_set_after after (naxis_key i) a h)
  end.

(** [update_header] of an image HDU whose BITPIX and axes were [bitpix]
    and [axs] at open. *)
Definition update_header (bitpix : hval) (axs : list hval) (h : Header) : Header :=
  let old_naxis := naxis_count h in
  let h1 := header_set_second "BITPIX" bitpix h in
  let h2 := header_set_after "BITPIX" "NAXIS" (HInt (Z.of_nat (length axs))) h1 in
  let h3 := set_axes 1 axs h2 in
  foldl (fun h j => header_del (naxis_key j) h) h3
        (seq (S (length axs)) (old_naxis - length axs)).

Section Cube.
Context {value pixel : Type}.
(** The conversion numpy applies when an element of an input array is
    assigned to the float32 cube (nothing changes for a float32 input). *)
Variable cast : value → pixel.
(** The value of a zero-filled element (0.0 for float32). *)
Variable zero : pixel.

(** The primary HDU of the output file: its cards and its data region,
    counted in elements of [itemsize] bytes (padding included). *)
Record FitsFile : Type := MkFits { hdr : Header; body : list pixel }.

(** [fits.open(outname, memmap=True, mode="update")[0].data]: the shape
    comes from the header and the data region must hold the array; a file
    that does not yield such a primary HDU makes [outhdu[0]] raise
    IndexError. Stores to the array are stores to [body] at the same
    element offset. *)
Definition open_update (f : FitsFile) : result (list nat) :=
  match header_shape (hdr f) with
  | Some sh => if decide (numel sh ≤ length (body f))%nat then Ok sh
               else Raise IndexError
  | None => Raise IndexError
  end.

(** Assignment drops leading axes of length one from a source that has
    more axes than the destination. *)
Fixpoint strip_ones (n : nat) (sh : list nat) : list nat :=
  match sh with
  | 1%nat :: rest => if decide (n < length sh)%nat then strip_ones n rest else sh
  | _ => sh
  end.

Definition tabulate2 (Y X : nat) (f : nat → nat → pixel) : list pixel :=
  y ← seq 0 Y; f y <$> seq 0 X.

(** Broadcasting a source to the (Y, X) plane it is assigned to: every
    source axis has the length of its destination axis, or length one. *)
Definition broadcast2 (src : ndarray value) (Y X : nat) : result (list pixel) :=
  let sh := strip_ones 2 (shape src) in
  match replicate (2 - length sh) 1%nat ++ sh with
  | [a; b] =>
      if decide ((a = Y ∨ a = 1%nat) ∧ (b = X ∨ b = 1%nat)) then
        Ok (tabulate2 Y X (fun y x =>
              from_option cast zero
                (buf src !! ((if decide (a = 1%nat) then 0 else y) * b
                             + (if decide (b = 1%nat) then 0 else x))%nat)))
      else Raise ValueError
  | _ => Raise ValueError
  end.

(** Element offset of the plane [outdata[ss, ii, :, :]]. *)
Definition plane_offset (sh : list nat) (ss ii : nat) : nat :=
  match sh with
  | [_; Z; Y; X] => ((ss * Z + ii) * (Y * X))%nat
  | _ => 0%nat
  end.

Definition plane_len (sh : list nat) : nat :=
  match sh with
  | [_; _; Y; X] => (Y * X)%nat
  | _ => 0%nat
  end.

(** [outdata[ss, ii, :, :] = src] on the four-axis cube: the elements of
    [src], broadcast to the plane and converted to the element type of the
    cube, are stored at the offsets of the plane. *)
Definition setitem_plane (sh : list nat) (bdy : list pixel) (ss ii : nat)
    (src : ndarray value) : result (list pixel) :=
  match sh with
  | [W; Z; Y; X] =>
      if decide (ss < W ∧ ii < Z)%nat then
        vals ← broadcast2 src Y X;
        Ok (list_inserts (plane_offset sh ss ii) vals bdy)
      else Raise IndexError
  | _ => Raise IndexError
  end.

(** [range(n)] *)
Definition range (n : Z) : list nat := seq 0 (Z.to_nat n).

(** Lines 84-85 and 105-106: the loop over the planes. An exception ends
    it; what earlier iterations stored stays in the file. *)
Fixpoint copy_planes (sh : list nat) (data : ndarray value) (ii : nat)
    (planes : list nat) (bdy : list pixel) : list pixel * result unit :=
  match planes with
  | [] => (bdy, Ok ())
  | ss :: rest =>
      match src ← getitem_plane data ss; setitem_plane sh bdy ss ii src with
      | Ok bdy' => copy_planes sh data ii rest bdy'
      | Raise e => (bdy, Raise e)
      end
  end.

(** Lines 98-108 *)
Definition insert_channel (channo : nat) (out : FitsFile)
    (fs : gmap string (ndarray value)) (imlist : list string) (nstokes : Z)
  : FitsFile * result unit :=
  match open_update out with
  | Raise e => (out, Raise e)
  | Ok sh =>
      match p ← list_item imlist channo; fits_open_data fs p with
      | Raise e => (out, Raise e)
      | Ok data =>
          let r := copy_planes sh data channo (range nstokes) (body out) in
          (MkFits (hdr out) r.1, r.2)
      end
  end.

(** Lines 61-65: the dictionary is the list of its items in insertion
    order, its keys keywords as [header_set] takes them (the program calls
    the function with [fitsheader] only). The file is opened in update
    mode, the items are assigned and the file is closed: a header left as
    it was is not written, a modified one is written after
    [update_header] has put back the BITPIX and the axes read at open.
    The data region is not touched. *)
Definition update_fits_header (f : FitsFile) (header_dict : list (string * hval))
  : FitsFile :=
  let bitpix := default (HInt 8) (header_get (hdr f) "BITPIX") in
  let axs := header_axes (hdr f) in
  let header := foldl (fun h kv => header_set kv.1 kv.2 h) (hdr f) header_dict in
  if decide (header = hdr f) then f
  else MkFits (update_header bitpix axs header) (body f).

(** Lines 89-93 and 133-137 *)
Definition fitsheader (naxis3 : Z) : list (string * hval) :=
  [ ("CRPIX3", HInt 1); ("NAXIS3", HInt naxis3); ("CTYPE3", HStr "FREQ") ].
End Cube.

Arguments FitsFile : clear implicits.
Arguments MkFits {pixel} hdr body.

(** ** The two fill paths *)

Section Pipeline.
Context {value pixel : Type}.
Variable cast : value → pixel.
Variable zero : pixel.
Variable fs : gmap string (ndarray value).
Variable imlist : list string.
Variable nstokes : Z.

(** Lines 81-85: the loop over the channels of the sequential path. The
    first exception leaves the loop and the function. *)
Fixpoint fill_channels (sh : list nat) (chans : list nat) (bdy : list pixel)
  : list pixel * result unit :=
  match chans with
  | [] => (bdy, Ok ())
  | ii :: rest =>
      match p ← list_item imlist ii; fits_open_data fs p with
      | Raise e => (bdy, Raise e)
      | Ok data =>
          let r := copy_planes cast zero sh data ii (range nstokes) bdy in
          match r.2 with
          | Ok _ => fill_channels sh rest r.1
          | Raise e => (r.1, Raise e)
          end
      end
  end.

(** Lines 69-95 *)
Definition fill_cube_with_images (out : FitsFile pixel) : FitsFile pixel * result unit :=
  match open_update out with
  | Raise e => (out, Raise e)
  | Ok sh =>
      let max_chan := length imlist in
      let r := fill_channels sh (seq 0 max_chan) (body out) in
      let out1 := MkFits (hdr out) r.1 in
      match r.2 with
      | Raise e => (out1, Raise e)
      | Ok _ =>
          match sh !! 1%nat with
          | None => (out1, Raise IndexError)
          | Some depth =>
              let highest_channel := Z.of_nat depth + 1 in
              (update_fits_header out1 (fitsheader highest_channel), Ok ())
          end
      end
  end.

(** One unit of work of the pool: [insert_channel] on its own handle of
    the file. *)
Definition run_unit (chan : nat) (out : FitsFile pixel) : FitsFile pixel * result unit :=
  insert_channel cast zero chan out fs imlist nstokes.

(** The pool runs the submitted units in some order, the schedule; [sol]
    maps every channel to the outcome of its unit. The units are run one
    after the other here; [unit_stores] and [interleaving] below describe
    the runs in which the processes store in turns. *)
Fixpoint run_units (schedule : list nat) (out : FitsFile pixel)
    (sol : gmap nat (result unit)) : FitsFile pixel * gmap nat (result unit) :=
  match schedule with
  | [] => (out, sol)
  | chan :: rest =>
      let r := run_unit chan out in
      run_units rest r.1 (<[chan := r.2]> sol)
  end.

(** Lines 130-131: [for s in sol: s.get()] raises the exception of the
    first unit, in submission order, that raised one. *)
Fixpoint first_error (chans : list nat) (sol : gmap nat (result unit)) : option exn :=
  match chans with
  | [] => None
  | chan :: rest =>
      match sol !! chan with
      | Some (Raise e) => Some e
      | _ => first_error rest sol
      end
  end.

(** Lines 111-139, for a schedule of the pool. *)
Definition fill_cube_with_images_multiprocess (schedule : list nat)
    (out : FitsFile pixel) : FitsFile pixel * result unit :=
  let max_chan := length imlist in
  let r := run_units schedule out ∅ in
  match first_error (seq 0 max_chan) r.2 with
  | Some e => (r.1, Raise e)
  | None => (update_fits_header r.1 (fitsheader (Z.of_nat max_chan)), Ok ())
  end.
End Pipeline.

(** ** The file as the fill paths see it after [make_empty_image] *)

Section Skeleton.
Context {value pixel : Type}.
Variable zero : pixel.

(** The header of [make_empty_image] followed by a data region of
    [data_size] zero bytes, that is [data_size / itemsize] zero elements. *)
Definition skeleton (fs : gmap string (ndarray value)) (imlist : list string)
    (nstokes : Z) : result (FitsFile pixel) :=
  xy ← image_dims fs imlist;
  let dims := cube_dims xy.1 xy.2 imlist nstokes in
  let header := cube_header xy.1 xy.2 imlist nstokes in
  let data_size := pad_data_size (raw_data_size dims) in
  Ok (MkFits header (replicate (Z.to_nat (data_size / itemsize)) zero)).

(** [outdata[p, d, y, x]] read back from the file. *)
Definition read_pixel (f : FitsFile pixel) (p d y x : nat) : option pixel :=
  match header_shape (hdr f) with
  | Some [W; Z; Y; X] =>
      if decide (p < W ∧ d < Z ∧ y < Y ∧ x < X)%nat
      then body f !! (((p * Z + d) * Y + y) * X + x)%nat
      else None
  | _ => None
  end.
End Skeleton.

(** Size in bytes of a file whose header prints to [hbytes] bytes. *)
Definition file_size {pixel : Type} (card_image : card → list byte)
    (f : FitsFile pixel) : Z :=
  Z.of_nat (length (tostring card_image (hdr f))) + itemsize * Z.of_nat (length (body f)).

(** ** Concrete inputs *)

(** A card image for the examples: the keyword, then blanks up to column 80. *)
Definition keyword_card (c : card) : list byte :=
  take 80 (String.list_byte_of_string (fst c) ++ replicate 80 blank).

(** An image of shape (planes, 1, A, B) whose plane [p] holds [v p]. *)
Definition const_image (planes A B : nat) (v : nat → Z) : ndarray Z :=
  NdArray [planes; 1; A; B]%nat
          (p ← seq 0 planes; replicate (A * B) (v p)).

(** The scenario of the spec: three 4x4 inputs with two planes, input
    [index] holding [(index + 1) * 10 + plane]. *)
Definition scenario_value (index plane : nat) : Z :=
  (Z.of_nat index + 1) * 10 + Z.of_nat plane.

Definition scenario_files : gmap string (ndarray Z) :=
  <["chan000" := const_image 2 4 4 (scenario_value 0)]>
  (<["chan001" := const_image 2 4 4 (scenario_value 1)]>
  (<["chan002" := const_image 2 4 4 (scenario_value 2)]> ∅)).

Definition scenario_list : list string := ["chan000"; "chan001"; "chan002"].

(** One 2x2 input. *)
Definition small_files : gmap string (ndarray Z) :=
  <["chan000" := const_image 1 2 2 (scenario_value 0)]> ∅.


(** ** Stores of a fill, as data *)

Section Writes.
Context {value pixel : Type}.
Variable cast : value → pixel.
Variable zero : pixel.

(** A store: the element offset it starts at and the values it puts. *)
Definition write : Type := nat * list pixel.

Definition apply_writes (ws : list write) (bdy : list pixel) : list pixel :=
  foldl (fun b w => list_inserts w.1 w.2 b) bdy ws.

(** What a store puts at offset [k], if it reaches it. *)
Definition cover (w : write) (k : nat) : option pixel :=
  if decide (w.1 ≤ k < w.1 + length w.2)%nat then w.2 !! (k - w.1)%nat else None.

(** The value the last store of [ws] that reaches [k] puts there. *)
Fixpoint last_cover (ws : list write) (k : nat) : option pixel :=
  match ws with
  | [] => None
  | w :: ws' =>
      match last_cover ws' k with
      | Some v => Some v
      | None => cover w k
      end
  end.

(** The store of [outdata[ss, ii, :, :] = data[ss, 0, :, :]], without the
    file it goes to. *)
Definition plane_write (sh : list nat) (data : ndarray value) (ii ss : nat)
  : result write :=
  src ← getitem_plane data ss;
  match sh with
  | [W; Z; Y; X] =>
      if decide (ss < W ∧ ii < Z)%nat then
        vals ← broadcast2 cast zero src Y X;
        Ok (plane_offset sh ss ii, vals)
      else Raise IndexError
  | _ => Raise IndexError
  end.

(** The stores of [copy_planes] up to the first exception, and how the
    loop ends. *)
Fixpoint plan (sh : list nat) (data : ndarray value) (ii : nat) (planes : list nat)
  : list write * result unit :=
  match planes with
  | [] => ([], Ok ())
  | ss :: rest =>
      match plane_write sh data ii ss with
      | Ok w => let r := plan sh data ii rest in (w :: r.1, r.2)
      | Raise e => ([], Raise e)
      end
  end.

(** The stores of single elements a store is made of. *)
Definition element_stores (w : write) : list write :=
  imap (fun i v => ((w.1 + i)%nat, [v])) w.2.

(** Offsets of the plane [outdata[ss, ii, :, :]]. *)
Definition in_plane (sh : list nat) (ss ii : nat) (k : nat) : Prop :=
  (plane_offset sh ss ii ≤ k < plane_offset sh ss ii + plane_len sh)%nat.

(** Offsets of channel [ii]: its planes [outdata[p, ii, :, :]]. *)
Definition in_channel (sh : list nat) (ii : nat) (k : nat) : Prop :=
  match sh with
  | [W; Z; Y; X] => ∃ p, (p < W)%nat ∧ (ii < Z)%nat ∧ in_plane sh p ii k
  | _ => False
  end.
End Writes.

Section UnitPlan.
Context {value pixel : Type}.
Variable cast : value → pixel.
Variable zero : pixel.
Variable fs : gmap string (ndarray value).
Variable imlist : list string.
Variable nstokes : Z.

(** The stores of [insert_channel chan] on a cube of shape [sh], and how
    the call ends, once the output is open. *)
Definition unit_plan (sh : list nat) (chan : nat) : list (@write pixel) * result unit :=
  match p ← list_item imlist chan; fits_open_data fs p with
  | Raise e => ([], Raise e)
  | Ok data => plan cast zero sh data chan (range nstokes)
  end.

(** The stores one unit of the pool performs on the mapped file [out],
    element by element, up to the exception that ends the unit if there
    is one. *)
Definition unit_stores (out : FitsFile pixel) (chan : nat) : list (@write pixel) :=
  match open_update out with
  | Ok sh => (unit_plan sh chan).1 ≫= element_stores
  | Raise _ => []
  end.
End UnitPlan.

(** [interleaving ls l]: the list [l] takes the elements of the lists
    [ls], each list in its own order. With [ls] the stores of the units of
    the pool, [l] is an order in which the processes may perform them. *)
Inductive interleaving {A : Type} : list (list A) → list A → Prop :=
| interleaving_done ls : Forall (fun l => l = []) ls → interleaving ls []
| interleaving_step ls1 x l ls2 rest :
    interleaving (ls1 ++ l :: ls2) rest →
    interleaving (ls1 ++ (x :: l) :: ls2) (x :: rest).

(** The scenario's output file after [make_empty_image]. *)
Definition scenario_skeleton : FitsFile Z :=
  match skeleton 0 scenario_files scenario_list 2 with
  | Ok f => f
  | Raise _ => MkFits [] []
  end.

(** Two inputs of one plane: a bare 2x2 image (two axes) and a 2x2 image
    stored with four axes. *)
Definition mixed_files : gmap string (ndarray Z) :=
  <["plane2d" := NdArray [2; 2]%nat [7; 7; 7; 7]]>
  (<["chan001" := const_image 1 2 2 (scenario_value 1)]> ∅).

Definition mixed_list : list string := ["plane2d"; "chan001"].

Definition mixed_skeleton : FitsFile Z :=
  match skeleton 0 mixed_files mixed_list 1 with
  | Ok f => f
  | Raise _ => MkFits [] []
  end.

(** The same two inputs, the four-axis one first. *)
Definition late_list : list string := ["chan001"; "plane2d"].

Definition late_skeleton : FitsFile Z :=
  match skeleton 0 mixed_files late_list 1 with
  | Ok f => f
  | Raise _ => MkFits [] []
  end.


(** ** Operations on the file after [make_empty_image] *)

Inductive fill_op : Type :=
| OpInsert (channo : nat)
| OpFillSequential
| OpFillPool (schedule : list nat)
| OpFinalize (naxis3 : Z).

Section Operations.
Context {value pixel : Type}.
Variable cast : value → pixel.
Variable zero : pixel.
Variable fs : gmap string (ndarray value).
Variable imlist : list string.
Variable nstokes : Z.

Definition run_op (f : FitsFile pixel) (o : fill_op) : FitsFile pixel :=
  match o with
  | OpInsert channo => (insert_channel cast zero channo f fs imlist nstokes).1
  | OpFillSequential => (fill_cube_with_images cast zero fs imlist nstokes f).1
  | OpFillPool schedule =>
      (fill_cube_with_images_multiprocess cast zero fs imlist nstokes schedule f).1
  | OpFinalize naxis3 => update_fits_header f (fitsheader naxis3)
  end.

Definition run_ops (f : FitsFile pixel) (ops : list fill_op) : FitsFile pixel :=
  foldl run_op f ops.
End Operations.

(** Keywords of the header of [make_empty_image], and after the depth-axis
    cards have been added. *)
Definition skeleton_keywords : list string :=
  ["SIMPLE"; "BITPIX"; "NAXIS"; "NAXIS1"; "NAXIS2"; "NAXIS3"; "NAXIS4"; "EXTEND";
   "CRPIX1"; "CRPIX2"].

Definition final_keywords : list string := skeleton_keywords ++ ["CRPIX3"; "CTYPE3"].

Definition known_keywords (h : Header) : Prop :=
  keywords h = skeleton_keywords ∨ keywords h = final_keywords.

(** A 2x2 image stored with five axes. *)
Definition deep_files : gmap string (ndarray Z) :=
  <["deep" := NdArray [1; 1; 1; 2; 2]%nat [5; 6; 7; 8]]> ∅.

Definition deep_skeleton : FitsFile Z :=
  match skeleton 0 deep_files ["deep"] 1 with
  | Ok f => f
  | Raise _ => MkFits [] []
  end.

(** The output file for the one-plane input "chan001" and two planes. *)
Definition short_skeleton : FitsFile Z :=
  match skeleton 0 mixed_files ["chan001"] 2 with
  | Ok f => f
  | Raise _ => MkFits [] []
  end.

(** One input of two planes whose image has 2 rows of 3 pixels. *)
Definition wide_files : gmap string (ndarray Z) :=
  <["wide" := const_image 2 2 3 (scenario_value 0)]> ∅.

Definition wide_skeleton : FitsFile Z :=
  match skeleton 0 wide_files ["wide"] 2 with
  | Ok f => f
  | Raise _ => MkFits [] []
  end.

(** A single pixel stored with four axes, and a row of four pixels: the
    squeeze leaves fewer than two axes. *)
Definition pixel_files : gmap string (ndarray Z) :=
  <["dot" := NdArray [1; 1; 1; 1]%nat [9]]>
  (<["row" := NdArray [1; 1; 1; 4]%nat [1; 2; 3; 4]]> ∅).

Section UntilError.
Context {value pixel : Type}.
Variable cast : value → pixel.
Variable zero : pixel.
Variable fs : gmap string (ndarray value).
Variable imlist : list string.
Variable nstokes : Z.

(** [insert_channel] for the channels of [chans] in turn, up to and
    including the first call that raises. *)
Fixpoint run_until_error (chans : list nat) (out : FitsFile pixel)
  : FitsFile pixel * result unit :=
  match chans with
  | [] => (out, Ok ())
  | chan :: rest =>
      let r := insert_channel cast zero chan out fs imlist nstokes in
      match r.2 with
      | Ok _ => run_until_error rest r.1
      | Raise e => (r.1, Raise e)
      end
  end.
End UntilError.

(** Three inputs, the second one with two axes only. *)
Definition broken_list : list string := ["chan001"; "plane2d"; "chan001"].

Definition broken_skeleton : FitsFile Z :=
  match skeleton 0 mixed_files broken_list 1 with
  | Ok f => f
  | Raise _ => MkFits [] []
  end.

(** [a[i0, i1, i2, i3]] on an array of four axes. *)
Definition getitem4 {pixel : Type} (a : ndarray pixel) (i0 i1 i2 i3 : nat) : option pixel :=
  match shape a with
  | [n0; n1; n2; n3] =>
      if decide (i0 < n0 ∧ i1 < n1 ∧ i2 < n2 ∧ i3 < n3)%nat
      then buf a !! (((i0 * n1 + i1) * n2 + i2) * n3 + i3)%nat
      else None
  | _ => None
  end.
(** * Properties *)

(** ** Arithmetic of the data size *)

Lemma wrap64_small z : - 2 ^ 63 ≤ z < 2 ^ 63 → wrap64 z = z.
Proof.
  intros Hz. unfold wrap64.
  rewrite Z.mod_small; lia.
Qed.

Lemma round_up_expr_ceil d : round_up_expr d = spec_padded d.
Proof.
  unfold round_up_expr, spec_padded, ceil_div, block_size.
  assert (Hq : (- d) / 2880 = - ((d - 1) / 2880) - 1).
  { symmetry. apply (Z.div_unique_pos _ _ _ (2879 - (d - 1) mod 2880)).
    - pose proof (Z.mod_pos_bound (d - 1) 2880). lia.
    - pose proof (Z.div_mod (d - 1) 2880). lia. }
  rewrite Hq. lia.
Qed.

Lemma spec_padded_bounds d : d ≤ spec_padded d < d + 2880.
Proof.
  rewrite <- round_up_expr_ceil. unfold round_up_expr, block_size.
  pose proof (Z.div_mod (d - 1) 2880).
  pose proof (Z.mod_pos_bound (d - 1) 2880). lia.
Qed.

Lemma spec_padded_mul4 d : ∃ k, spec_padded d = 4 * k.
Proof.
  exists (720 * ceil_div d block_size). unfold spec_padded, block_size. lia.
Qed.

Lemma np_product_dims X Y D P :
  0 < X → 0 < Y → 0 < D → 0 < P → X * Y * D * P < 2 ^ 63 →
  np_product [X; Y; D; P] = X * Y * D * P.
Proof.
  intros HX HY HD HP Hb. unfold np_product. simpl.
  assert (Hxy : 0 < X * Y) by (apply Z.mul_pos_pos; lia).
  assert (Hxyd : 0 < X * Y * D) by (apply Z.mul_pos_pos; lia).
  assert (HXYD : X * Y * D ≤ X * Y * D * P)
    by (rewrite <- (Z.mul_1_r (X * Y * D)) at 1; apply Z.mul_le_mono_nonneg_l; lia).
  assert (HXY' : X * Y ≤ X * Y * D)
    by (rewrite <- (Z.mul_1_r (X * Y)) at 1; apply Z.mul_le_mono_nonneg_l; lia).
  assert (HX1 : X ≤ X * Y)
    by (rewrite <- (Z.mul_1_r X) at 1; apply Z.mul_le_mono_nonneg_l; lia).
  rewrite (wrap64_small (1 * X)) by lia.
  replace (1 * X * Y) with (X * Y) by lia.
  rewrite (wrap64_small (X * Y)) by lia.
  rewrite (wrap64_small (X * Y * D)) by lia.
  apply wrap64_small. lia.
Qed.

Lemma pad_data_size_exact d :
  0 < d → spec_padded d < 2 ^ 63 → pad_data_size d = spec_padded d.
Proof.
  intros Hd Hb. rewrite <- round_up_expr_ceil in *.
  pose proof (spec_padded_bounds d) as Hsb. rewrite <- round_up_expr_ceil in Hsb.
  unfold pad_data_size, round_up_expr, block_size in *.
  pose proof (Z.div_mod (d - 1) 2880).
  pose proof (Z.mod_pos_bound (d - 1) 2880).
  rewrite (wrap64_small (d - 1)) by lia.
  rewrite (wrap64_small ((d - 1) / 2880)) by lia.
  rewrite (wrap64_small ((d - 1) / 2880 + 1)) by lia.
  apply wrap64_small. lia.
Qed.

Lemma np_product_dims_neg X Y D P :
  0 < X → 0 < Y → 0 < D → P < 0 → - 2 ^ 63 < X * Y * D * P →
  np_product [X; Y; D; P] = X * Y * D * P.
Proof.
  intros HX HY HD HP Hb. unfold np_product. cbn [fold_left].
  assert (Hxy : 0 < X * Y) by (apply Z.mul_pos_pos; lia).
  assert (Hxyd : 0 < X * Y * D) by (apply Z.mul_pos_pos; lia).
  assert (HXYD : X * Y * D * P ≤ X * Y * D * -1)
    by (apply Z.mul_le_mono_nonneg_l; lia).
  assert (HXY' : X * Y ≤ X * Y * D)
    by (rewrite <- (Z.mul_1_r (X * Y)) at 1; apply Z.mul_le_mono_nonneg_l; lia).
  assert (HX1 : X ≤ X * Y)
    by (rewrite <- (Z.mul_1_r X) at 1; apply Z.mul_le_mono_nonneg_l; lia).
  rewrite (wrap64_small (1 * X)) by lia.
  replace (1 * X * Y) with (X * Y) by lia.
  rewrite (wrap64_small (X * Y)) by lia.
  rewrite (wrap64_small (X * Y * D)) by lia.
  apply wrap64_small. lia.
Qed.

Lemma pad_data_size_exact_neg d :
  - 2 ^ 63 < d → d < 0 → pad_data_size d = spec_padded d.
Proof.
  intros Hd Hn. rewrite <- round_up_expr_ceil.
  pose proof (spec_padded_bounds d) as Hsb. rewrite <- round_up_expr_ceil in Hsb.
  unfold pad_data_size, round_up_expr, block_size in *.
  pose proof (Z.div_mod (d - 1) 2880).
  pose proof (Z.mod_pos_bound (d - 1) 2880).
  rewrite (wrap64_small (d - 1)) by lia.
  rewrite (wrap64_small ((d - 1) / 2880)) by lia.
  rewrite (wrap64_small ((d - 1) / 2880 + 1)) by lia.
  apply wrap64_small. lia.
Qed.

Lemma seek_write_length file pos data :
  Z.of_nat (length file) ≤ pos →
  ∃ file', seek_write file pos data = Ok file'
           ∧ Z.of_nat (length file') = pos + Z.of_nat (length data).
Proof.
  intros Hpos. unfold seek_write.
  destruct (decide (pos < 0)) as [Hneg|_]; [lia|].
  eexists. split; [reflexivity|].
  rewrite !length_app, length_take, length_replicate, length_drop. lia.
Qed.

(** ** Size of the skeleton *)

Lemma image_dims_nonneg {value : Type} (fs : gmap string (ndarray value)) imlist X Y :
  image_dims fs imlist = Ok (X, Y) → 0 ≤ X ∧ 0 ≤ Y.
Proof.
  unfold image_dims. intros Hdims.
  destruct (list_item imlist 0) as [p|]; simpl in Hdims; [|discriminate].
  destruct (fits_open_data fs p) as [a|]; simpl in Hdims; [|discriminate].
  destruct (last_two _) as [|x [|y [|? ?]]]; try discriminate.
  injection Hdims as <- <-. lia.
Qed.

(** Within the int64 range the data size of lines 50-54 is the padded byte
    count of the cube. *)
Lemma cube_data_size X Y imlist nstokes :
  let d := X * Y * Z.of_nat (length imlist) * nstokes * 4 in
  0 ≤ X → 0 ≤ Y → 0 < d → spec_padded d < 2 ^ 63 →
  pad_data_size (raw_data_size (cube_dims X Y imlist nstokes)) = spec_padded d.
Proof.
  intros d HX HY Hd Hb.
  set (D := Z.of_nat (length imlist)) in *.
  assert (HD : 0 ≤ D) by (subst D; lia).
  assert (Hpos : 0 < X ∧ 0 < Y ∧ 0 < D ∧ 0 < nstokes).
  { subst d.
    assert (X ≠ 0) by (intros ->; lia).
    assert (Y ≠ 0) by (intros ->; lia).
    assert (D ≠ 0) by (intros ->; lia).
    assert (0 < X * Y * D) by (repeat apply Z.mul_pos_pos; lia).
    repeat split; lia. }
  destruct Hpos as (HX' & HY' & HD' & HP).
  pose proof (spec_padded_bounds d) as Hsb.
  assert (Hraw : raw_data_size (cube_dims X Y imlist nstokes) = d).
  { unfold raw_data_size, cube_dims, itemsize. fold D.
    rewrite np_product_dims by (subst d; lia).
    apply wrap64_small. subst d. lia. }
  rewrite Hraw. by apply pad_data_size_exact.
Qed.

(** C1 (amended to the 64-bit range numpy computes in). For an input list
    whose first image has spatial shape (X, Y), with
    [d = X * Y * Depth * Planes * 4] positive and the final size
    [headerSize + ceil(d / 2880) * 2880] below 2^63, [make_empty_image]
    returns a file of exactly that size; and the rounding expression of
    line 54 is that ceiling. *)
Theorem make_empty_image_size {value : Type} (card_image : card → list byte)
    (fs : gmap string (ndarray value)) (imlist : list string) (nstokes X Y : Z) :
  let d := X * Y * Z.of_nat (length imlist) * nstokes * 4 in
  let header_size := Z.of_nat (length (tostring card_image (cube_header X Y imlist nstokes))) in
  image_dims fs imlist = Ok (X, Y) →
  0 < d →
  header_size + spec_padded d < 2 ^ 63 →
  (∃ file, make_empty_image card_image fs imlist nstokes = (Some file, Ok ())
           ∧ Z.of_nat (length file) = header_size + spec_padded d)
  ∧ round_up_expr d = spec_padded d.
Proof.
  intros d header_size Hdims Hd Hb. split; [|apply round_up_expr_ceil].
  destruct (image_dims_nonneg _ _ _ _ Hdims) as [HX HY].
  pose proof (spec_padded_bounds d) as Hsb.
  assert (Hh : 0 ≤ header_size) by (subst header_size; lia).
  unfold make_empty_image. rewrite Hdims. cbv beta iota zeta. cbn [fst snd].
  rewrite (cube_data_size X Y imlist nstokes) by (fold d; lia).
  fold d header_size.
  rewrite (wrap64_small (header_size + spec_padded d)) by lia.
  rewrite (wrap64_small (header_size + spec_padded d - 1)) by lia.
  destruct (seek_write_length (tostring card_image (cube_header X Y imlist nstokes))
              (header_size + spec_padded d - 1) [x00]) as (file & Hw & Hlen).
  { fold header_size. lia. }
  rewrite Hw. exists file. split; [done|]. rewrite Hlen. simpl. lia.
Qed.

Lemma make_empty_image_size_witness :
  (∃ file, make_empty_image keyword_card scenario_files scenario_list 2
           = (Some file, Ok ())
           ∧ Z.of_nat (length file) = 2880 + spec_padded (4 * 4 * 3 * 2 * 4))
  ∧ round_up_expr (4 * 4 * 3 * 2 * 4) = spec_padded (4 * 4 * 3 * 2 * 4).
Proof.
  apply (make_empty_image_size keyword_card scenario_files scenario_list 2 4 4).
  - reflexivity.
  - reflexivity.
  - reflexivity.
Defined.

(** C1 as stated fails outside that range: with a 2x2 first image, one
    input and 2^60 planes the byte count [2 * 2 * 1 * 2^60 * 4] is 2^64,
    which is 0 in int64; the file keeps the size of its header. *)
Lemma make_empty_image_size_overflow :
  image_dims small_files ["chan000"] = Ok (2, 2)
  ∧ ∃ file, make_empty_image keyword_card small_files ["chan000"] (2 ^ 60)
            = (Some file, Ok ())
            ∧ Z.of_nat (length file) = 2880
            ∧ Z.of_nat (length file)
              ≠ Z.of_nat (length (tostring keyword_card (cube_header 2 2 ["chan000"] (2 ^ 60))))
                + spec_padded (2 * 2 * 1 * 2 ^ 60 * 4).
Proof.
  split; [reflexivity|].
  eexists. split; [vm_compute; reflexivity|].
  split; [reflexivity|]. vm_compute. discriminate.
Qed.

(** ** Header cards *)

Lemma header_get_set_eq key v h : header_get (header_set key v h) key = Some v.
Proof.
  induction h as [|c h IH]; simpl.
  - rewrite decide_True by done. done.
  - destruct (decide (c.1 = key)) as [Heq|Hne]; simpl.
    + rewrite decide_True by done. done.
    + rewrite decide_False by done. exact IH.
Qed.

Lemma header_get_set_ne key key' v h :
  key ≠ key' → header_get (header_set key v h) key' = header_get h key'.
Proof.
  intros Hne. induction h as [|c h IH]; simpl.
  - rewrite decide_False by done. done.
  - destruct (decide (c.1 = key)) as [Heq|Hne1]; simpl.
    + rewrite decide_False by done. rewrite decide_False by congruence. done.
    + destruct (decide (c.1 = key')); [done|exact IH].
Qed.

Lemma naxis_key_head i : ∃ s, naxis_key i = String (Ascii.ascii_of_nat 78) s.
Proof. unfold naxis_key. simpl. eauto. Qed.

Lemma naxis_key_not_crpix i k : (∃ s, k = String (Ascii.ascii_of_nat 67) s) → naxis_key i ≠ k.
Proof.
  intros [s ->]. destruct (naxis_key_head i) as [s' ->]. discriminate.
Qed.





(** ** Stores into the data region *)

Local Open Scope nat_scope.

Section WriteLemmas.
Context {value pixel : Type}.
Variable cast : value → pixel.
Variable zero : pixel.
Implicit Types (ws : list (@write pixel)) (b : list pixel) (k : nat).

Lemma length_apply_writes ws b : length (apply_writes ws b) = length b.
Proof.
  revert b. induction ws as [|w ws IH]; intros b; simpl; [done|].
  unfold apply_writes in *. simpl. rewrite IH. apply length_inserts.
Qed.

Lemma lookup_inserts_cover (w : @write pixel) b k :
  k < length b →
  list_inserts w.1 w.2 b !! k
  = match cover w k with Some v => Some v | None => b !! k end.
Proof.
  intros Hk. unfold cover.
  destruct (decide (w.1 ≤ k < w.1 + length w.2)) as [Hin|Hout].
  - rewrite list_lookup_inserts by done.
    destruct (lookup_lt_is_Some_2 w.2 (k - w.1)) as [v Hv]; [lia|].
    by rewrite Hv.
  - destruct (decide (k < w.1)).
    + by apply list_lookup_inserts_lt.
    + apply list_lookup_inserts_ge. lia.
Qed.

Lemma lookup_apply_writes ws b k :
  k < length b →
  apply_writes ws b !! k
  = match last_cover ws k with Some v => Some v | None => b !! k end.
Proof.
  revert b. induction ws as [|w ws IH]; intros b Hk; [done|].
  change (apply_writes (w :: ws) b) with (apply_writes ws (list_inserts w.1 w.2 b)).
  rewrite IH by (by rewrite length_inserts). simpl.
  destruct (last_cover ws k); [done|].
  by apply lookup_inserts_cover.
Qed.

Lemma lookup_apply_writes_ge ws b k :
  length b ≤ k → apply_writes ws b !! k = None.
Proof. intros Hk. apply lookup_ge_None_2. by rewrite length_apply_writes. Qed.

(** Two lists of stores that agree on what reaches every offset leave
    the same data. *)
Lemma apply_writes_ext ws1 ws2 b1 b2 :
  length b1 = length b2 →
  (∀ k, k < length b1 →
        match last_cover ws1 k with Some v => Some v | None => b1 !! k end
        = match last_cover ws2 k with Some v => Some v | None => b2 !! k end) →
  apply_writes ws1 b1 = apply_writes ws2 b2.
Proof.
  intros Hlen Hext. apply list_eq. intros k.
  destruct (decide (k < length b1)) as [Hk|Hk].
  - rewrite !lookup_apply_writes by lia. by apply Hext.
  - rewrite !lookup_apply_writes_ge by lia. done.
Qed.

Lemma apply_writes_idemp ws b :
  apply_writes ws (apply_writes ws b) = apply_writes ws b.
Proof.
  apply list_eq. intros k.
  destruct (decide (k < length b)) as [Hk|Hk].
  - rewrite (lookup_apply_writes ws (apply_writes ws b))
      by (by rewrite length_apply_writes).
    rewrite lookup_apply_writes by done.
    by destruct (last_cover ws k).
  - rewrite !lookup_apply_writes_ge; [done|lia|rewrite length_apply_writes; lia].
Qed.

Lemma copy_planes_plan sh data ii planes b :
  copy_planes cast zero sh data ii planes b
  = (apply_writes (plan cast zero sh data ii planes).1 b, (plan cast zero sh data ii planes).2).
Proof.
  revert b. induction planes as [|ss rest IH]; intros b; [done|].
  simpl. unfold plane_write, setitem_plane.
  destruct (getitem_plane data ss) as [src|e]; simpl; [|done].
  destruct sh as [|W [|Z [|Y [|X [|? ?]]]]]; try done.
  destruct (decide (ss < W ∧ ii < Z)); [|done].
  destruct (broadcast2 cast zero src Y X) as [vals|e]; simpl; [|done].
  by rewrite IH.
Qed.

Lemma length_tabulate2 Y X (f : nat → nat → pixel) :
  length (tabulate2 Y X f) = Y * X.
Proof.
  unfold tabulate2.
  assert (H : ∀ s, length (seq s Y ≫= λ y, f y <$> seq 0 X) = Y * X); [|apply H].
  induction Y as [|Y IH]; intros s; [done|].
  simpl seq. rewrite bind_cons, length_app, length_fmap, length_seq, IH. lia.
Qed.

Lemma length_broadcast2 src Y X vals :
  broadcast2 cast zero src Y X = Ok vals → length vals = Y * X.
Proof.
  unfold broadcast2.
  destruct (replicate _ _ ++ _) as [|a [|c [|? ?]]]; try done.
  destruct (decide _); [|done].
  intros [= <-]. apply length_tabulate2.
Qed.

Lemma plane_write_spec sh data ii ss w :
  plane_write cast zero sh data ii ss = Ok w →
  ∃ W Z Y X, sh = [W; Z; Y; X] ∧ ss < W ∧ ii < Z
             ∧ w.1 = plane_offset sh ss ii ∧ length w.2 = plane_len sh.
Proof.
  unfold plane_write.
  destruct (getitem_plane data ss) as [src|e]; simpl; [|done].
  destruct sh as [|W [|Z [|Y [|X [|? ?]]]]]; try done.
  destruct (decide (ss < W ∧ ii < Z)) as [[??]|]; [|done].
  destruct (broadcast2 cast zero src Y X) as [vals|e] eqn:Hb; simpl; [|done].
  intros [= <-]. exists W, Z, Y, X. simpl.
  repeat split; try done. by apply length_broadcast2 in Hb.
Qed.

Lemma cover_in_plane sh data ii ss w k v :
  plane_write cast zero sh data ii ss = Ok w → cover w k = Some v →
  in_plane sh ss ii k ∧ in_channel sh ii k.
Proof.
  intros Hw Hc. apply plane_write_spec in Hw as (W & Z & Y & X & -> & ? & ? & Ho & Hl).
  unfold cover in Hc. destruct (decide _) as [Hin|]; [|done].
  assert (in_plane [W; Z; Y; X] ss ii k)
    by (unfold in_plane; rewrite <- ?Ho, <- ?Hl; lia).
  split; [done|]. by exists ss.
Qed.

(** Every offset a fill of channel [ii] stores to lies in a plane
    [outdata[ss, ii, :, :]] with [ss] one of the planes it loops over. *)
Lemma plan_covered sh data ii planes k v :
  last_cover (plan cast zero sh data ii planes).1 k = Some v →
  ∃ ss, ss ∈ planes ∧ in_plane sh ss ii k ∧ in_channel sh ii k.
Proof.
  revert v. induction planes as [|ss rest IH]; intros v; simpl; [done|].
  destruct (plane_write cast zero sh data ii ss) as [w|e] eqn:Hw; simpl; [|done].
  destruct (last_cover _ k) eqn:Hl.
  - intros _. destruct (IH _ eq_refl) as (ss' & ? & ? & ?).
    exists ss'. split; [by right|done].
  - intros Hc. destruct (cover_in_plane _ _ _ _ _ _ _ Hw Hc).
    exists ss. split; [by left|done].
Qed.

(** Channels are disjoint ranges of offsets. *)
Lemma in_channel_inj sh i j k : in_channel sh i k → in_channel sh j k → i = j.
Proof.
  destruct sh as [|W [|Z [|Y [|X [|? ?]]]]]; try done.
  intros (p & Hp & Hi & Hin) (q & Hq & Hj & Hin').
  unfold in_plane, plane_offset, plane_len in *.
  set (n := Y * X) in *.
  assert (Hab : p * Z + i = q * Z + j).
  { destruct (Nat.lt_trichotomy (p * Z + i) (q * Z + j)) as [Hlt|[Heq|Hgt]]; [|done|].
    - assert ((p * Z + i + 1) * n ≤ (q * Z + j) * n) by (apply Nat.mul_le_mono_r; lia). lia.
    - assert ((q * Z + j + 1) * n ≤ (p * Z + i) * n) by (apply Nat.mul_le_mono_r; lia). lia. }
  destruct (Nat.lt_trichotomy p q) as [Hlt|[Heq|Hgt]]; [|subst; lia|].
  - assert ((p + 1) * Z ≤ q * Z) by (apply Nat.mul_le_mono_r; lia). lia.
  - assert ((q + 1) * Z ≤ p * Z) by (apply Nat.mul_le_mono_r; lia). lia.
Qed.
Lemma in_plane_inj W Z Y X s s' i k :
  i < Z → in_plane [W; Z; Y; X] s i k → in_plane [W; Z; Y; X] s' i k → s = s'.
Proof.
  unfold in_plane, plane_offset, plane_len. intros Hi Hs Hs'.
  set (n := Y * X) in *.
  assert (Hab : s * Z + i = s' * Z + i).
  { destruct (Nat.lt_trichotomy (s * Z + i) (s' * Z + i)) as [Hlt|[Heq|Hgt]]; [|done|].
    - assert ((s * Z + i + 1) * n ≤ (s' * Z + i) * n) by (apply Nat.mul_le_mono_r; lia). lia.
    - assert ((s' * Z + i + 1) * n ≤ (s * Z + i) * n) by (apply Nat.mul_le_mono_r; lia). lia. }
  assert (s * Z = s' * Z) by lia.
  apply (Nat.mul_cancel_r s s' Z); lia.
Qed.

Lemma apply_writes_app ws1 ws2 b :
  apply_writes (ws1 ++ ws2) b = apply_writes ws2 (apply_writes ws1 b).
Proof. unfold apply_writes. apply foldl_app. Qed.

Lemma last_cover_elem ws k v :
  last_cover ws k = Some v → ∃ w, w ∈ ws ∧ cover w k = Some v.
Proof.
  induction ws as [|w ws IH]; [done|]. cbn [last_cover].
  destruct (last_cover ws k) as [v'|].
  - intros [= ->]. destruct (IH eq_refl) as (w' & ? & ?).
    exists w'. split; [by right|done].
  - intros Hc. exists w. split; [by left|done].
Qed.

Lemma last_cover_is_Some ws k w v :
  w ∈ ws → cover w k = Some v → is_Some (last_cover ws k).
Proof.
  induction ws as [|w0 ws IH]; intros Hin Hc; [by apply elem_of_nil in Hin|].
  cbn [last_cover]. destruct (last_cover ws k) as [v'|] eqn:Hl; [by eexists|].
  apply elem_of_cons in Hin as [->|Hin].
  - by rewrite Hc.
  - destruct (IH Hin Hc) as [? [=]].
Qed.

(** When the stores of a list put the same value wherever two of them
    meet, what reaches an offset does not depend on their order, nor on
    how they are cut into pieces. *)
Lemma last_cover_same ws ws' k :
  (∀ w1 w2 v1 v2, w1 ∈ ws → w2 ∈ ws →
                  cover w1 k = Some v1 → cover w2 k = Some v2 → v1 = v2) →
  (∀ v, (∃ w, w ∈ ws ∧ cover w k = Some v) ↔ (∃ w, w ∈ ws' ∧ cover w k = Some v)) →
  last_cover ws k = last_cover ws' k.
Proof.
  intros Hcons Hiff.
  destruct (last_cover ws k) as [v|] eqn:H1;
    destruct (last_cover ws' k) as [v'|] eqn:H2; try done.
  - f_equal. apply last_cover_elem in H1 as (w1 & ? & ?).
    apply last_cover_elem in H2. apply Hiff in H2 as (w2 & ? & ?).
    by apply (Hcons w1 w2).
  - apply last_cover_elem in H1. apply Hiff in H1 as (w & Hin & Hc).
    destruct (last_cover_is_Some _ _ _ _ Hin Hc) as [? Hs]. congruence.
  - apply last_cover_elem in H2. apply Hiff in H2 as (w & Hin & Hc).
    destruct (last_cover_is_Some _ _ _ _ Hin Hc) as [? Hs]. congruence.
Qed.

Lemma cover_element_stores (w : @write pixel) k v :
  (∃ e, e ∈ element_stores w ∧ cover e k = Some v) ↔ cover w k = Some v.
Proof.
  unfold element_stores. split.
  - intros (e & Hin & Hc). apply elem_of_lookup_imap in Hin as (i & x & -> & Hx).
    pose proof (lookup_lt_Some _ _ _ Hx) as Hi.
    unfold cover in *. cbn [fst snd length] in Hc.
    destruct (decide (w.1 + i ≤ k < w.1 + i + 1)) as [Hk|]; [|done].
    assert (k = w.1 + i) as -> by lia.
    rewrite Nat.sub_diag in Hc. cbn in Hc. injection Hc as ->.
    rewrite decide_True by lia. by replace (w.1 + i - w.1) with i by lia.
  - unfold cover. destruct (decide (w.1 ≤ k < w.1 + length w.2)) as [Hk|]; [|done].
    intros Hv. exists (k, [v]). split.
    + apply elem_of_lookup_imap. exists (k - w.1), v. split; [f_equal; lia|done].
    + cbn [fst snd length]. rewrite decide_True by lia. by rewrite Nat.sub_diag.
Qed.

Lemma plan_elem sh data ii planes w :
  w ∈ (plan cast zero sh data ii planes).1 →
  ∃ ss, plane_write cast zero sh data ii ss = Ok w.
Proof.
  induction planes as [|ss rest IH]; cbn [plan fst].
  - intros Hin. by apply elem_of_nil in Hin.
  - destruct (plane_write cast zero sh data ii ss) as [w0|e] eqn:Hw; cbn [fst].
    + intros [->|Hin]%elem_of_cons; [by exists ss|by apply IH].
    + intros Hin. by apply elem_of_nil in Hin.
Qed.
End WriteLemmas.

Lemma elem_of_concat {A : Type} (x : A) (ls : list (list A)) :
  x ∈ concat ls ↔ ∃ l, x ∈ l ∧ l ∈ ls.
Proof.
  induction ls as [|l0 ls IH]; cbn [concat].
  - split; [by intros ?%elem_of_nil|]. by intros (l & _ & ?%elem_of_nil).
  - rewrite elem_of_app, IH. split.
    + intros [Hx|(l & Hx & Hl)]; [exists l0; split; [done|by left]|].
      exists l. split; [done|by right].
    + intros (l & Hx & [->|Hl]%elem_of_cons); [by left|]. right. by exists l.
Qed.

(** The lists one after the other are one of their interleavings. *)
Lemma interleaving_concat {A : Type} (ls : list (list A)) : interleaving ls (concat ls).
Proof.
  assert (H : ∀ nils, Forall (fun l : list A => l = []) nils →
                      interleaving (nils ++ ls) (concat ls)); [|by apply (H [])].
  induction ls as [|l ls IH]; intros nils Hnils.
  - rewrite app_nil_r. by apply interleaving_done.
  - cbn [concat]. induction l as [|x l IHl].
    + rewrite (cons_middle [] nils ls), app_assoc. apply IH.
      apply Forall_app. split; [done|]. by apply Forall_singleton.
    + rewrite <- app_comm_cons. by apply interleaving_step.
Qed.

(** An interleaving is a rearrangement of all the elements. *)
Lemma interleaving_Permutation {A : Type} (ls : list (list A)) (l : list A) :
  interleaving ls l → Permutation l (concat ls).
Proof.
  induction 1 as [ls Hnil|ls1 x l ls2 rest _ IH].
  - induction Hnil as [|l ls -> _ IH]; [done|]. exact IH.
  - rewrite concat_app in IH |- *. cbn [concat] in IH |- *.
    rewrite IH. rewrite <- app_comm_cons. apply Permutation_middle.
Qed.

(** ** One channel *)

Section Channel.
Context {value pixel : Type}.
Variable cast : value → pixel.
Variable zero : pixel.
Variable fs : gmap string (ndarray value).
Variable imlist : list string.
Variable nstokes : Z.

Lemma insert_channel_plan i (out : FitsFile pixel) :
  insert_channel cast zero i out fs imlist nstokes
  = match open_update out with
    | Raise e => (out, Raise e)
    | Ok sh =>
        (MkFits (hdr out)
                (apply_writes (unit_plan cast zero fs imlist nstokes sh i).1 (body out)),
         (unit_plan cast zero fs imlist nstokes sh i).2)
    end.
Proof.
  unfold insert_channel, unit_plan.
  destruct (open_update out) as [sh|e]; [|done].
  destruct (_ ← list_item imlist i; fits_open_data fs _) as [data|e].
  - by rewrite copy_planes_plan.
  - by destruct out.
Qed.

Lemma open_update_congr (f g : FitsFile pixel) :
  hdr f = hdr g → length (body f) = length (body g) →
  open_update f = open_update g.
Proof. unfold open_update. by intros -> ->. Qed.

Lemma open_update_shape (out : FitsFile pixel) sh :
  open_update out = Ok sh → header_shape (hdr out) = Some sh.
Proof.
  unfold open_update. destruct (header_shape (hdr out)); [|done].
  destruct (decide _); [|done]. by intros [= ->].
Qed.

Lemma insert_channel_hdr i (out : FitsFile pixel) :
  hdr (insert_channel cast zero i out fs imlist nstokes).1 = hdr out.
Proof. rewrite insert_channel_plan. by destruct (open_update out). Qed.

Lemma insert_channel_length i (out : FitsFile pixel) :
  length (body (insert_channel cast zero i out fs imlist nstokes).1) = length (body out).
Proof.
  rewrite insert_channel_plan. destruct (open_update out); [|done].
  apply length_apply_writes.
Qed.

Lemma unit_plan_covered sh i k v :
  last_cover (unit_plan cast zero fs imlist nstokes sh i).1 k = Some v →
  ∃ ss, ss < Z.to_nat nstokes ∧ in_plane sh ss i k ∧ in_channel sh i k.
Proof.
  unfold unit_plan.
  destruct (_ ← list_item imlist i; fits_open_data fs _) as [data|e]; [|done].
  intros Hc. apply plan_covered in Hc as (ss & Hin & ? & ?).
  exists ss. split; [|done].
  unfold range in Hin. apply elem_of_seq in Hin. lia.
Qed.

(** Offsets that [insert_channel i] leaves alone. *)
Lemma insert_channel_outside i (out : FitsFile pixel) sh k :
  header_shape (hdr out) = Some sh →
  (∀ v, last_cover (unit_plan cast zero fs imlist nstokes sh i).1 k ≠ Some v) →
  body (insert_channel cast zero i out fs imlist nstokes).1 !! k = body out !! k.
Proof.
  intros Hsh Hno. rewrite insert_channel_plan.
  destruct (open_update out) as [sh'|e] eqn:Hopen; [|done].
  apply open_update_shape in Hopen. rewrite Hsh in Hopen. injection Hopen as <-.
  simpl. destruct (decide (k < length (body out))) as [Hk|Hk].
  - rewrite lookup_apply_writes by done.
    destruct (last_cover _ k) as [v|] eqn:Hc; [by destruct (Hno v)|done].
  - rewrite lookup_apply_writes_ge by lia. symmetry. apply lookup_ge_None_2. lia.
Qed.

Lemma cell_in_channel W Z Y X p d y x :
  p < W → d < Z → y < Y → x < X →
  in_channel [W; Z; Y; X] d (((p * Z + d) * Y + y) * X + x).
Proof.
  intros. exists p. repeat split; try done.
  - unfold plane_offset. nia.
  - unfold plane_offset, plane_len. nia.
Qed.

(** C3. [insert_channel i] changes no header card; it stores only into
    the planes [outdata[p, i, :, :]] with [p] in [range(nstokes)]; every
    pixel of another channel [j] reads as before; and the offsets of two
    distinct channels never meet. *)
Theorem insert_channel_disjoint i j (out : FitsFile pixel) sh :
  i ≠ j →
  header_shape (hdr out) = Some sh →
  let out' := (insert_channel cast zero i out fs imlist nstokes).1 in
  hdr out' = hdr out
  ∧ (∀ k, (∀ p, p < Z.to_nat nstokes → ¬ in_plane sh p i k) →
          body out' !! k = body out !! k)
  ∧ (∀ p y x, read_pixel out' p j y x = read_pixel out p j y x)
  ∧ (∀ k, in_channel sh i k → in_channel sh j k → False).
Proof.
  intros Hij Hsh out'. split; [apply insert_channel_hdr|].
  split; [|split].
  - intros k Hout. apply (insert_channel_outside _ _ sh); [done|].
    intros v Hc. apply unit_plan_covered in Hc as (ss & ? & ? & _).
    by apply (Hout ss).
  - intros p y x. unfold read_pixel, out'.
    rewrite insert_channel_hdr, Hsh.
    destruct sh as [|W [|Z [|Y [|X [|? ?]]]]]; try done.
    destruct (decide _) as [(? & ? & ? & ?)|]; [|done].
    apply (insert_channel_outside _ _ [W; Z; Y; X]); [done|].
    intros v Hc. apply unit_plan_covered in Hc as (_ & _ & _ & Hi).
    apply Hij. eapply in_channel_inj; [exact Hi|]. by apply cell_in_channel.
  - intros k Hi Hj. apply Hij. by eapply in_channel_inj.
Qed.
Lemma insert_channel_open i (out : FitsFile pixel) :
  open_update (insert_channel cast zero i out fs imlist nstokes).1 = open_update out.
Proof.
  apply open_update_congr; [apply insert_channel_hdr|apply insert_channel_length].
Qed.

(** C9. A second [insert_channel i] with the same input leaves the file,
    and the outcome of the call, as the first one did. *)
Theorem insert_channel_idempotent i (out : FitsFile pixel) :
  insert_channel cast zero i (insert_channel cast zero i out fs imlist nstokes).1 fs imlist nstokes
  = insert_channel cast zero i out fs imlist nstokes.
Proof.
  rewrite (insert_channel_plan i (insert_channel cast zero i out fs imlist nstokes).1).
  rewrite insert_channel_open, insert_channel_hdr.
  rewrite (insert_channel_plan i out).
  destruct (open_update out) as [sh|e]; [|done].
  simpl. by rewrite apply_writes_idemp.
Qed.

(** The outcome of a unit does not depend on the units that ran before. *)
Lemma insert_channel_status i j (out : FitsFile pixel) :
  (insert_channel cast zero i (insert_channel cast zero j out fs imlist nstokes).1 fs imlist nstokes).2
  = (insert_channel cast zero i out fs imlist nstokes).2.
Proof.
  rewrite (insert_channel_plan i (insert_channel cast zero j out fs imlist nstokes).1).
  rewrite insert_channel_open, (insert_channel_plan i out).
  by destruct (open_update out).
Qed.

(** Units of distinct channels commute. *)
Lemma insert_channel_comm i j (out : FitsFile pixel) :
  i ≠ j →
  (insert_channel cast zero i (insert_channel cast zero j out fs imlist nstokes).1 fs imlist nstokes).1
  = (insert_channel cast zero j (insert_channel cast zero i out fs imlist nstokes).1 fs imlist nstokes).1.
Proof.
  intros Hij.
  rewrite (insert_channel_plan i (insert_channel cast zero j out fs imlist nstokes).1).
  rewrite (insert_channel_plan j (insert_channel cast zero i out fs imlist nstokes).1).
  rewrite !insert_channel_open, !insert_channel_hdr.
  rewrite (insert_channel_plan i out), (insert_channel_plan j out).
  destruct (open_update out) as [sh|e]; [|done].
  simpl. f_equal. apply list_eq. intros k.
  destruct (decide (k < length (body out))) as [Hk|Hk].
  - rewrite !lookup_apply_writes by (rewrite ?length_apply_writes; done).
    destruct (last_cover (unit_plan cast zero fs imlist nstokes sh i).1 k) as [v|] eqn:Hi;
    destruct (last_cover (unit_plan cast zero fs imlist nstokes sh j).1 k) as [v'|] eqn:Hj;
      try done.
    apply unit_plan_covered in Hi as (_ & _ & _ & Hi).
    apply unit_plan_covered in Hj as (_ & _ & _ & Hj).
    destruct Hij. by eapply in_channel_inj.
  - rewrite !lookup_apply_writes_ge by (rewrite ?length_apply_writes; lia). done.
Qed.
End Channel.

Lemma insert_channel_disjoint_witness :
  let out' := (insert_channel id 0%Z 0 scenario_skeleton scenario_files scenario_list 2).1 in
  hdr out' = hdr scenario_skeleton
  ∧ (∀ k, (∀ p, p < Z.to_nat 2 → ¬ in_plane [2; 3; 4; 4] p 0 k) →
          body out' !! k = body scenario_skeleton !! k)
  ∧ (∀ p y x, read_pixel out' p 1 y x = read_pixel scenario_skeleton p 1 y x)
  ∧ (∀ k, in_channel [2; 3; 4; 4] 0 k → in_channel [2; 3; 4; 4] 1 k → False).
Proof.
  apply (insert_channel_disjoint id 0%Z scenario_files scenario_list 2 0 1
           scenario_skeleton [2; 3; 4; 4]).
  - lia.
  - reflexivity.
Defined.

(** ** The pool *)

Section Pool.
Context {value pixel : Type}.
Variable cast : value → pixel.
Variable zero : pixel.
Variable fs : gmap string (ndarray value).
Variable imlist : list string.
Variable nstokes : Z.

Lemma run_units_hdr schedule (out : FitsFile pixel) sol :
  hdr (run_units cast zero fs imlist nstokes schedule out sol).1 = hdr out.
Proof.
  revert out sol. induction schedule as [|c rest IH]; intros out sol; [done|].
  simpl. rewrite IH. apply insert_channel_hdr.
Qed.

Lemma run_units_length schedule (out : FitsFile pixel) sol :
  length (body (run_units cast zero fs imlist nstokes schedule out sol).1)
  = length (body out).
Proof.
  revert out sol. induction schedule as [|c rest IH]; intros out sol; [done|].
  simpl. rewrite IH. apply insert_channel_length.
Qed.

(** The outcome of a unit is the same after any units. *)
Lemma run_unit_status_after schedule c (out : FitsFile pixel) sol :
  (run_unit cast zero fs imlist nstokes c
     (run_units cast zero fs imlist nstokes schedule out sol).1).2
  = (run_unit cast zero fs imlist nstokes c out).2.
Proof.
  revert out sol. induction schedule as [|c' rest IH]; intros out sol; [done|].
  simpl. rewrite IH. apply insert_channel_status.
Qed.

(** Every scheduled unit has run and left its outcome in [sol]. *)
Lemma run_units_sol schedule (out : FitsFile pixel) sol c :
  (run_units cast zero fs imlist nstokes schedule out sol).2 !! c
  = if decide (c ∈ schedule)
    then Some (run_unit cast zero fs imlist nstokes c out).2
    else sol !! c.
Proof.
  revert out sol. induction schedule as [|c' rest IH]; intros out sol.
  - cbn [run_units]. destruct (decide (c ∈ [])) as [Hin|]; [|done].
    by apply elem_of_nil in Hin.
  - cbn [run_units]. rewrite IH.
    destruct (decide (c ∈ rest)) as [Hin|Hnin].
    + rewrite decide_True by (by right).
      unfold run_unit. by rewrite insert_channel_status.
    + destruct (decide (c = c')) as [->|Hne].
      * rewrite decide_True by (by left). by rewrite lookup_insert_eq.
      * rewrite decide_False by (by intros [?|?]%elem_of_cons).
        by rewrite lookup_insert_ne.
Qed.

(** Schedules that are permutations of one another leave the same file
    and the same outcomes. *)
Lemma run_units_perm s1 s2 (out : FitsFile pixel) sol :
  Permutation s1 s2 →
  run_units cast zero fs imlist nstokes s1 out sol
  = run_units cast zero fs imlist nstokes s2 out sol.
Proof.
  intros Hp. revert out sol.
  induction Hp as [|x l l' _ IH|x y l|l l' l'' _ IH1 _ IH2]; intros out sol.
  - done.
  - simpl. apply IH.
  - simpl. destruct (decide (x = y)) as [->|Hne]; [done|].
    unfold run_unit.
    rewrite (insert_channel_comm cast zero fs imlist nstokes x y out) by done.
    rewrite !insert_channel_status.
    by rewrite (insert_insert_ne sol) by done.
  - by rewrite IH1.
Qed.
Lemma first_error_seq s n (sol : gmap nat (result unit)) c e :
  s ≤ c < s + n →
  sol !! c = Some (Raise e) →
  (∀ c', s ≤ c' < c → sol !! c' = Some (Ok ())) →
  first_error (seq s n) sol = Some e.
Proof.
  revert s. induction n as [|n IH]; intros s Hc He Hok; [lia|].
  simpl. destruct (decide (s = c)) as [->|Hne].
  - by rewrite He.
  - rewrite (Hok s) by lia. apply IH; [lia|done|].
    intros c' Hc'. apply Hok. lia.
Qed.

Lemma first_error_none chans (sol : gmap nat (result unit)) :
  (∀ c, c ∈ chans → sol !! c = Some (Ok ())) → first_error chans sol = None.
Proof.
  induction chans as [|c rest IH]; intros Hok; [done|].
  simpl. rewrite (Hok c) by (by left). apply IH. intros c' Hc'. apply Hok. by right.
Qed.

Lemma update_fits_header_body (f : FitsFile pixel) d :
  body (update_fits_header f d) = body f.
Proof. unfold update_fits_header. by destruct (decide _). Qed.

Lemma multiprocess_body schedule (out : FitsFile pixel) :
  body (fill_cube_with_images_multiprocess cast zero fs imlist nstokes schedule out).1
  = body (run_units cast zero fs imlist nstokes schedule out ∅).1.
Proof.
  unfold fill_cube_with_images_multiprocess.
  destruct (first_error _ _); [done|]. cbn [fst]. apply update_fits_header_body.
Qed.

Lemma copy_planes_length sh data ii planes (b : list pixel) :
  length (copy_planes cast zero sh data ii planes b).1 = length b.
Proof. rewrite copy_planes_plan. apply length_apply_writes. Qed.

(** When the sequential loop ends without an exception it has done what
    the units of its channels do, in its order. *)
Lemma fill_channels_run_units (out : FitsFile pixel) sh chans b' sol :
  open_update out = Ok sh →
  fill_channels cast zero fs imlist nstokes sh chans (body out) = (b', Ok ()) →
  (run_units cast zero fs imlist nstokes chans out sol).1 = MkFits (hdr out) b'.
Proof.
  revert out sol. induction chans as [|ii rest IH]; intros out sol Hopen Hfill.
  - simpl in *. injection Hfill as <-. by destruct out.
  - cbn [fill_channels] in Hfill. cbn [run_units]. unfold run_unit, insert_channel.
    rewrite Hopen.
    destruct (_ ← list_item imlist ii; fits_open_data fs _) as [data|e]; [|done].
    destruct (copy_planes cast zero sh data ii (range nstokes) (body out)) as [b1 r1] eqn:Hcp.
    simpl in *. destruct r1 as [[]|e]; [|done].
    rewrite (IH (MkFits (hdr out) b1) _); [done| |done].
    rewrite <- Hopen. apply open_update_congr; [done|].
    simpl. change b1 with (b1, @Ok unit ()).1. rewrite <- Hcp.
    apply copy_planes_length.
Qed.

Lemma fill_cube_with_images_body (out : FitsFile pixel) :
  (fill_cube_with_images cast zero fs imlist nstokes out).2 = Ok () →
  body (fill_cube_with_images cast zero fs imlist nstokes out).1
  = body (run_units cast zero fs imlist nstokes (seq 0 (length imlist)) out ∅).1.
Proof.
  unfold fill_cube_with_images.
  destruct (open_update out) as [sh|e] eqn:Hopen; [|done].
  destruct (fill_channels cast zero fs imlist nstokes sh (seq 0 (length imlist)) (body out))
    as [b' r] eqn:Hfill.
  simpl. destruct r as [[]|e]; [|done].
  rewrite (fill_channels_run_units out sh _ b' ∅ Hopen Hfill).
  destruct (sh !! 1); [|done]. cbn [fst]. by rewrite update_fits_header_body.
Qed.

(** The data region after the units of a schedule: their stores, unit
    after unit. *)
Lemma run_units_body schedule (out : FitsFile pixel) sol sh :
  open_update out = Ok sh →
  body (run_units cast zero fs imlist nstokes schedule out sol).1
  = apply_writes
      (concat ((fun c => (unit_plan cast zero fs imlist nstokes sh c).1) <$> schedule))
      (body out).
Proof.
  revert out sol. induction schedule as [|c rest IH]; intros out sol Hopen; [done|].
  cbn [run_units]. unfold run_unit. rewrite fmap_cons. cbn [concat].
  rewrite apply_writes_app, IH by (by rewrite insert_channel_open).
  by rewrite insert_channel_plan, Hopen.
Qed.

Lemma run_units_closed schedule (out : FitsFile pixel) sol e :
  open_update out = Raise e →
  (run_units cast zero fs imlist nstokes schedule out sol).1 = out.
Proof.
  intros Hopen. revert sol. induction schedule as [|c rest IH]; intros sol; [done|].
  cbn [run_units]. unfold run_unit. rewrite insert_channel_plan, Hopen. apply IH.
Qed.

(** Two stores of the pool that reach the same offset are the same
    store: the store of one plane of one channel. *)
Lemma unit_plans_consistent sh schedule k w1 w2 v1 v2 :
  w1 ∈ concat ((fun c => (unit_plan cast zero fs imlist nstokes sh c).1) <$> schedule) →
  w2 ∈ concat ((fun c => (unit_plan cast zero fs imlist nstokes sh c).1) <$> schedule) →
  cover w1 k = Some v1 → cover w2 k = Some v2 → v1 = v2.
Proof.
  intros (l1 & Hw1 & Hl1)%elem_of_concat (l2 & Hw2 & Hl2)%elem_of_concat Hc1 Hc2.
  apply list_elem_of_fmap in Hl1 as (c1 & -> & _).
  apply list_elem_of_fmap in Hl2 as (c2 & -> & _).
  unfold unit_plan in Hw1, Hw2.
  destruct (_ ← list_item imlist c1; fits_open_data fs _) as [data1|e1] eqn:Hd1;
    [|by apply elem_of_nil in Hw1].
  destruct (_ ← list_item imlist c2; fits_open_data fs _) as [data2|e2] eqn:Hd2;
    [|by apply elem_of_nil in Hw2].
  apply plan_elem in Hw1 as (ss1 & Hp1). apply plan_elem in Hw2 as (ss2 & Hp2).
  destruct (cover_in_plane _ _ _ _ _ _ _ _ _ Hp1 Hc1) as [Hin1 Hch1].
  destruct (cover_in_plane _ _ _ _ _ _ _ _ _ Hp2 Hc2) as [Hin2 Hch2].
  assert (c1 = c2) as -> by (by apply (in_channel_inj sh c1 c2 k)).
  assert (data1 = data2) as -> by congruence.
  destruct (plane_write_spec _ _ _ _ _ _ _ Hp1) as (W & Z & Y & X & -> & _ & Hc & _).
  assert (ss1 = ss2) as -> by (by apply (in_plane_inj W Z Y X ss1 ss2 c2 k)).
  congruence.
Qed.

(** The stores of the units, element by element and in any order at all,
    leave the data region that the units leave when they run one after
    the other. *)
Lemma stores_any_order schedule (out : FitsFile pixel) ws :
  Permutation ws (concat (unit_stores cast zero fs imlist nstokes out <$> schedule)) →
  apply_writes ws (body out)
  = body (run_units cast zero fs imlist nstokes schedule out ∅).1.
Proof.
  unfold unit_stores. destruct (open_update out) as [sh|e] eqn:Hopen; intros Hp.
  - rewrite (run_units_body schedule out ∅ sh Hopen).
    apply apply_writes_ext; [done|]. intros k _.
    rewrite (last_cover_same
               (concat ((fun c => (unit_plan cast zero fs imlist nstokes sh c).1) <$> schedule))
               ws k); [done|apply unit_plans_consistent|].
    intros v. split.
    + intros (w & Hw & Hc). apply cover_element_stores in Hc as (e & He & Hc).
      exists e. split; [|done]. rewrite Hp.
      apply elem_of_concat in Hw as (l & Hw & Hl).
      apply list_elem_of_fmap in Hl as (c & -> & Hc').
      apply elem_of_concat. eexists. split; [|apply list_elem_of_fmap; by exists c].
      apply list_elem_of_bind. by exists w.
    + intros (e & He & Hc). rewrite Hp in He.
      apply elem_of_concat in He as (l & He & Hl).
      apply list_elem_of_fmap in Hl as (c & -> & Hc').
      apply list_elem_of_bind in He as (w & He & Hw).
      exists w. split.
      * apply elem_of_concat. eexists. split; [done|]. apply list_elem_of_fmap. by exists c.
      * apply cover_element_stores. by exists e.
  - rewrite (run_units_closed schedule out ∅ e Hopen).
    assert (ws = []) as ->; [|done].
    apply Permutation_nil_r. rewrite Hp.
    clear. by induction schedule as [|c rest IH].
Qed.

(** C5 (amended). The pool leaves the same file and the same outcome for
    every order of its units, and its data region does not depend on how
    the stores of the units interleave: the stores of all units, element
    by element and interleaved in any way, leave the data region of the
    units run one after the other. The sequential path leaves that data
    region too whenever it returns without an exception. *)
Theorem fill_order_independent s1 s2 (out : FitsFile pixel) :
  Permutation s1 s2 →
  fill_cube_with_images_multiprocess cast zero fs imlist nstokes s1 out
  = fill_cube_with_images_multiprocess cast zero fs imlist nstokes s2 out
  ∧ (∀ ws, interleaving (unit_stores cast zero fs imlist nstokes out <$> s1) ws →
       apply_writes ws (body out)
       = body (fill_cube_with_images_multiprocess cast zero fs imlist nstokes s2 out).1)
  ∧ (Permutation s1 (seq 0 (length imlist)) →
     (fill_cube_with_images cast zero fs imlist nstokes out).2 = Ok () →
     body (fill_cube_with_images cast zero fs imlist nstokes out).1
     = body (fill_cube_with_images_multiprocess cast zero fs imlist nstokes s1 out).1).
Proof.
  intros Hp. split; [|split].
  - unfold fill_cube_with_images_multiprocess.
    by rewrite (run_units_perm s1 s2 out ∅ Hp).
  - intros ws Hws. rewrite multiprocess_body.
    rewrite <- (run_units_perm s1 s2 out ∅ Hp).
    apply stores_any_order. by apply interleaving_Permutation.
  - intros Hseq Hok. rewrite multiprocess_body, fill_cube_with_images_body by done.
    by rewrite (run_units_perm _ _ out ∅ Hseq).
Qed.

(** C6. The pool runs every submitted unit and keeps its outcome; when
    unit [c] raised [e] and no unit submitted before it raised, the
    function raises [e], after all units have run and without touching
    the header. *)
Theorem multiprocess_first_error schedule (out : FitsFile pixel) c e :
  Permutation schedule (seq 0 (length imlist)) →
  c < length imlist →
  (run_unit cast zero fs imlist nstokes c out).2 = Raise e →
  (∀ c', c' < c → (run_unit cast zero fs imlist nstokes c' out).2 = Ok ()) →
  let r := fill_cube_with_images_multiprocess cast zero fs imlist nstokes schedule out in
  r.2 = Raise e
  ∧ hdr r.1 = hdr out
  ∧ r.1 = (run_units cast zero fs imlist nstokes (seq 0 (length imlist)) out ∅).1
  ∧ (∀ c', c' < length imlist →
           (run_units cast zero fs imlist nstokes schedule out ∅).2 !! c'
           = Some (run_unit cast zero fs imlist nstokes c' out).2).
Proof.
  intros Hp Hc He Hok r.
  assert (Hsol : ∀ c', c' < length imlist →
            (run_units cast zero fs imlist nstokes schedule out ∅).2 !! c'
            = Some (run_unit cast zero fs imlist nstokes c' out).2).
  { intros c' Hc'. rewrite run_units_sol, decide_True; [done|].
    rewrite Hp. apply elem_of_seq. lia. }
  assert (Hfirst : first_error (seq 0 (length imlist))
                     (run_units cast zero fs imlist nstokes schedule out ∅).2 = Some e).
  { apply (first_error_seq 0 _ _ c); [lia| |].
    - by rewrite Hsol, He.
    - intros c' Hc'. rewrite Hsol by lia. rewrite Hok by lia. done. }
  unfold r, fill_cube_with_images_multiprocess. rewrite Hfirst. simpl.
  repeat split; try done.
  - apply run_units_hdr.
  - by rewrite (run_units_perm _ _ out ∅ Hp).
Qed.
End Pool.

Lemma fill_order_independent_witness :
  fill_cube_with_images_multiprocess id 0%Z scenario_files scenario_list 2 [2; 0; 1]
    scenario_skeleton
  = fill_cube_with_images_multiprocess id 0%Z scenario_files scenario_list 2 [0; 1; 2]
      scenario_skeleton
  ∧ (∀ ws, interleaving
             (unit_stores id 0%Z scenario_files scenario_list 2 scenario_skeleton
                <$> [2; 0; 1]) ws →
       apply_writes ws (body scenario_skeleton)
       = body (fill_cube_with_images_multiprocess id 0%Z scenario_files scenario_list 2
                 [0; 1; 2] scenario_skeleton).1)
  ∧ (Permutation [2; 0; 1] (seq 0 (length scenario_list)) →
     (fill_cube_with_images id 0%Z scenario_files scenario_list 2 scenario_skeleton).2 = Ok () →
     body (fill_cube_with_images id 0%Z scenario_files scenario_list 2 scenario_skeleton).1
     = body (fill_cube_with_images_multiprocess id 0%Z scenario_files scenario_list 2
               [2; 0; 1] scenario_skeleton).1).
Proof.
  apply (fill_order_independent id 0%Z scenario_files scenario_list 2 [2; 0; 1] [0; 1; 2]
           scenario_skeleton).
  exact (perm_trans (perm_swap 0 2 [1]) (perm_skip 0 (perm_swap 1 2 []))).
Defined.

(** C5 as stated fails when a unit raises: on the first input, which has
    only two axes, the sequential path stops and never copies channel 1;
    the pool runs the unit of channel 1 all the same. *)
Lemma fill_order_sequential_stops :
  Permutation [0; 1] (seq 0 (length mixed_list))
  ∧ (fill_cube_with_images id 0%Z mixed_files mixed_list 1 mixed_skeleton).2 = Raise IndexError
  ∧ read_pixel (fill_cube_with_images id 0%Z mixed_files mixed_list 1 mixed_skeleton).1
      0 1 0 0 = Some 0%Z
  ∧ read_pixel (fill_cube_with_images_multiprocess id 0%Z mixed_files mixed_list 1 [0; 1]
                  mixed_skeleton).1 0 1 0 0 = Some 20%Z
  ∧ body (fill_cube_with_images id 0%Z mixed_files mixed_list 1 mixed_skeleton).1
    ≠ body (fill_cube_with_images_multiprocess id 0%Z mixed_files mixed_list 1 [0; 1]
              mixed_skeleton).1.
Proof.
  split; [reflexivity|].
  split; [vm_compute; reflexivity|].
  split; [vm_compute; reflexivity|].
  split; [vm_compute; reflexivity|].
  vm_compute. discriminate.
Qed.

Lemma multiprocess_first_error_witness :
  let r := fill_cube_with_images_multiprocess id 0%Z mixed_files late_list 1 [1; 0]
             late_skeleton in
  r.2 = Raise IndexError
  ∧ hdr r.1 = hdr late_skeleton
  ∧ r.1 = (run_units id 0%Z mixed_files late_list 1 (seq 0 (length late_list))
             late_skeleton ∅).1
  ∧ (∀ c', c' < length late_list →
           (run_units id 0%Z mixed_files late_list 1 [1; 0] late_skeleton ∅).2 !! c'
           = Some (run_unit id 0%Z mixed_files late_list 1 c' late_skeleton).2).
Proof.
  apply (multiprocess_first_error id 0%Z mixed_files late_list 1 [1; 0] late_skeleton 1
           IndexError).
  - exact (perm_swap 0 1 []).
  - simpl. lia.
  - vm_compute. reflexivity.
  - intros c' Hc'. assert (c' = 0) as -> by lia. vm_compute. reflexivity.
Defined.

(** ** Header finalization *)

Lemma keywords_header_set key v h :
  keywords (header_set key v h)
  = if decide (key ∈ keywords h) then keywords h else keywords h ++ [key].
Proof.
  unfold keywords. induction h as [|c h IH].
  - cbn [header_set]. destruct (decide _) as [Hin|]; [|done].
    by apply elem_of_nil in Hin.
  - cbn [header_set]. rewrite fmap_cons.
    destruct (decide (c.1 = key)) as [Heq|Hne].
    + rewrite fmap_cons. cbn [fst]. rewrite Heq.
      destruct (decide (key ∈ key :: (fst <$> h))) as [|Hnin]; [done|].
      destruct Hnin. by left.
    + rewrite fmap_cons, IH.
      destruct (decide (key ∈ fst <$> h)) as [Hin|Hnin];
        destruct (decide (key ∈ c.1 :: (fst <$> h))) as [Hin'|Hnin']; try done.
      * destruct Hnin'. by right.
      * apply elem_of_cons in Hin' as [?|?]; [by destruct Hne|done].
Qed.

Lemma keywords_header_set_in key v h :
  key ∈ keywords h → keywords (header_set key v h) = keywords h.
Proof. intros Hin. rewrite keywords_header_set. by rewrite decide_True. Qed.

Lemma keywords_cube_header X Y imlist nstokes :
  keywords (cube_header X Y imlist nstokes) = skeleton_keywords.
Proof. reflexivity. Qed.

Lemma keywords_fitsheader h n :
  keywords h = skeleton_keywords ∨ keywords h = final_keywords →
  keywords (foldl (fun h kv => header_set kv.1 kv.2 h) h (fitsheader n)) = final_keywords.
Proof.
  intros Hk. simpl. rewrite !keywords_header_set.
  destruct Hk as [-> | ->]; reflexivity.
Qed.

Lemma fitsheader_fields h n :
  let h' := foldl (fun h kv => header_set kv.1 kv.2 h) h (fitsheader n) in
  header_get h' "CRPIX3" = Some (HInt 1)
  ∧ header_get h' "NAXIS3" = Some (HInt n)
  ∧ header_get h' "CTYPE3" = Some (HStr "FREQ").
Proof.
  simpl. repeat split.
  - rewrite !header_get_set_ne by discriminate. apply header_get_set_eq.
  - rewrite header_get_set_ne by discriminate. apply header_get_set_eq.
  - apply header_get_set_eq.
Qed.

(** Keywords the three assignments of lines 89-93 do not name. *)
Lemma fitsheader_other h n key :
  key ≠ "CRPIX3" → key ≠ "NAXIS3" → key ≠ "CTYPE3" →
  header_get (foldl (fun h kv => header_set kv.1 kv.2 h) h (fitsheader n)) key
  = header_get h key.
Proof.
  intros H1 H2 H3. cbn [foldl fitsheader fst snd].
  by rewrite !header_get_set_ne by done.
Qed.

(** *** The cards put back by the flush *)

Lemma header_get_notin h key : key ∉ keywords h → header_get h key = None.
Proof.
  unfold keywords. induction h as [|c h IH]; [done|].
  rewrite fmap_cons, not_elem_of_cons. intros [Hne Hnin].
  cbn [header_get]. rewrite decide_False by done. by apply IH.
Qed.

Lemma header_get_insert_after_ne after key v h key' :
  key ≠ key' →
  header_get (header_insert_after after (key, v) h) key' = header_get h key'.
Proof.
  intros Hne. induction h as [|c h IH].
  - cbn [header_insert_after header_get fst]. by rewrite decide_False.
  - cbn [header_insert_after]. destruct (decide (c.1 = after)) as [_|_].
    + cbn [header_get fst]. by rewrite (decide_False (P := key = key')).
    + cbn [header_get]. by rewrite IH.
Qed.

Lemma header_get_insert_after_eq after key v h :
  key ∉ keywords h →
  header_get (header_insert_after after (key, v) h) key = Some v.
Proof.
  unfold keywords. induction h as [|c h IH].
  - intros _. cbn [header_insert_after header_get fst snd]. by rewrite decide_True.
  - rewrite fmap_cons, not_elem_of_cons. intros [Hne Hnin].
    cbn [header_insert_after]. destruct (decide (c.1 = after)) as [_|_].
    + cbn [header_get fst snd].
      rewrite (decide_False (P := c.1 = key)) by done. by rewrite decide_True.
    + cbn [header_get]. rewrite decide_False by done. by apply IH.
Qed.

Lemma header_get_set_after after key v h key' :
  header_get (header_set_after after key v h) key'
  = if decide (key' = key) then Some v else header_get h key'.
Proof.
  unfold header_set_after.
  destruct (decide (key' = key)) as [->|Hne];
    destruct (decide (key ∈ keywords h)) as [Hin|Hnin].
  - apply header_get_set_eq.
  - by apply header_get_insert_after_eq.
  - by apply header_get_set_ne.
  - by apply header_get_insert_after_ne.
Qed.

Lemma header_get_set_second key v h key' :
  header_get (header_set_second key v h) key'
  = if decide (key' = key) then Some v else header_get h key'.
Proof.
  unfold header_set_second.
  destruct (decide (key' = key)) as [->|Hne];
    destruct (decide (key ∈ keywords h)) as [Hin|Hnin].
  - apply header_get_set_eq.
  - destruct h as [|c h].
    + cbn [header_get fst snd]. by rewrite decide_True.
    + apply not_elem_of_cons in Hnin as [Hc Hnin].
      cbn [header_get fst snd].
      rewrite (decide_False (P := c.1 = key)) by done. by rewrite decide_True.
  - by apply header_get_set_ne.
  - destruct h as [|c h].
    + cbn [header_get fst snd]. by rewrite decide_False.
    + cbn [header_get fst snd].
      by rewrite (decide_False (P := key = key')).
Qed.

Lemma keywords_set_after_in after key v h :
  key ∈ keywords h → keywords (header_set_after after key v h) = keywords h.
Proof.
  intros Hin. unfold header_set_after. rewrite decide_True by done.
  by apply keywords_header_set_in.
Qed.

Lemma keywords_set_second_in key v h :
  key ∈ keywords h → keywords (header_set_second key v h) = keywords h.
Proof.
  intros Hin. unfold header_set_second. rewrite decide_True by done.
  by apply keywords_header_set_in.
Qed.

Lemma naxis_count_4 h : header_get h "NAXIS" = Some (HInt 4) → naxis_count h = 4%nat.
Proof. unfold naxis_count. by intros ->. Qed.

Lemma header_axes_4 h :
  naxis_count h = 4%nat →
  header_axes h
  = [ default (HInt 0) (header_get h "NAXIS1"); default (HInt 0) (header_get h "NAXIS2");
      default (HInt 0) (header_get h "NAXIS3"); default (HInt 0) (header_get h "NAXIS4") ].
Proof. unfold header_axes. by intros ->. Qed.

(** The flush of a header of four axes: five cards take the values read
    at open, BITPIX as well, every other card is left alone. *)
Lemma update_header_4 b a1 a2 a3 a4 h :
  naxis_count h = 4%nat →
  update_header b [a1; a2; a3; a4] h
  = header_set_after "NAXIS3" "NAXIS4" a4
      (header_set_after "NAXIS2" "NAXIS3" a3
         (header_set_after "NAXIS1" "NAXIS2" a2
            (header_set_after "NAXIS" "NAXIS1" a1
               (header_set_after "BITPIX" "NAXIS" (HInt 4)
                  (header_set_second "BITPIX" b h))))).
Proof. unfold update_header. by intros ->. Qed.

Lemma update_header_get b a1 a2 a3 a4 h key :
  naxis_count h = 4%nat →
  header_get (update_header b [a1; a2; a3; a4] h) key
  = if decide (key = "NAXIS4") then Some a4
    else if decide (key = "NAXIS3") then Some a3
    else if decide (key = "NAXIS2") then Some a2
    else if decide (key = "NAXIS1") then Some a1
    else if decide (key = "NAXIS") then Some (HInt 4)
    else if decide (key = "BITPIX") then Some b
    else header_get h key.
Proof.
  intros Hn. rewrite update_header_4 by done.
  by rewrite !header_get_set_after, header_get_set_second.
Qed.

Lemma update_header_keywords b a1 a2 a3 a4 h :
  naxis_count h = 4%nat →
  "BITPIX" ∈ keywords h → "NAXIS" ∈ keywords h →
  "NAXIS1" ∈ keywords h → "NAXIS2" ∈ keywords h →
  "NAXIS3" ∈ keywords h → "NAXIS4" ∈ keywords h →
  keywords (update_header b [a1; a2; a3; a4] h) = keywords h.
Proof.
  intros Hn Hb H0 H1 H2 H3 H4. rewrite update_header_4 by done.
  pose proof (keywords_set_second_in "BITPIX" b h Hb) as K0.
  set (h0 := header_set_second "BITPIX" b h) in *.
  assert (K1 : keywords (header_set_after "BITPIX" "NAXIS" (HInt 4) h0) = keywords h).
  { rewrite keywords_set_after_in; by rewrite K0. }
  set (h1 := header_set_after "BITPIX" "NAXIS" (HInt 4) h0) in *.
  assert (K2 : keywords (header_set_after "NAXIS" "NAXIS1" a1 h1) = keywords h).
  { rewrite keywords_set_after_in; by rewrite K1. }
  set (h2 := header_set_after "NAXIS" "NAXIS1" a1 h1) in *.
  assert (K3 : keywords (header_set_after "NAXIS1" "NAXIS2" a2 h2) = keywords h).
  { rewrite keywords_set_after_in; by rewrite K2. }
  set (h3 := header_set_after "NAXIS1" "NAXIS2" a2 h2) in *.
  assert (K4 : keywords (header_set_after "NAXIS2" "NAXIS3" a3 h3) = keywords h).
  { rewrite keywords_set_after_in; by rewrite K3. }
  set (h4 := header_set_after "NAXIS2" "NAXIS3" a3 h3) in *.
  rewrite keywords_set_after_in; by rewrite K4.
Qed.

Section Flush.
Context {pixel : Type}.

(** The cards after the assignments of lines 89-93 and the flush, for a
    cube of four axes: CRPIX3 and CTYPE3 as assigned, NAXIS, BITPIX and
    the four axis lengths as they were at open, every other card as it
    was. *)
Lemma finalize_fields (f : FitsFile pixel) n :
  header_get (hdr f) "NAXIS" = Some (HInt 4) →
  let h' := hdr (update_fits_header f (fitsheader n)) in
  header_get h' "CRPIX3" = Some (HInt 1)
  ∧ header_get h' "CTYPE3" = Some (HStr "FREQ")
  ∧ header_get h' "NAXIS" = Some (HInt 4)
  ∧ (∀ key v, key ∈ ["BITPIX"; "NAXIS1"; "NAXIS2"; "NAXIS3"; "NAXIS4"] →
       header_get (hdr f) key = Some v → header_get h' key = Some v)
  ∧ (∀ key, key ∉ ["CRPIX3"; "CTYPE3"; "BITPIX"; "NAXIS";
                   "NAXIS1"; "NAXIS2"; "NAXIS3"; "NAXIS4"] →
       header_get h' key = header_get (hdr f) key).
Proof.
  intros Hn h'. unfold h', update_fits_header. clear h'.
  pose proof (fitsheader_fields (hdr f) n) as (Hc & Hn3 & Ht).
  pose proof (fitsheader_other (hdr f) n) as Ho.
  set (h1 := foldl (fun h kv => header_set kv.1 kv.2 h) (hdr f) (fitsheader n)) in *.
  cbv zeta. destruct (decide (h1 = hdr f)) as [Heq|Hne].
  - rewrite Heq in Hc, Ht. by repeat split.
  - cbn [hdr].
    assert (Hn1 : naxis_count h1 = 4%nat).
    { apply naxis_count_4. by rewrite Ho. }
    rewrite header_axes_4 by by apply naxis_count_4.
    split; [|split; [|split; [|split]]].
    + rewrite update_header_get by done. by rewrite !decide_False by discriminate.
    + rewrite update_header_get by done. by rewrite !decide_False by discriminate.
    + rewrite update_header_get by done. rewrite !decide_False by discriminate.
      by rewrite decide_True.
    + intros key v Hkey Hv. rewrite update_header_get by done.
      repeat (apply elem_of_cons in Hkey as [->|Hkey]);
        [..|by apply elem_of_nil in Hkey]; rewrite Hv;
        rewrite ?(decide_False (P := _ = _)) by discriminate; by rewrite decide_True.
    + intros key Hkey. rewrite update_header_get by done.
      repeat (apply not_elem_of_cons in Hkey as [? Hkey]).
      rewrite !decide_False by done. by apply Ho.
Qed.

Lemma finalize_naxis (f : FitsFile pixel) n :
  header_get (hdr f) "NAXIS" = Some (HInt 4) →
  header_get (hdr (update_fits_header f (fitsheader n))) "NAXIS" = Some (HInt 4).
Proof. intros Hn. by destruct (finalize_fields f n Hn) as (_ & _ & ? & _). Qed.

Lemma finalize_keywords (f : FitsFile pixel) n :
  known_keywords (hdr f) → header_get (hdr f) "NAXIS" = Some (HInt 4) →
  known_keywords (hdr (update_fits_header f (fitsheader n))).
Proof.
  intros Hk Hn. unfold update_fits_header.
  pose proof (keywords_fitsheader (hdr f) n Hk) as Hk1.
  pose proof (fitsheader_other (hdr f) n) as Ho.
  set (h1 := foldl (fun h kv => header_set kv.1 kv.2 h) (hdr f) (fitsheader n)) in *.
  cbv zeta. destruct (decide (h1 = hdr f)) as [Heq|Hne]; [done|].
  cbn [hdr]. right.
  rewrite header_axes_4 by by apply naxis_count_4.
  rewrite update_header_keywords; [done| |rewrite Hk1; set_solver..].
  apply naxis_count_4. by rewrite Ho.
Qed.
End Flush.

(** The flush keeps the shape of a cube of four axes, whatever NAXIS3 the
    dictionary of lines 89-93 carries. *)
Lemma header_shape_finalize {pixel : Type} (f : FitsFile pixel) n sh :
  header_get (hdr f) "NAXIS" = Some (HInt 4) →
  header_shape (hdr f) = Some sh →
  header_shape (hdr (update_fits_header f (fitsheader n))) = Some sh.
Proof.
  intros Hn. destruct (finalize_fields f n Hn) as (_ & _ & Hn' & Hax & _).
  unfold header_shape. rewrite Hn, Hn'.
  destruct (decide _); [|done].
  change (Z.to_nat 4) with 4%nat. cbn [axes].
  change (naxis_key 4) with "NAXIS4". change (naxis_key 3) with "NAXIS3".
  change (naxis_key 2) with "NAXIS2". change (naxis_key 1) with "NAXIS1".
  destruct (header_get (hdr f) "NAXIS4") as [v4|] eqn:H4; [|done].
  destruct (header_get (hdr f) "NAXIS3") as [v3|] eqn:H3;
    [|by destruct v4 as [|z|]; [| destruct (decide _) |]].
  destruct (header_get (hdr f) "NAXIS2") as [v2|] eqn:H2;
    [|by destruct v4 as [|z|], v3 as [|z'|]; try done; repeat destruct (decide _)].
  destruct (header_get (hdr f) "NAXIS1") as [v1|] eqn:H1;
    [|by destruct v4 as [|z|], v3 as [|z'|], v2 as [|z''|]; try done;
         repeat destruct (decide _)].
  rewrite (Hax "NAXIS4" v4), (Hax "NAXIS3" v3), (Hax "NAXIS2" v2), (Hax "NAXIS1" v1);
    try done; set_solver.
Qed.

Lemma axes_length h n sh : axes h n = Some sh → length sh = n.
Proof.
  revert sh. induction n as [|n IH]; intros sh; cbn [axes].
  - by intros [= <-].
  - destruct (header_get h (naxis_key (S n))) as [[| z |]|]; try done.
    destruct (decide _); [|done].
    destruct (axes h n) as [sh0|]; [|done].
    intros [= <-]. cbn [length]. by rewrite (IH sh0).
Qed.

(** A header that gives a shape of four axes has the card NAXIS = 4, and
    its NAXIS3 is the second length of the shape. *)
Lemma header_shape_4 h W Z Y X :
  header_shape h = Some [W; Z; Y; X] →
  header_get h "NAXIS" = Some (HInt 4)
  ∧ header_get h "NAXIS3" = Some (HInt (Z.of_nat Z)).
Proof.
  unfold header_shape.
  destruct (header_get h "NAXIS") as [[| n |]|]; try done.
  destruct (decide _) as [Hn|]; [|done]. intros Hax.
  pose proof (axes_length _ _ _ Hax) as Hlen. cbn [length] in Hlen.
  assert (n = 4%Z) as -> by lia. split; [done|].
  change (Z.to_nat 4) with 4%nat in Hax. cbn [axes] in Hax.
  change (naxis_key 3) with "NAXIS3" in Hax.
  destruct (header_get h (naxis_key 4)) as [[| z4 |]|]; try done.
  destruct (decide _); [|done].
  destruct (header_get h "NAXIS3") as [[| z3 |]|]; try done.
  destruct (decide _) as [H3|]; [|done].
  destruct (header_get h (naxis_key 2)) as [[| z2 |]|]; try done.
  destruct (decide _); [|done].
  destruct (header_get h (naxis_key 1)) as [[| z1 |]|]; try done.
  destruct (decide _); [|done].
  cbn in Hax. injection Hax as _ HZ _ _. do 2 f_equal. lia.
Qed.

Section Finalize.
Context {value pixel : Type}.
Variable cast : value → pixel.
Variable zero : pixel.
Variable fs : gmap string (ndarray value).
Variable imlist : list string.
Variable nstokes : Z.

Lemma fill_channels_length sh chans (b : list pixel) :
  length (fill_channels cast zero fs imlist nstokes sh chans b).1 = length b.
Proof.
  revert b. induction chans as [|ii rest IH]; intros b; [done|].
  cbn [fill_channels].
  destruct (_ ← list_item imlist ii; fits_open_data fs _) as [data|e]; [|done].
  pose proof (copy_planes_length cast zero sh data ii (range nstokes) b) as Hl.
  destruct (copy_planes cast zero sh data ii (range nstokes) b) as [b1 r1].
  simpl in *. destruct r1; simpl; [|done]. by rewrite IH.
Qed.

(** The sequential path: the file is left with its header when the path
    raises, and finalized with the depth of the cube plus one when it
    returns. *)
Lemma fill_cube_with_images_finalized (out : FitsFile pixel) :
  match (fill_cube_with_images cast zero fs imlist nstokes out).2 with
  | Raise _ => hdr (fill_cube_with_images cast zero fs imlist nstokes out).1 = hdr out
  | Ok _ => ∃ sh depth out1, open_update out = Ok sh ∧ sh !! 1%nat = Some depth
            ∧ hdr out1 = hdr out
            ∧ (fill_cube_with_images cast zero fs imlist nstokes out).1
              = update_fits_header out1 (fitsheader (Z.of_nat depth + 1))
  end.
Proof.
  unfold fill_cube_with_images. destruct (open_update out) as [sh|e]; [|done].
  destruct (fill_channels _ _ _ _ _ _ _) as [b r]. simpl.
  destruct r as [[]|e]; [|done].
  destruct (sh !! 1%nat) as [depth|] eqn:Hd; [|done].
  simpl. by exists sh, depth, (MkFits (hdr out) b).
Qed.

Lemma fill_cube_with_images_length (out : FitsFile pixel) :
  length (body (fill_cube_with_images cast zero fs imlist nstokes out).1) = length (body out).
Proof.
  unfold fill_cube_with_images. destruct (open_update out) as [sh|e]; [|done].
  pose proof (fill_channels_length sh (seq 0 (length imlist)) (body out)) as Hl.
  destruct (fill_channels _ _ _ _ _ _ _) as [b r]. simpl in *.
  destruct r; [|done]. destruct (sh !! 1%nat); [|done].
  cbn [fst]. by rewrite update_fits_header_body.
Qed.

Lemma multiprocess_length schedule (out : FitsFile pixel) :
  length (body (fill_cube_with_images_multiprocess cast zero fs imlist nstokes schedule out).1)
  = length (body out).
Proof. rewrite multiprocess_body. apply run_units_length. Qed.

(** The pool path: the file keeps its header when the path raises, and is
    finalized with the number of inputs when it returns. *)
Lemma multiprocess_finalized schedule (out : FitsFile pixel) :
  match (fill_cube_with_images_multiprocess cast zero fs imlist nstokes schedule out).2 with
  | Raise _ =>
      hdr (fill_cube_with_images_multiprocess cast zero fs imlist nstokes schedule out).1
      = hdr out
  | Ok _ => ∃ out1, hdr out1 = hdr out
      ∧ (fill_cube_with_images_multiprocess cast zero fs imlist nstokes schedule out).1
        = update_fits_header out1 (fitsheader (Z.of_nat (length imlist)))
  end.
Proof.
  unfold fill_cube_with_images_multiprocess.
  destruct (first_error _ _); simpl.
  - by rewrite run_units_hdr.
  - eexists. split; [|done]. by rewrite run_units_hdr.
Qed.

(** The depth-axis cards after a path has returned: CRPIX3 and CTYPE3 as
    assigned, NAXIS3 as the file had it. *)
Lemma multiprocess_fields schedule (out : FitsFile pixel) v3 :
  let r := fill_cube_with_images_multiprocess cast zero fs imlist nstokes schedule out in
  header_get (hdr out) "NAXIS" = Some (HInt 4) →
  header_get (hdr out) "NAXIS3" = Some v3 →
  r.2 = Ok () →
  header_get (hdr r.1) "CRPIX3" = Some (HInt 1)
  ∧ header_get (hdr r.1) "NAXIS3" = Some v3
  ∧ header_get (hdr r.1) "CTYPE3" = Some (HStr "FREQ").
Proof.
  intros r Hn H3 Hok. pose proof (multiprocess_finalized schedule out) as Hh.
  unfold r in *. rewrite Hok in Hh. destruct Hh as (out1 & Hh1 & ->).
  rewrite <- Hh1 in Hn, H3.
  destruct (finalize_fields out1 (Z.of_nat (length imlist)) Hn) as (Hc & Ht & _ & Hax & _).
  split; [done|]. split; [|done]. apply Hax; [|done].
  do 3 (apply elem_of_cons; right). apply elem_of_cons. by left.
Qed.

Lemma sequential_fields (out : FitsFile pixel) v3 :
  let r := fill_cube_with_images cast zero fs imlist nstokes out in
  header_get (hdr out) "NAXIS" = Some (HInt 4) →
  header_get (hdr out) "NAXIS3" = Some v3 →
  r.2 = Ok () →
  header_get (hdr r.1) "CRPIX3" = Some (HInt 1)
  ∧ header_get (hdr r.1) "NAXIS3" = Some v3
  ∧ header_get (hdr r.1) "CTYPE3" = Some (HStr "FREQ").
Proof.
  intros r Hn H3 Hok. pose proof (fill_cube_with_images_finalized out) as Hh.
  unfold r in *. rewrite Hok in Hh.
  destruct Hh as (sh & depth & out1 & _ & _ & Hh1 & ->).
  rewrite <- Hh1 in Hn, H3.
  destruct (finalize_fields out1 (Z.of_nat depth + 1) Hn) as (Hc & Ht & _ & Hax & _).
  split; [done|]. split; [|done]. apply Hax; [|done].
  do 3 (apply elem_of_cons; right). apply elem_of_cons. by left.
Qed.
End Finalize.

(** ** Size of the file *)

Lemma Ok_inj {A : Type} (a b : A) : Ok a = Ok b → a = b.
Proof. intros H. by injection H. Qed.

Section Size.
Context {value pixel : Type}.
Variable card_image : card → list byte.
Hypothesis card_image_80 : ∀ c, length (card_image c) = 80.
Variable cast : value → pixel.
Variable zero : pixel.
Variable fs : gmap string (ndarray value).
Variable imlist : list string.
Variable nstokes : Z.

Lemma length_concat_cards (h : Header) :
  length (concat (card_image <$> h)) = 80 * length h.
Proof.
  induction h as [|c h IH]; [done|].
  rewrite fmap_cons. cbn [concat]. rewrite length_app, IH, card_image_80.
  cbn [length]. lia.
Qed.

Lemma length_tostring (h : Header) :
  length (tostring card_image h)
  = 80 * length h + 80 + pad_len (80 * length h + 80).
Proof.
  unfold tostring. cbv zeta.
  rewrite length_app, length_replicate, length_app, length_concat_cards.
  reflexivity.
Qed.

Lemma length_tostring_known (h : Header) :
  known_keywords h → length (tostring card_image h) = 2880.
Proof.
  intros Hk. rewrite length_tostring.
  assert (Hl : length h = 10 ∨ length h = 12).
  { pose proof (length_fmap fst h) as Hf. fold (keywords h) in Hf.
    destruct Hk as [Hk|Hk]; rewrite Hk in Hf; [left|right]; symmetry; exact Hf. }
  destruct Hl as [-> | ->]; reflexivity.
Qed.

Lemma run_op_length (f : FitsFile pixel) o :
  length (body (run_op cast zero fs imlist nstokes f o)) = length (body f).
Proof.
  destruct o; simpl.
  - apply insert_channel_length.
  - apply fill_cube_with_images_length.
  - apply multiprocess_length.
  - by rewrite update_fits_header_body.
Qed.

(** What every header of the output file satisfies: the cards of the
    skeleton, with or without the two cards the finalization adds, and
    four axes. *)
Lemma run_op_keywords (f : FitsFile pixel) o :
  known_keywords (hdr f) ∧ header_get (hdr f) "NAXIS" = Some (HInt 4) →
  known_keywords (hdr (run_op cast zero fs imlist nstokes f o))
  ∧ header_get (hdr (run_op cast zero fs imlist nstokes f o)) "NAXIS" = Some (HInt 4).
Proof.
  intros [Hk Hn]. destruct o as [i| |schedule|n]; cbn [run_op].
  - by rewrite insert_channel_hdr.
  - pose proof (fill_cube_with_images_finalized cast zero fs imlist nstokes f) as Hh.
    destruct (fill_cube_with_images cast zero fs imlist nstokes f).2.
    + destruct Hh as (sh & depth & out1 & _ & _ & Hh1 & ->).
      rewrite <- Hh1 in Hk, Hn. split; [by apply finalize_keywords|].
      by apply finalize_naxis.
    + by rewrite Hh.
  - pose proof (multiprocess_finalized cast zero fs imlist nstokes schedule f) as Hh.
    destruct (fill_cube_with_images_multiprocess cast zero fs imlist nstokes schedule f).2.
    + destruct Hh as (out1 & Hh1 & ->).
      rewrite <- Hh1 in Hk, Hn. split; [by apply finalize_keywords|].
      by apply finalize_naxis.
    + by rewrite Hh.
  - split; [by apply finalize_keywords|]. by apply finalize_naxis.
Qed.

Lemma run_ops_invariant (f : FitsFile pixel) ops :
  known_keywords (hdr f) ∧ header_get (hdr f) "NAXIS" = Some (HInt 4) →
  known_keywords (hdr (run_ops cast zero fs imlist nstokes f ops))
  ∧ length (body (run_ops cast zero fs imlist nstokes f ops)) = length (body f).
Proof.
  revert f. induction ops as [|o ops IH]; intros f Hk; [by destruct Hk|].
  unfold run_ops in *. cbn [foldl].
  destruct (IH (run_op cast zero fs imlist nstokes f o)) as [Hk' Hl'].
  { by apply run_op_keywords. }
  split; [done|]. rewrite Hl'. apply run_op_length.
Qed.

Lemma skeleton_keywords_known sk :
  skeleton zero fs imlist nstokes = Ok sk →
  known_keywords (hdr sk) ∧ header_get (hdr sk) "NAXIS" = Some (HInt 4).
Proof.
  unfold skeleton. destruct (image_dims fs imlist) as [[X Y]|e]; [|done].
  cbn [mbind result_bind fst snd]. intros Hsk.
  apply Ok_inj in Hsk. subst sk. cbn [hdr].
  split; [|reflexivity]. left. apply keywords_cube_header.
Qed.

(** C7. From the file [make_empty_image] leaves, no sequence of
    [insert_channel] calls, runs of either fill path and header
    finalizations changes the size of the file in bytes. *)
Theorem file_size_invariant sk ops :
  skeleton zero fs imlist nstokes = Ok sk →
  file_size card_image (run_ops cast zero fs imlist nstokes sk ops) = file_size card_image sk.
Proof.
  intros Hsk. pose proof (skeleton_keywords_known sk Hsk) as Hk.
  destruct (run_ops_invariant sk ops Hk) as [Hk' Hl'].
  unfold file_size. rewrite Hl'.
  rewrite !length_tostring_known; [done|by destruct Hk|done].
Qed.
End Size.

Lemma keyword_card_80 c : length (keyword_card c) = 80.
Proof.
  unfold keyword_card. rewrite length_take, length_app, length_replicate. lia.
Qed.

Lemma file_size_invariant_witness :
  file_size keyword_card
    (run_ops id 0%Z scenario_files scenario_list 2 scenario_skeleton
       [OpInsert 1; OpFillPool [2; 0; 1]; OpFinalize 3; OpFillSequential; OpInsert 0])
  = file_size keyword_card scenario_skeleton.
Proof.
  apply (file_size_invariant keyword_card keyword_card_80 id 0%Z scenario_files
           scenario_list 2 scenario_skeleton).
  reflexivity.
Defined.

(** The file the fill paths open has the size of the file
    [make_empty_image] wrote. *)
Lemma skeleton_matches_file {value pixel : Type} (card_image : card → list byte) (zero : pixel)
    (fs : gmap string (ndarray value)) (imlist : list string) (nstokes X Y : Z) :
  let d := (X * Y * Z.of_nat (length imlist) * nstokes * 4)%Z in
  let header_size := Z.of_nat (length (tostring card_image (cube_header X Y imlist nstokes))) in
  image_dims fs imlist = Ok (X, Y) →
  (0 < d)%Z →
  (header_size + spec_padded d < 2 ^ 63)%Z →
  ∃ file sk, make_empty_image card_image fs imlist nstokes = (Some file, Ok ())
             ∧ skeleton zero fs imlist nstokes = Ok sk
             ∧ Z.of_nat (length file) = file_size card_image sk.
Proof.
  intros d header_size Hdims Hd Hb.
  destruct (image_dims_nonneg _ _ _ _ Hdims) as [HX HY].
  pose proof (spec_padded_bounds d) as Hsb.
  destruct (spec_padded_mul4 d) as [k Hk].
  assert (Hh : (0 ≤ header_size)%Z) by (subst header_size; lia).
  unfold make_empty_image, skeleton. rewrite Hdims.
  cbv beta iota zeta. cbn [mbind result_bind fst snd].
  rewrite !(cube_data_size X Y imlist nstokes) by (fold d; lia).
  fold d header_size.
  rewrite (wrap64_small (header_size + spec_padded d)) by lia.
  rewrite (wrap64_small (header_size + spec_padded d - 1)) by lia.
  destruct (seek_write_length (tostring card_image (cube_header X Y imlist nstokes))
              (header_size + spec_padded d - 1) [x00]) as (file & Hw & Hlen).
  { fold header_size. lia. }
  rewrite Hw. exists file. eexists. split; [done|]. split; [reflexivity|].
  rewrite Hlen. unfold file_size, itemsize. cbn [hdr body length].
  fold header_size. rewrite length_replicate, Hk.
  replace (4 * k / 4)%Z with k by (rewrite Z.mul_comm, Z.div_mul; lia).
  lia.
Qed.

(** ** Inputs the fill cannot index *)

Section Rank.
Context {value pixel : Type}.
Variable cast : value → pixel.
Variable zero : pixel.
Variable fs : gmap string (ndarray value).
Variable imlist : list string.
Variable nstokes : Z.

Lemma plan_covered_ok sh data ii planes k (v : pixel) :
  last_cover (plan cast zero sh data ii planes).1 k = Some v →
  ∃ ss w, plane_write cast zero sh data ii ss = Ok w ∧ in_plane sh ss ii k.
Proof.
  revert v. induction planes as [|ss rest IH]; intros v; simpl; [done|].
  destruct (plane_write cast zero sh data ii ss) as [w|e] eqn:Hw; simpl; [|done].
  destruct (last_cover _ k) eqn:Hl.
  - intros _. by eapply IH.
  - intros Hc. destruct (cover_in_plane _ _ _ _ _ _ _ _ _ Hw Hc). by exists ss, w.
Qed.

Lemma plan_raises sh (data : ndarray value) ii planes ss e0 :
  ss ∈ planes → plane_write cast zero sh data ii ss = Raise e0 →
  ∃ e, (plan cast zero sh data ii planes).2 = Raise e.
Proof.
  induction planes as [|s rest IH]; intros Hin Hw; [by apply elem_of_nil in Hin|].
  simpl. destruct (plane_write cast zero sh data ii s) as [w|e] eqn:Hs; simpl; [|by exists e].
  apply elem_of_cons in Hin as [->|Hin]; [congruence|]. by apply IH.
Qed.

(** A plane beyond the first axis cannot be read. *)
Lemma getitem_plane_short (data : ndarray value) n rest ss :
  shape data = n :: rest → n ≤ ss → getitem_plane data ss = Raise IndexError.
Proof.
  intros Hsh Hss. unfold getitem_plane. destruct (decide _); [done|].
  unfold index0. rewrite Hsh. rewrite decide_False by lia. done.
Qed.

Lemma getitem_plane_ok_lt (data : ndarray value) n rest ss src :
  shape data = n :: rest → getitem_plane data ss = Ok src → ss < n.
Proof.
  intros Hsh Hg. destruct (decide (ss < n)); [done|].
  rewrite (getitem_plane_short data n rest ss) in Hg by (done || lia). done.
Qed.

(** Fewer than four axes, or nothing along the first or the second axis:
    plane 0 cannot be read. *)
Lemma getitem_plane_0 (data : ndarray value) :
  length (shape data) < 4
  ∨ (∃ n m rest, shape data = n :: m :: rest ∧ (n = 0 ∨ m = 0)) →
  getitem_plane data 0 = Raise IndexError.
Proof.
  intros Hbad. unfold getitem_plane. destruct (decide _) as [|Hge]; [done|].
  destruct Hbad as [?|(n & m & rest & Hsh & Hz)]; [lia|].
  unfold index0 at 2. rewrite Hsh.
  destruct (decide (0 < n)) as [Hn|]; [|done].
  simpl. unfold index0. simpl. rewrite decide_False by lia. done.
Qed.
Lemma range_pos : (1 ≤ nstokes)%Z → ∃ m, range nstokes = 0 :: seq 1 m.
Proof.
  intros Hn. unfold range. exists (Z.to_nat nstokes - 1).
  replace (Z.to_nat nstokes) with (S (Z.to_nat nstokes - 1)) at 1 by lia. done.
Qed.

(** C10 (amended). The fill reads [data[ss, 0, :, :]] from the array as it
    is stored. With at least one plane to copy: an input with fewer than
    four axes, or with an empty first or second axis, makes
    [insert_channel] raise IndexError and leave the file as it was, also
    when [make_empty_image] accepts that input as the first image (two
    axes, none of length one); an input whose first axis is shorter than
    the plane count makes it raise after it has stored at most the planes
    that axis has. *)
Theorem fill_rank_errors i p data (out : FitsFile pixel) sh :
  imlist !! i = Some p → fs !! p = Some data →
  open_update out = Ok sh → (1 ≤ nstokes)%Z →
  (length (shape data) < 4
   ∨ (∃ n m rest, shape data = n :: m :: rest ∧ (n = 0 ∨ m = 0)) →
   insert_channel cast zero i out fs imlist nstokes = (out, Raise IndexError))
  ∧ (∀ a b, shape data = [a; b] → a ≠ 1 → b ≠ 1 → i = 0 →
            image_dims fs imlist = Ok (Z.of_nat a, Z.of_nat b))
  ∧ (∀ n rest, shape data = n :: rest → (Z.of_nat n < nstokes)%Z →
       (∃ e, (insert_channel cast zero i out fs imlist nstokes).2 = Raise e)
       ∧ ∀ k, (∀ ss, ss < n → ¬ in_plane sh ss i k) →
              body (insert_channel cast zero i out fs imlist nstokes).1 !! k = body out !! k).
Proof.
  intros Hi Hp Hopen Hn.
  assert (Hdata : (q ← list_item imlist i; fits_open_data fs q) = Ok data).
  { unfold list_item, fits_open_data. rewrite Hi. simpl. by rewrite Hp. }
  split; [|split].
  - intros Hbad. unfold insert_channel. rewrite Hopen, Hdata.
    destruct (range_pos Hn) as [m ->]. cbn [copy_planes].
    rewrite (getitem_plane_0 data Hbad). simpl. by destruct out.
  - intros a b Hsh Ha Hb ->. unfold image_dims, list_item, fits_open_data.
    rewrite Hi. simpl. rewrite Hp. simpl. rewrite Hsh.
    unfold squeeze_shape.
    rewrite (filter_cons_True _ a) by done.
    rewrite (filter_cons_True _ b) by done.
    by rewrite filter_nil.
  - intros n rest Hsh Hshort.
    rewrite insert_channel_plan, Hopen. unfold unit_plan. rewrite Hdata. simpl.
    split.
    + apply (plan_raises sh data i _ n IndexError).
      * unfold range. apply elem_of_seq. lia.
      * unfold plane_write. by rewrite (getitem_plane_short data n rest n).
    + intros k Hout. destruct (decide (k < length (body out))) as [Hk|Hk].
      * rewrite lookup_apply_writes by done.
        destruct (last_cover _ k) as [v|] eqn:Hc; [|done].
        apply plan_covered_ok in Hc as (ss & w & Hw & Hin).
        destruct (Hout ss); [|done].
        unfold plane_write in Hw.
        destruct (getitem_plane data ss) as [src|] eqn:Hg; [|done].
        by eapply getitem_plane_ok_lt.
      * rewrite lookup_apply_writes_ge by lia. symmetry. apply lookup_ge_None_2. lia.
Qed.
End Rank.

Lemma fill_rank_errors_witness :
  (length (shape (NdArray [2; 2] [7; 7; 7; 7]%Z)) < 4
   ∨ (∃ n m rest, shape (NdArray [2; 2] [7; 7; 7; 7]%Z) = n :: m :: rest ∧ (n = 0 ∨ m = 0)) →
   insert_channel id 0%Z 0 mixed_skeleton mixed_files mixed_list 1
   = (mixed_skeleton, Raise IndexError))
  ∧ (∀ a b, shape (NdArray [2; 2] [7; 7; 7; 7]%Z) = [a; b] → a ≠ 1 → b ≠ 1 → 0 = 0 →
            image_dims mixed_files mixed_list = Ok (Z.of_nat a, Z.of_nat b))
  ∧ (∀ n rest, shape (NdArray [2; 2] [7; 7; 7; 7]%Z) = n :: rest → (Z.of_nat n < 1)%Z →
       (∃ e, (insert_channel id 0%Z 0 mixed_skeleton mixed_files mixed_list 1).2 = Raise e)
       ∧ ∀ k, (∀ ss, ss < n → ¬ in_plane [1; 2; 2; 2] ss 0 k) →
              body (insert_channel id 0%Z 0 mixed_skeleton mixed_files mixed_list 1).1 !! k
              = body mixed_skeleton !! k).
Proof.
  apply (fill_rank_errors id 0%Z mixed_files mixed_list 1 0 "plane2d"
           (NdArray [2; 2] [7; 7; 7; 7]%Z) mixed_skeleton [1; 2; 2; 2]).
  - reflexivity.
  - reflexivity.
  - reflexivity.
  - lia.
Defined.

(** C10 as stated fails twice. An input with five axes, (1, 1, 1, 2, 2),
    is not four-dimensional, yet its fill returns without an exception and
    stores its pixels: the assignment drops the leading axis of length
    one. And the one-plane input "chan001", filled for two planes, raises
    IndexError at plane 1 after plane 0 has been stored. *)
Lemma fill_rank_counterexample :
  image_dims deep_files ["deep"] = Ok (2, 2)%Z
  ∧ (insert_channel id 0%Z 0 deep_skeleton deep_files ["deep"] 1).2 = Ok ()
  ∧ read_pixel (insert_channel id 0%Z 0 deep_skeleton deep_files ["deep"] 1).1 0 0 1 1
    = Some 8%Z
  ∧ (insert_channel id 0%Z 0 short_skeleton mixed_files ["chan001"] 2).2 = Raise IndexError
  ∧ read_pixel short_skeleton 0 0 0 0 = Some 0%Z
  ∧ read_pixel (insert_channel id 0%Z 0 short_skeleton mixed_files ["chan001"] 2).1 0 0 0 0
    = Some 20%Z.
Proof. repeat split; vm_compute; reflexivity. Qed.

(** ** Reading the cube back *)

(** The scenario of the spec: after either path the pixel at
    (plane 1, depth 2, y, x) is 31 for all y, x. *)
Lemma scenario_round_trip y x :
  y < 4 → x < 4 →
  read_pixel (fill_cube_with_images_multiprocess id 0%Z scenario_files scenario_list 2
                [0; 1; 2] scenario_skeleton).1 1 2 y x = Some 31%Z
  ∧ read_pixel (fill_cube_with_images id 0%Z scenario_files scenario_list 2
                  scenario_skeleton).1 1 2 y x = Some 31%Z.
Proof.
  intros Hy Hx.
  assert (Hys : y = 0 ∨ y = 1 ∨ y = 2 ∨ y = 3) by lia.
  assert (Hxs : x = 0 ∨ x = 1 ∨ x = 2 ∨ x = 3) by lia.
  destruct Hys as [->|[->|[->| ->]]]; destruct Hxs as [->|[->|[->| ->]]];
    split; vm_compute; reflexivity.
Qed.

(** C4 on an image that is not square. The input has shape (2, 1, 2, 3);
    [make_empty_image] writes NAXIS1 = 2 and NAXIS2 = 3, so the cube has
    shape (2, 1, 3, 2) and the (2, 3) plane of the input cannot be assigned
    to its (3, 2) slot: both fill paths raise ValueError and the cube reads
    0 where the input holds 10. *)
Theorem round_trip_fails_non_square :
  let pool_run := fill_cube_with_images_multiprocess id 0%Z wide_files ["wide"] 2 [0]
                    wide_skeleton in
  let seq_run := fill_cube_with_images id 0%Z wide_files ["wide"] 2 wide_skeleton in
  skeleton 0%Z wide_files ["wide"] 2 = Ok wide_skeleton
  ∧ image_dims wide_files ["wide"] = Ok (2, 3)%Z
  ∧ header_shape (hdr wide_skeleton) = Some [2; 1; 3; 2]
  ∧ pool_run.2 = Raise ValueError
  ∧ seq_run.2 = Raise ValueError
  ∧ scenario_value 0 0 = 10%Z
  ∧ read_pixel pool_run.1 0 0 0 0 = Some 0%Z
  ∧ read_pixel seq_run.1 0 0 0 0 = Some 0%Z.
Proof. repeat split; vm_compute; reflexivity. Qed.

(** * Further properties of the code *)

(** ** [make_empty_image]: inputs it rejects *)

(** Lines 21-22. [make_empty_image] raises without having written the
    file: IndexError on an empty list, FileNotFoundError when the first
    path is not a file, ValueError when the squeeze leaves the first image
    fewer than two axes (fewer than two of its axes have a length other
    than one), so that the unpacking of [shape[-2:]] fails. *)
Theorem make_empty_image_rejects {value : Type} (card_image : card → list byte)
    (fs : gmap string (ndarray value)) (imlist : list string) (nstokes : Z) :
  (imlist = [] →
   make_empty_image card_image fs imlist nstokes = (None, Raise IndexError))
  ∧ (∀ p, imlist !! 0 = Some p → fs !! p = None →
          make_empty_image card_image fs imlist nstokes = (None, Raise FileNotFoundError))
  ∧ (∀ p a, imlist !! 0 = Some p → fs !! p = Some a →
            length (squeeze_shape (shape a)) < 2 →
            make_empty_image card_image fs imlist nstokes = (None, Raise ValueError)).
Proof.
  unfold make_empty_image, image_dims, list_item, fits_open_data.
  split; [|split].
  - by intros ->.
  - intros p -> Hp. cbn [mbind result_bind]. by rewrite Hp.
  - intros p a -> Hp Hlen. cbn [mbind result_bind]. rewrite Hp.
    cbn [mbind result_bind]. unfold last_two.
    destruct (squeeze_shape (shape a)) as [|x [|y rest]]; [done|done|].
    simpl in Hlen. lia.
Qed.

Lemma make_empty_image_rejects_witness :
  make_empty_image keyword_card pixel_files [] 4 = (None, Raise IndexError)
  ∧ make_empty_image keyword_card pixel_files ["absent"] 4 = (None, Raise FileNotFoundError)
  ∧ make_empty_image keyword_card pixel_files ["dot"] 4 = (None, Raise ValueError)
  ∧ make_empty_image keyword_card pixel_files ["row"] 4 = (None, Raise ValueError).
Proof.
  destruct (make_empty_image_rejects keyword_card pixel_files [] 4) as (H1 & _ & _).
  destruct (make_empty_image_rejects keyword_card pixel_files ["absent"] 4) as (_ & H2 & _).
  destruct (make_empty_image_rejects keyword_card pixel_files ["dot"] 4) as (_ & _ & H3).
  destruct (make_empty_image_rejects keyword_card pixel_files ["row"] 4) as (_ & _ & H4).
  split; [by apply H1|].
  split; [by apply (H2 "absent")|].
  split.
  - apply (H3 "dot" (NdArray [1; 1; 1; 1] [9%Z])); [reflexivity|reflexivity|].
    vm_compute. lia.
  - apply (H4 "row" (NdArray [1; 1; 1; 4] [1; 2; 3; 4]%Z)); [reflexivity|reflexivity|].
    vm_compute. lia.
Defined.

(** ** [make_empty_image]: the header and the bytes it writes *)

Lemma cube_header_cards X Y imlist nstokes :
  cube_header X Y imlist nstokes
  = [ ("SIMPLE", HBool true); ("BITPIX", HInt (-32)); ("NAXIS", HInt 4);
      ("NAXIS1", HInt X); ("NAXIS2", HInt Y);
      ("NAXIS3", HInt (Z.of_nat (length imlist))); ("NAXIS4", HInt nstokes);
      ("EXTEND", HBool true);
      ("CRPIX1", HInt (int_half X)); ("CRPIX2", HInt (int_half Y)) ].
Proof. reflexivity. Qed.



Lemma replicate_snoc_byte n (b : byte) : replicate n b ++ [b] = replicate (S n) b.
Proof. induction n as [|n IH]; [done|]. simpl. by rewrite IH. Qed.

Lemma make_empty_image_bytes {value : Type} (card_image : card → list byte)
    (fs : gmap string (ndarray value)) (imlist : list string) (nstokes X Y : Z) :
  let d := (X * Y * Z.of_nat (length imlist) * nstokes * 4)%Z in
  let header := cube_header X Y imlist nstokes in
  image_dims fs imlist = Ok (X, Y) →
  (0 < d)%Z →
  (Z.of_nat (length (tostring card_image header)) + spec_padded d < 2 ^ 63)%Z →
  make_empty_image card_image fs imlist nstokes
  = (Some (tostring card_image header ++ replicate (Z.to_nat (spec_padded d)) x00),
     Ok ()).
Proof.
  intros d header Hdims Hd Hb.
  destruct (image_dims_nonneg _ _ _ _ Hdims) as [HX HY].
  pose proof (spec_padded_bounds d) as Hsb.
  unfold make_empty_image. rewrite Hdims. cbv beta iota zeta. cbn [fst snd].
  rewrite (cube_data_size X Y imlist nstokes) by (fold d; lia).
  fold d header.
  set (hs := Z.of_nat (length (tostring card_image header))) in *.
  rewrite (wrap64_small (hs + spec_padded d)) by lia.
  rewrite (wrap64_small (hs + spec_padded d - 1)) by lia.
  unfold seek_write. rewrite decide_False by lia. do 2 f_equal.
  rewrite take_ge by lia.
  rewrite drop_ge by (simpl; lia).
  replace (Z.to_nat (hs + spec_padded d - 1) - length (tostring card_image header))
    with (Z.to_nat (spec_padded d) - 1) by lia.
  rewrite app_nil_r, replicate_snoc_byte. do 2 f_equal. lia.
Qed.


(** Lines 44-58. Within the int64 range the file [make_empty_image] leaves
    is the serialized header followed by zero bytes only, as many as the
    padded data size. *)
Theorem make_empty_image_content {value : Type} (card_image : card → list byte)
    (fs : gmap string (ndarray value)) (imlist : list string) (nstokes X Y : Z) :
  let d := (X * Y * Z.of_nat (length imlist) * nstokes * 4)%Z in
  let header := cube_header X Y imlist nstokes in
  image_dims fs imlist = Ok (X, Y) →
  (0 < d)%Z →
  (Z.of_nat (length (tostring card_image header)) + spec_padded d < 2 ^ 63)%Z →
  make_empty_image card_image fs imlist nstokes
  = (Some (tostring card_image header ++ replicate (Z.to_nat (spec_padded d)) x00),
     Ok ()).
Proof. apply make_empty_image_bytes. Qed.

Lemma make_empty_image_content_witness :
  make_empty_image keyword_card scenario_files scenario_list 2
  = (Some (tostring keyword_card (cube_header 4 4 scenario_list 2)
             ++ replicate
                  (Z.to_nat (spec_padded (4 * 4 * Z.of_nat (length scenario_list) * 2 * 4)))
                  x00),
     Ok ()).
Proof.
  apply (make_empty_image_content keyword_card scenario_files scenario_list 2 4 4).
  - reflexivity.
  - reflexivity.
  - reflexivity.
Defined.

Lemma length_tostring_ge (card_image : card → list byte) (h : Header) :
  80 ≤ length (tostring card_image h).
Proof.
  unfold tostring. cbv zeta. rewrite !length_app.
  assert (length end_card = 80) as -> by reflexivity. lia.
Qed.

Lemma np_product_zero X Y D : np_product [X; Y; D; 0%Z] = 0%Z.
Proof. unfold np_product. simpl. by rewrite Z.mul_0_r. Qed.

(** Lines 50-58 with [nstokes = 0]. The data size is 0, the seek goes to
    the last byte of the header and the zero byte is written over it: the
    file has the size of the header and no data region. *)
Theorem make_empty_image_no_planes {value : Type} (card_image : card → list byte)
    (fs : gmap string (ndarray value)) (imlist : list string) (X Y : Z) :
  let header := tostring card_image (cube_header X Y imlist 0) in
  image_dims fs imlist = Ok (X, Y) →
  (Z.of_nat (length header) < 2 ^ 63)%Z →
  make_empty_image card_image fs imlist 0
  = (Some (take (length header - 1) header ++ [x00]), Ok ())
  ∧ length (take (length header - 1) header ++ [x00]) = length header.
Proof.
  intros header Hdims Hb.
  pose proof (length_tostring_ge card_image (cube_header X Y imlist 0)) as Hge.
  fold header in Hge.
  split.
  - unfold make_empty_image. rewrite Hdims. cbv beta iota zeta. cbn [fst snd].
    unfold raw_data_size, cube_dims. rewrite np_product_zero.
    change (pad_data_size (wrap64 (0 * itemsize))) with 0%Z.
    fold header. rewrite Z.add_0_r.
    rewrite (wrap64_small (Z.of_nat (length header))) by lia.
    rewrite (wrap64_small (Z.of_nat (length header) - 1)) by lia.
    unfold seek_write. rewrite decide_False by lia. do 2 f_equal.
    replace (Z.to_nat (Z.of_nat (length header) - 1)) with (length header - 1) by lia.
    rewrite drop_ge by (simpl; lia).
    replace (length header - 1 - length header) with 0 by lia.
    by rewrite app_nil_r.
  - rewrite length_app, length_take. simpl. lia.
Qed.

Lemma make_empty_image_no_planes_witness :
  make_empty_image keyword_card scenario_files scenario_list 0
  = (Some (take (length (tostring keyword_card (cube_header 4 4 scenario_list 0)) - 1)
                (tostring keyword_card (cube_header 4 4 scenario_list 0)) ++ [x00]),
     Ok ())
  ∧ length (take (length (tostring keyword_card (cube_header 4 4 scenario_list 0)) - 1)
                 (tostring keyword_card (cube_header 4 4 scenario_list 0)) ++ [x00])
    = length (tostring keyword_card (cube_header 4 4 scenario_list 0)).
Proof.
  apply (make_empty_image_no_planes keyword_card scenario_files scenario_list 4 4).
  - reflexivity.
  - reflexivity.
Defined.

(** Lines 44-58 with [nstokes < 0]. The byte count [d] is negative; when
    its size exceeds the header and one block, the position of line 57 is
    negative and the seek is refused: [make_empty_image] raises OSError,
    and the file it leaves is the header that line 44 wrote, without a
    data region. *)
Theorem make_empty_image_negative_planes {value : Type} (card_image : card → list byte)
    (fs : gmap string (ndarray value)) (imlist : list string) (nstokes X Y : Z) :
  let d := (X * Y * Z.of_nat (length imlist) * nstokes * 4)%Z in
  let header := cube_header X Y imlist nstokes in
  image_dims fs imlist = Ok (X, Y) →
  (nstokes < 0)%Z →
  (- 2 ^ 63 < d)%Z →
  (Z.of_nat (length (tostring card_image header)) + d + 2880 ≤ 0)%Z →
  make_empty_image card_image fs imlist nstokes
  = (Some (tostring card_image header), Raise OSError).
Proof.
  intros d header Hdims HP Hd Hb.
  destruct (image_dims_nonneg _ _ _ _ Hdims) as [HX HY].
  pose proof (spec_padded_bounds d) as Hsb.
  set (D := Z.of_nat (length imlist)) in *.
  assert (HD : (0 ≤ D)%Z) by (subst D; lia).
  assert (Hneg : (d < 0)%Z) by lia.
  assert (Hpos : (0 < X ∧ 0 < Y ∧ 0 < D)%Z).
  { subst d.
    assert (X ≠ 0%Z) by (intros ->; lia).
    assert (Y ≠ 0%Z) by (intros ->; lia).
    assert (D ≠ 0%Z) by (intros ->; lia).
    lia. }
  destruct Hpos as (HX' & HY' & HD').
  assert (Hraw : raw_data_size (cube_dims X Y imlist nstokes) = d).
  { unfold raw_data_size, cube_dims, itemsize. fold D.
    rewrite np_product_dims_neg by (subst d; lia).
    apply wrap64_small. subst d. lia. }
  unfold make_empty_image. rewrite Hdims. cbv beta iota zeta. cbn [fst snd].
  rewrite Hraw, pad_data_size_exact_neg by done.
  fold header.
  set (hs := Z.of_nat (length (tostring card_image header))) in *.
  rewrite (wrap64_small (hs + spec_padded d)) by lia.
  rewrite (wrap64_small (hs + spec_padded d - 1)) by lia.
  unfold seek_write. by rewrite decide_True by lia.
Qed.

Lemma make_empty_image_negative_planes_witness :
  make_empty_image keyword_card scenario_files scenario_list (-100)
  = (Some (tostring keyword_card (cube_header 4 4 scenario_list (-100))), Raise OSError).
Proof.
  apply (make_empty_image_negative_planes keyword_card scenario_files scenario_list (-100) 4 4).
  - reflexivity.
  - reflexivity.
  - reflexivity.
  - vm_compute. discriminate.
Defined.

(** Line 54. For a raw size [d >= 0] whose padding fits in int64, the padded
    data size is a multiple of 2880, at least [d] and less than one block
    above it; a raw size that is already a multiple of 2880 is kept. *)
Theorem pad_data_size_block (d : Z) :
  (0 ≤ d)%Z → (d + 2880 ≤ 2 ^ 63)%Z →
  (pad_data_size d mod 2880 = 0)%Z
  ∧ (d ≤ pad_data_size d < d + 2880)%Z
  ∧ ((d mod 2880 = 0)%Z → pad_data_size d = d).
Proof.
  intros Hd Hb.
  assert (Hpad : pad_data_size d = round_up_expr d).
  { unfold pad_data_size, round_up_expr, block_size.
    pose proof (Z.div_mod (d - 1) 2880).
    pose proof (Z.mod_pos_bound (d - 1) 2880).
    rewrite (wrap64_small (d - 1)) by lia.
    rewrite (wrap64_small ((d - 1) / 2880)) by lia.
    rewrite (wrap64_small ((d - 1) / 2880 + 1)) by lia.
    apply wrap64_small. lia. }
  rewrite Hpad. unfold round_up_expr, block_size.
  pose proof (Z.div_mod (d - 1) 2880) as Hdm.
  pose proof (Z.mod_pos_bound (d - 1) 2880) as Hmb.
  split; [|split].
  - rewrite Z.mul_comm. apply Z.mod_mul. lia.
  - lia.
  - intros Hmod.
    pose proof (Z.div_mod d 2880) as Hdm'. rewrite Hmod in Hdm'.
    assert (Hq : ((d - 1) / 2880 = d / 2880 - 1)%Z).
    { symmetry. apply (Z.div_unique_pos _ _ _ 2879); lia. }
    rewrite Hq. lia.
Qed.

Lemma pad_data_size_block_witness :
  (pad_data_size 5760 mod 2880 = 0)%Z
  ∧ (5760 ≤ pad_data_size 5760 < 5760 + 2880)%Z
  ∧ ((5760 mod 2880 = 0)%Z → pad_data_size 5760 = 5760%Z).
Proof. apply (pad_data_size_block 5760); lia. Defined.

(** ** The file as the fill paths open it *)

Lemma header_shape_cube_header X Y imlist nstokes :
  (0 ≤ X)%Z → (0 ≤ Y)%Z → (0 ≤ nstokes)%Z →
  header_shape (cube_header X Y imlist nstokes)
  = Some [Z.to_nat nstokes; length imlist; Z.to_nat Y; Z.to_nat X].
Proof.
  intros HX HY HP. rewrite cube_header_cards. unfold header_shape.
  change (header_get _ "NAXIS") with (Some (HInt 4)). cbv beta iota.
  rewrite decide_True by lia.
  change (Z.to_nat 4) with 4. cbn [axes].
  change (header_get _ (naxis_key 4)) with (Some (HInt nstokes)).
  change (header_get _ (naxis_key 3)) with (Some (HInt (Z.of_nat (length imlist)))).
  change (header_get _ (naxis_key 2)) with (Some (HInt Y)).
  change (header_get _ (naxis_key 1)) with (Some (HInt X)).
  cbv beta iota.
  rewrite !decide_True by lia. cbn [fmap option_fmap option_map].
  by rewrite Nat2Z.id.
Qed.

Lemma skeleton_mapped {value pixel : Type} (zero : pixel) (fs : gmap string (ndarray value))
    (imlist : list string) (nstokes X Y : Z) :
  let d := (X * Y * Z.of_nat (length imlist) * nstokes * 4)%Z in
  image_dims fs imlist = Ok (X, Y) →
  (0 < d)%Z →
  (spec_padded d < 2 ^ 63)%Z →
  ∃ sk, skeleton zero fs imlist nstokes = Ok sk
        ∧ open_update sk = Ok [Z.to_nat nstokes; length imlist; Z.to_nat Y; Z.to_nat X]
        ∧ Z.of_nat (length (body sk)) = (spec_padded d / 4)%Z
        ∧ ∀ k, k < length (body sk) → body sk !! k = Some zero.
Proof.
  intros d Hdims Hd Hb.
  destruct (image_dims_nonneg _ _ _ _ Hdims) as [HX HY].
  pose proof (spec_padded_bounds d) as Hsb.
  destruct (spec_padded_mul4 d) as [k Hk].
  assert (HP : (0 < nstokes)%Z).
  { destruct (Z_lt_le_dec 0 nstokes) as [|Hle]; [done|].
    assert (0 ≤ X * Y * Z.of_nat (length imlist))%Z by (repeat apply Z.mul_nonneg_nonneg; lia).
    assert (X * Y * Z.of_nat (length imlist) * nstokes ≤ 0)%Z
      by (apply Z.mul_nonneg_nonpos; lia).
    lia. }
  unfold skeleton. rewrite Hdims. cbn [mbind result_bind fst snd].
  rewrite (cube_data_size X Y imlist nstokes) by (fold d; lia).
  fold d. eexists. split; [reflexivity|].
  assert (Hdiv : (spec_padded d / 4 = k)%Z).
  { rewrite Hk, Z.mul_comm. apply Z.div_mul. lia. }
  unfold itemsize. rewrite Hdiv.
  split; [|split].
  - unfold open_update. cbn [hdr body].
    rewrite header_shape_cube_header by lia.
    rewrite decide_True; [done|].
    rewrite length_replicate. cbn [numel foldr]. nia.
  - cbn [body]. rewrite length_replicate. lia.
  - intros j Hj. cbn [body] in *. rewrite length_replicate in Hj.
    by apply lookup_replicate_2.
Qed.



(** ** [update_fits_header] *)

Lemma header_set_same key v h :
  header_get h key = Some v → header_set key v h = h.
Proof.
  induction h as [|[k' v'] h IH]; simpl; [done|].
  destruct (decide (k' = key)) as [->|Hne].
  - by intros [= ->].
  - intros Hg. by rewrite IH.
Qed.

(** Lines 61-65, called with the dictionary of lines 89-93 or 133-137 on
    a file of four axes. When the file has been closed, CRPIX3 reads 1 and
    CTYPE3 reads "FREQ"; NAXIS, BITPIX and the four axis lengths read what
    they read before the call, so the NAXIS3 of the dictionary does not
    reach the file unless it is the depth the cube already has; every
    other card reads as before and the data region is the same. *)
Theorem update_fits_header_cards {pixel : Type} (f : FitsFile pixel) (naxis3 : Z) :
  header_get (hdr f) "NAXIS" = Some (HInt 4) →
  let f' := update_fits_header f (fitsheader naxis3) in
  header_get (hdr f') "CRPIX3" = Some (HInt 1)
  ∧ header_get (hdr f') "CTYPE3" = Some (HStr "FREQ")
  ∧ (∀ key v, key ∈ ["BITPIX"; "NAXIS"; "NAXIS1"; "NAXIS2"; "NAXIS3"; "NAXIS4"] →
       header_get (hdr f) key = Some v → header_get (hdr f') key = Some v)
  ∧ (∀ key, key ∉ ["CRPIX3"; "CTYPE3"; "BITPIX"; "NAXIS";
                   "NAXIS1"; "NAXIS2"; "NAXIS3"; "NAXIS4"] →
       header_get (hdr f') key = header_get (hdr f) key)
  ∧ body f' = body f.
Proof.
  intros Hn f'. unfold f'.
  destruct (finalize_fields f naxis3 Hn) as (Hc & Ht & Hn' & Hax & Ho).
  split; [done|]. split; [done|]. split; [|split; [done|]].
  - intros key v Hkey Hv.
    destruct (decide (key = "NAXIS")) as [->|Hne].
    + rewrite Hn in Hv. by rewrite Hn', Hv.
    + apply Hax; [|done].
      apply elem_of_cons in Hkey as [->|Hkey]; [by left|].
      apply elem_of_cons in Hkey as [->|Hkey]; [done|]. by right.
  - unfold update_fits_header. by destruct (decide _).
Qed.

Lemma update_fits_header_cards_witness :
  header_get (hdr scenario_skeleton) "NAXIS" = Some (HInt 4)
  ∧ header_get (hdr (update_fits_header scenario_skeleton (fitsheader 7))) "NAXIS3"
    = Some (HInt 3).
Proof.
  split; [reflexivity|].
  destruct (update_fits_header_cards scenario_skeleton 7 eq_refl) as (_ & _ & H & _).
  apply H; [|reflexivity]. do 4 (apply elem_of_cons; right). apply elem_of_cons. by left.
Defined.

Lemma header_set_set key v v' h :
  header_set key v (header_set key v' h) = header_set key v h.
Proof.
  induction h as [|c h IH]; cbn [header_set].
  - cbn [fst]. by rewrite decide_True.
  - destruct (decide (c.1 = key)) as [Heq|Hne]; cbn [header_set fst].
    + by rewrite decide_True.
    + rewrite decide_False by done. by rewrite IH.
Qed.

Lemma header_get_Some_in h key v : header_get h key = Some v → key ∈ keywords h.
Proof.
  intros Hg. destruct (decide (key ∈ keywords h)) as [|Hnin]; [done|].
  by rewrite header_get_notin in Hg.
Qed.

(** The flush changes nothing in a header that has the BITPIX and the
    axes read at open, and it undoes any other NAXIS3. *)
Lemma update_header_fixed b a1 a2 a3 a4 v3 h :
  header_get h "NAXIS" = Some (HInt 4) →
  header_get h "BITPIX" = Some b →
  header_get h "NAXIS1" = Some a1 → header_get h "NAXIS2" = Some a2 →
  header_get h "NAXIS3" = Some v3 → header_get h "NAXIS4" = Some a4 →
  update_header b [a1; a2; a3; a4] h = header_set "NAXIS3" a3 h.
Proof.
  intros Hn Hb H1 H2 H3 H4. rewrite update_header_4 by by apply naxis_count_4.
  unfold header_set_second.
  rewrite decide_True, (header_set_same "BITPIX") by eauto using header_get_Some_in.
  unfold header_set_after at 5.
  rewrite decide_True, (header_set_same "NAXIS") by eauto using header_get_Some_in.
  unfold header_set_after at 4.
  rewrite decide_True, (header_set_same "NAXIS1") by eauto using header_get_Some_in.
  unfold header_set_after at 3.
  rewrite decide_True, (header_set_same "NAXIS2") by eauto using header_get_Some_in.
  unfold header_set_after at 2.
  rewrite decide_True by eauto using header_get_Some_in.
  unfold header_set_after.
  assert (H4' : header_get (header_set "NAXIS3" a3 h) "NAXIS4" = Some a4)
    by (by rewrite header_get_set_ne).
  rewrite decide_True by eauto using header_get_Some_in.
  by apply header_set_same.
Qed.

(** Lines 61-65, called a second time with the dictionary of lines 89-93
    on a file of four axes: the file is as the first call left it. *)
Theorem update_fits_header_idempotent {pixel : Type} (f : FitsFile pixel) (naxis3 : Z) :
  header_get (hdr f) "NAXIS" = Some (HInt 4) →
  update_fits_header (update_fits_header f (fitsheader naxis3)) (fitsheader naxis3)
  = update_fits_header f (fitsheader naxis3).
Proof.
  intros Hn.
  pose proof (fitsheader_fields (hdr f) naxis3) as (Hc & _ & Ht).
  pose proof (fitsheader_other (hdr f) naxis3) as Ho.
  assert (Hf1 : update_fits_header f (fitsheader naxis3)
                = update_fits_header f (fitsheader naxis3)) by done.
  unfold update_fits_header at 2 in Hf1. cbv zeta in Hf1.
  set (h1 := foldl (fun h kv => header_set kv.1 kv.2 h) (hdr f) (fitsheader naxis3)) in *.
  destruct (decide (h1 = hdr f)) as [Heq|Hne]; rewrite !Hf1; clear Hf1.
  - done.
  - assert (Hn1 : naxis_count h1 = 4) by (apply naxis_count_4; by rewrite Ho).
    rewrite header_axes_4 by by apply naxis_count_4.
    set (b := default (HInt 8) (header_get (hdr f) "BITPIX")).
    set (a1 := default (HInt 0) (header_get (hdr f) "NAXIS1")).
    set (a2 := default (HInt 0) (header_get (hdr f) "NAXIS2")).
    set (a3 := default (HInt 0) (header_get (hdr f) "NAXIS3")).
    set (a4 := default (HInt 0) (header_get (hdr f) "NAXIS4")).
    pose proof (fun key => update_header_get b a1 a2 a3 a4 h1 key Hn1) as G.
    set (h0 := update_header b [a1; a2; a3; a4] h1) in *.
    assert (Gb : header_get h0 "BITPIX" = Some b) by (by rewrite G).
    assert (Gn : header_get h0 "NAXIS" = Some (HInt 4)) by (by rewrite G).
    assert (G1 : header_get h0 "NAXIS1" = Some a1) by (by rewrite G).
    assert (G2 : header_get h0 "NAXIS2" = Some a2) by (by rewrite G).
    assert (G3 : header_get h0 "NAXIS3" = Some a3) by (by rewrite G).
    assert (G4 : header_get h0 "NAXIS4" = Some a4) by (by rewrite G).
    assert (Gc : header_get h0 "CRPIX3" = Some (HInt 1)) by (by rewrite G).
    assert (Gt : header_get h0 "CTYPE3" = Some (HStr "FREQ")) by (by rewrite G).
    unfold update_fits_header. cbv zeta. cbn [hdr body].
    cbn [foldl fitsheader fst snd].
    rewrite (header_set_same "CRPIX3") by done.
    rewrite (header_set_same "CTYPE3") by (by rewrite header_get_set_ne).
    destruct (decide (header_set "NAXIS3" (HInt naxis3) h0 = h0)) as [|Hne2]; [done|].
    f_equal. rewrite header_axes_4 by by apply naxis_count_4.
    rewrite Gb, G1, G2, G3, G4. cbn [default from_option].
    rewrite (update_header_fixed b a1 a2 a3 a4 (HInt naxis3));
      rewrite ?header_get_set_ne by discriminate; try done.
    + rewrite header_set_set. by apply header_set_same.
    + apply header_get_set_eq.
Qed.

Lemma update_fits_header_idempotent_witness :
  update_fits_header (update_fits_header scenario_skeleton (fitsheader 7)) (fitsheader 7)
  = update_fits_header scenario_skeleton (fitsheader 7).
Proof. apply (update_fits_header_idempotent scenario_skeleton 7). reflexivity. Defined.


(** ** [insert_channel]: calls that copy nothing *)

(** Lines 98-108 on an output that opens. The call leaves the file as it
    was and raises IndexError when [channo] is not an index of [imlist],
    FileNotFoundError when the path is not a file, IndexError when [channo]
    lies beyond the depth axis of the cube and there is a plane to copy;
    with [nstokes <= 0] it returns without copying. *)
Theorem insert_channel_unavailable {value pixel : Type} (cast : value → pixel) (zero : pixel)
    (fs : gmap string (ndarray value)) (imlist : list string) (nstokes : Z)
    (channo : nat) (out : FitsFile pixel) (sh : list nat) :
  open_update out = Ok sh →
  (imlist !! channo = None →
   insert_channel cast zero channo out fs imlist nstokes = (out, Raise IndexError))
  ∧ (∀ p, imlist !! channo = Some p → fs !! p = None →
          insert_channel cast zero channo out fs imlist nstokes = (out, Raise FileNotFoundError))
  ∧ (∀ p data, imlist !! channo = Some p → fs !! p = Some data → (nstokes ≤ 0)%Z →
               insert_channel cast zero channo out fs imlist nstokes = (out, Ok ()))
  ∧ (∀ p data W Z Y X, imlist !! channo = Some p → fs !! p = Some data →
       (1 ≤ nstokes)%Z → sh = [W; Z; Y; X] → Z ≤ channo →
       insert_channel cast zero channo out fs imlist nstokes = (out, Raise IndexError)).
Proof.
  intros Hopen. unfold insert_channel, list_item, fits_open_data. rewrite Hopen.
  split; [|split; [|split]].
  - by intros ->.
  - intros p -> Hp. cbn [mbind result_bind]. by rewrite Hp.
  - intros p data -> Hp Hn. cbn [mbind result_bind]. rewrite Hp.
    unfold range. replace (Z.to_nat nstokes) with 0 by lia.
    simpl. by destruct out.
  - intros p data W Z Y X -> Hp Hn -> Hz. cbn [mbind result_bind]. rewrite Hp.
    destruct (range_pos nstokes Hn) as [m ->]. cbn [copy_planes].
    destruct (getitem_plane data 0) as [src|e] eqn:Hg.
    + cbn [mbind result_bind]. unfold setitem_plane.
      rewrite decide_False by lia. simpl. by destruct out.
    + unfold getitem_plane in Hg. destruct (decide _) as [Hlt|Hge].
      * injection Hg as <-. simpl. by destruct out.
      * assert (e = IndexError) as ->.
        { unfold index0 in Hg. destruct (shape data) as [|n0 rest]; [by injection Hg|].
          destruct (decide (0 < n0)) as [Hn0|Hn0]; [|by injection Hg].
          cbn [mbind result_bind shape] in Hg.
          destruct rest as [|m0 rest']; [by injection Hg|].
          destruct (decide (0 < m0)) as [Hm0|Hm0]; [done|by injection Hg]. }
        simpl. by destruct out.
Qed.

Lemma insert_channel_unavailable_witness :
  (scenario_list !! 3 = None →
   insert_channel id 0%Z 3 scenario_skeleton scenario_files scenario_list 2
   = (scenario_skeleton, Raise IndexError))
  ∧ (∀ p, scenario_list !! 3 = Some p → scenario_files !! p = None →
          insert_channel id 0%Z 3 scenario_skeleton scenario_files scenario_list 2
          = (scenario_skeleton, Raise FileNotFoundError))
  ∧ (∀ p data, scenario_list !! 3 = Some p → scenario_files !! p = Some data → (2 ≤ 0)%Z →
               insert_channel id 0%Z 3 scenario_skeleton scenario_files scenario_list 2
               = (scenario_skeleton, Ok ()))
  ∧ (∀ p data W Z Y X, scenario_list !! 3 = Some p → scenario_files !! p = Some data →
       (1 ≤ 2)%Z → [2; 3; 4; 4] = [W; Z; Y; X] → Z ≤ 3 →
       insert_channel id 0%Z 3 scenario_skeleton scenario_files scenario_list 2
       = (scenario_skeleton, Raise IndexError)).
Proof.
  apply (insert_channel_unavailable id 0%Z scenario_files scenario_list 2 3
           scenario_skeleton [2; 3; 4; 4]).
  reflexivity.
Defined.

(** ** The fill paths *)

Section Paths.
Context {value pixel : Type}.
Variable cast : value → pixel.
Variable zero : pixel.
Variable fs : gmap string (ndarray value).
Variable imlist : list string.
Variable nstokes : Z.

Lemma in_channel_lt_numel sh i k : in_channel sh i k → k < numel sh.
Proof.
  destruct sh as [|W [|Z [|Y [|X [|? ?]]]]]; try done.
  intros (p & Hp & Hi & Hlo & Hhi). unfold plane_offset, plane_len in *.
  cbn [numel foldr].
  assert ((p * Z + i + 1) * (Y * X) ≤ W * Z * (Y * X)).
  { apply Nat.mul_le_mono_r.
    assert ((p + 1) * Z ≤ W * Z) by (apply Nat.mul_le_mono_r; lia). lia. }
  lia.
Qed.

Lemma insert_channel_keeps_tail i (out : FitsFile pixel) sh k :
  header_shape (hdr out) = Some sh → numel sh ≤ k →
  body (insert_channel cast zero i out fs imlist nstokes).1 !! k = body out !! k.
Proof.
  intros Hsh Hk. apply (insert_channel_outside _ _ _ _ _ _ _ sh); [done|].
  intros v Hc. apply unit_plan_covered in Hc as (_ & _ & _ & Hin).
  apply in_channel_lt_numel in Hin. lia.
Qed.

Lemma run_units_keeps_tail schedule (out : FitsFile pixel) sol sh k :
  header_shape (hdr out) = Some sh → numel sh ≤ k →
  body (run_units cast zero fs imlist nstokes schedule out sol).1 !! k = body out !! k.
Proof.
  revert out sol. induction schedule as [|c rest IH]; intros out sol Hsh Hk; [done|].
  cbn [run_units]. rewrite IH.
  - by apply (insert_channel_keeps_tail _ _ sh).
  - unfold run_unit. by rewrite insert_channel_hdr.
  - done.
Qed.

(** The loop of the sequential path does what [insert_channel] does for
    each channel in turn, and leaves at the first call that raises. *)
Lemma fill_channels_until_error (out : FitsFile pixel) sh chans :
  open_update out = Ok sh →
  fill_channels cast zero fs imlist nstokes sh chans (body out)
  = (body (run_until_error cast zero fs imlist nstokes chans out).1,
     (run_until_error cast zero fs imlist nstokes chans out).2)
  ∧ hdr (run_until_error cast zero fs imlist nstokes chans out).1 = hdr out.
Proof.
  revert out. induction chans as [|ii rest IH]; intros out Hopen; [done|].
  cbn [fill_channels run_until_error]. unfold insert_channel. rewrite Hopen.
  destruct (_ ← list_item imlist ii; fits_open_data fs _) as [data|e]; [|done].
  pose proof (copy_planes_length cast zero sh data ii (range nstokes) (body out)) as Hl.
  destruct (copy_planes cast zero sh data ii (range nstokes) (body out)) as [b1 r1].
  cbn [fst snd] in *. destruct r1 as [[]|e]; [|done].
  destruct (IH (MkFits (hdr out) b1)) as [Hfill Hhdr].
  { rewrite <- Hopen. by apply open_update_congr. }
  cbn [body hdr] in *. by rewrite Hfill, Hhdr.
Qed.

Lemma run_until_error_keeps_tail chans (out : FitsFile pixel) sh k :
  header_shape (hdr out) = Some sh → numel sh ≤ k →
  body (run_until_error cast zero fs imlist nstokes chans out).1 !! k = body out !! k.
Proof.
  revert out. induction chans as [|c rest IH]; intros out Hsh Hk; [done|].
  cbn [run_until_error].
  pose proof (insert_channel_keeps_tail c out sh k Hsh Hk) as Hc.
  pose proof (insert_channel_hdr cast zero fs imlist nstokes c out) as Hh.
  destruct (insert_channel cast zero c out fs imlist nstokes) as [out1 r1].
  cbn [fst snd] in *. destruct r1 as [[]|e]; [|done].
  rewrite IH; [done| |done]. by rewrite Hh.
Qed.

Lemma insert_channel_read_other i j (out : FitsFile pixel) p y x :
  i ≠ j →
  read_pixel (insert_channel cast zero i out fs imlist nstokes).1 p j y x
  = read_pixel out p j y x.
Proof.
  intros Hij. unfold read_pixel. rewrite insert_channel_hdr.
  destruct (header_shape (hdr out)) as [sh|] eqn:Hsh; [|done].
  destruct sh as [|W [|Z [|Y [|X [|? ?]]]]]; try done.
  destruct (decide _) as [(? & ? & ? & ?)|]; [|done].
  apply (insert_channel_outside _ _ _ _ _ _ _ [W; Z; Y; X]); [done|].
  intros v Hc. apply unit_plan_covered in Hc as (_ & _ & _ & Hi).
  apply Hij. eapply in_channel_inj; [exact Hi|]. by apply cell_in_channel.
Qed.

Lemma run_units_read_other schedule j (out : FitsFile pixel) sol p y x :
  j ∉ schedule →
  read_pixel (run_units cast zero fs imlist nstokes schedule out sol).1 p j y x
  = read_pixel out p j y x.
Proof.
  revert out sol. induction schedule as [|c rest IH]; intros out sol Hnin; [done|].
  apply not_elem_of_cons in Hnin as [Hne Hnin].
  cbn [run_units]. rewrite IH by done. unfold run_unit.
  by apply insert_channel_read_other.
Qed.

(** When the first unit that raises is the last one of the list, stopping
    there is running all of them. *)
Lemma run_until_error_first chans c (out : FitsFile pixel) sol e :
  (∀ c', c' ∈ chans → (insert_channel cast zero c' out fs imlist nstokes).2 = Ok ()) →
  (insert_channel cast zero c out fs imlist nstokes).2 = Raise e →
  ∀ rest, run_until_error cast zero fs imlist nstokes (chans ++ c :: rest) out
          = ((run_units cast zero fs imlist nstokes (chans ++ [c]) out sol).1, Raise e).
Proof.
  revert out sol. induction chans as [|a chans IH]; intros out sol Hok He rest.
  - cbn [app run_until_error run_units]. unfold run_unit. by rewrite He.
  - cbn [app run_until_error run_units]. unfold run_unit.
    rewrite (Hok a) by (by left).
    apply IH.
    + intros c' Hc'. rewrite insert_channel_status. apply Hok. by right.
    + by rewrite insert_channel_status.
Qed.

(** Lines 77-95 against lines 98-108. [fill_cube_with_images] opens the
    output, does for the channels 0, 1, ... what [insert_channel] does,
    leaves at the first exception, and after the last channel calls
    [update_fits_header] with the depth-axis cards, NAXIS3 = shape[1] + 1
    among them. *)
Theorem sequential_is_insert_channel (out : FitsFile pixel) :
  fill_cube_with_images cast zero fs imlist nstokes out
  = match open_update out with
    | Raise e => (out, Raise e)
    | Ok sh =>
        let r := run_until_error cast zero fs imlist nstokes (seq 0 (length imlist)) out in
        match r.2 with
        | Raise e => (r.1, Raise e)
        | Ok _ =>
            match sh !! 1 with
            | None => (r.1, Raise IndexError)
            | Some depth =>
                (update_fits_header r.1 (fitsheader (Z.of_nat depth + 1)), Ok ())
            end
        end
    end.
Proof.
  unfold fill_cube_with_images.
  destruct (open_update out) as [sh|e] eqn:Hopen; [|done].
  destruct (fill_channels_until_error out sh (seq 0 (length imlist)) Hopen) as [-> Hh].
  cbv zeta. cbn [fst snd]. rewrite <- Hh.
  destruct (run_until_error cast zero fs imlist nstokes (seq 0 (length imlist)) out)
    as [[h1 b1] r1].
  cbn [fst snd hdr body]. destruct r1 as [[]|e]; [|done].
  by destruct (sh !! 1).
Qed.

(** When channel [c] is the first whose copy raises, the sequential path
    raises that exception, leaves the header as it was, and has not
    touched any later channel. *)
Theorem sequential_stops (out : FitsFile pixel) sh c e :
  open_update out = Ok sh →
  c < length imlist →
  (insert_channel cast zero c out fs imlist nstokes).2 = Raise e →
  (∀ c', c' < c → (insert_channel cast zero c' out fs imlist nstokes).2 = Ok ()) →
  (fill_cube_with_images cast zero fs imlist nstokes out).2 = Raise e
  ∧ hdr (fill_cube_with_images cast zero fs imlist nstokes out).1 = hdr out
  ∧ ∀ j p y x, c < j →
      read_pixel (fill_cube_with_images cast zero fs imlist nstokes out).1 p j y x
      = read_pixel out p j y x.
Proof.
  intros Hopen Hc He Hok.
  assert (Hrun : run_until_error cast zero fs imlist nstokes (seq 0 (length imlist)) out
                 = ((run_units cast zero fs imlist nstokes (seq 0 c ++ [c]) out ∅).1, Raise e)).
  { replace (length imlist) with (c + S (length imlist - S c)) by lia.
    rewrite seq_app. cbn [seq]. rewrite Nat.add_0_l.
    apply run_until_error_first; [|done].
    intros c' Hc'. apply elem_of_seq in Hc'. apply Hok. lia. }
  unfold fill_cube_with_images.
  destruct (fill_channels_until_error out sh (seq 0 (length imlist)) Hopen) as [Hfill Hh].
  rewrite Hopen, Hfill, Hrun. cbn [fst snd hdr body].
  split; [done|]. split; [done|].
  intros j p y x Hj.
  pose proof (run_units_read_other (seq 0 c ++ [c]) j out ∅ p y x) as Hread.
  unfold read_pixel in *. cbn [hdr body].
  rewrite run_units_hdr in Hread. apply Hread.
  intros [Hin|Hin]%elem_of_app.
  - apply elem_of_seq in Hin. lia.
  - apply list_elem_of_singleton in Hin. lia.
Qed.

(** No fill stores past the array: the elements behind it, the padding of
    the last block, are as before after either path. *)
Theorem fill_keeps_padding schedule (out : FitsFile pixel) sh k :
  header_shape (hdr out) = Some sh →
  numel sh ≤ k →
  body (fill_cube_with_images_multiprocess cast zero fs imlist nstokes schedule out).1 !! k
  = body out !! k
  ∧ body (fill_cube_with_images cast zero fs imlist nstokes out).1 !! k = body out !! k.
Proof.
  intros Hsh Hk. split.
  - rewrite multiprocess_body. by apply (run_units_keeps_tail _ _ _ sh).
  - unfold fill_cube_with_images.
    destruct (open_update out) as [sh'|e] eqn:Hopen; [|done].
    destruct (fill_channels_until_error out sh' (seq 0 (length imlist)) Hopen) as [-> _].
    cbn [fst snd].
    assert (body (run_until_error cast zero fs imlist nstokes (seq 0 (length imlist)) out).1 !! k
            = body out !! k) as Hb by (by apply (run_until_error_keeps_tail _ _ sh)).
    destruct (run_until_error _ _ _ _ _ _ _).2 as [[]|e]; [|done].
    destruct (sh' !! 1); [|done]. cbn [fst]. by rewrite update_fits_header_body.
Qed.

Lemma first_error_None_all chans (sol : gmap nat (result unit)) :
  first_error chans sol = None →
  ∀ c e, c ∈ chans → sol !! c ≠ Some (Raise e).
Proof.
  induction chans as [|a chans IH]; intros Hfe c e Hin.
  - by apply elem_of_nil in Hin.
  - cbn [first_error] in Hfe. apply elem_of_cons in Hin as [->|Hin].
    + destruct (sol !! a) as [[[]|e']|]; done.
    + apply IH; [|done]. destruct (sol !! a) as [[[]|e']|]; done.
Qed.

(** Lines 120-139. With every submitted unit run, the pool path returns
    normally exactly when no unit raised. On a cube of shape (W, Z, Y, X)
    the header of the closed file then reads CRPIX3 = 1 and
    CTYPE3 = "FREQ", and NAXIS3 reads Z, the depth of the cube: the flush
    keeps the axes of the file, so NAXIS3 is [len(imlist)] when the cube
    was made for this list. *)
Theorem multiprocess_returns_iff schedule (out : FitsFile pixel) :
  Permutation schedule (seq 0 (length imlist)) →
  ((fill_cube_with_images_multiprocess cast zero fs imlist nstokes schedule out).2 = Ok ()
   ↔ ∀ c, c < length imlist → (insert_channel cast zero c out fs imlist nstokes).2 = Ok ())
  ∧ (∀ W Z Y X, header_shape (hdr out) = Some [W; Z; Y; X] →
     (fill_cube_with_images_multiprocess cast zero fs imlist nstokes schedule out).2 = Ok () →
     header_get (hdr (fill_cube_with_images_multiprocess cast zero fs imlist nstokes schedule out).1)
       "CRPIX3" = Some (HInt 1)
     ∧ header_get (hdr (fill_cube_with_images_multiprocess cast zero fs imlist nstokes schedule out).1)
         "NAXIS3" = Some (HInt (Z.of_nat Z))
     ∧ header_get (hdr (fill_cube_with_images_multiprocess cast zero fs imlist nstokes schedule out).1)
         "CTYPE3" = Some (HStr "FREQ")).
Proof.
  intros Hp.
  assert (Hsol : ∀ c, c < length imlist →
            (run_units cast zero fs imlist nstokes schedule out ∅).2 !! c
            = Some (insert_channel cast zero c out fs imlist nstokes).2).
  { intros c Hc. rewrite run_units_sol, decide_True; [done|].
    rewrite Hp. apply elem_of_seq. lia. }
  split.
  - unfold fill_cube_with_images_multiprocess.
    destruct (first_error _ _) as [e|] eqn:Hfe; cbn [snd].
    + split; [done|]. intros Hall. exfalso.
      rewrite first_error_none in Hfe; [done|].
      intros c Hc. apply elem_of_seq in Hc. rewrite Hsol by lia. f_equal.
      apply Hall. lia.
    + split; [|done]. intros _ c Hc.
      destruct (insert_channel cast zero c out fs imlist nstokes).2 as [[]|e] eqn:Hst; [done|].
      exfalso. apply (first_error_None_all _ _ Hfe c e).
      * apply elem_of_seq. lia.
      * rewrite Hsol by lia. by rewrite Hst.
  - intros W Z Y X Hsh Hok. destruct (header_shape_4 _ _ _ _ _ Hsh) as [Hn H3].
    by apply (multiprocess_fields cast zero fs imlist nstokes schedule out).
Qed.
End Paths.

Lemma sequential_stops_witness :
  (fill_cube_with_images id 0%Z mixed_files broken_list 1 broken_skeleton).2 = Raise IndexError
  ∧ hdr (fill_cube_with_images id 0%Z mixed_files broken_list 1 broken_skeleton).1
    = hdr broken_skeleton
  ∧ ∀ j p y x, 1 < j →
      read_pixel (fill_cube_with_images id 0%Z mixed_files broken_list 1 broken_skeleton).1 p j y x
      = read_pixel broken_skeleton p j y x.
Proof.
  apply (sequential_stops id 0%Z mixed_files broken_list 1 broken_skeleton [1; 3; 2; 2] 1
           IndexError).
  - reflexivity.
  - simpl. lia.
  - vm_compute. reflexivity.
  - intros c' Hc'. assert (c' = 0) as -> by lia. vm_compute. reflexivity.
Defined.

Lemma fill_keeps_padding_witness :
  body (fill_cube_with_images_multiprocess id 0%Z scenario_files scenario_list 2 [2; 0; 1]
          scenario_skeleton).1 !! 100
  = body scenario_skeleton !! 100
  ∧ body (fill_cube_with_images id 0%Z scenario_files scenario_list 2 scenario_skeleton).1 !! 100
    = body scenario_skeleton !! 100.
Proof.
  apply (fill_keeps_padding id 0%Z scenario_files scenario_list 2 [2; 0; 1] scenario_skeleton
           [2; 3; 4; 4] 100).
  - reflexivity.
  - simpl. lia.
Defined.

Lemma multiprocess_returns_iff_witness :
  ((fill_cube_with_images_multiprocess id 0%Z scenario_files scenario_list 2 [2; 0; 1]
      scenario_skeleton).2 = Ok ()
   ↔ ∀ c, c < length scenario_list →
          (insert_channel id 0%Z c scenario_skeleton scenario_files scenario_list 2).2 = Ok ())
  ∧ (∀ W Z Y X, header_shape (hdr scenario_skeleton) = Some [W; Z; Y; X] →
     (fill_cube_with_images_multiprocess id 0%Z scenario_files scenario_list 2 [2; 0; 1]
        scenario_skeleton).2 = Ok () →
     header_get (hdr (fill_cube_with_images_multiprocess id 0%Z scenario_files scenario_list 2
                        [2; 0; 1] scenario_skeleton).1) "CRPIX3" = Some (HInt 1)
     ∧ header_get (hdr (fill_cube_with_images_multiprocess id 0%Z scenario_files scenario_list 2
                          [2; 0; 1] scenario_skeleton).1) "NAXIS3"
       = Some (HInt (Z.of_nat Z))
     ∧ header_get (hdr (fill_cube_with_images_multiprocess id 0%Z scenario_files scenario_list 2
                          [2; 0; 1] scenario_skeleton).1) "CTYPE3" = Some (HStr "FREQ")).
Proof.
  apply (multiprocess_returns_iff id 0%Z scenario_files scenario_list 2 [2; 0; 1]
           scenario_skeleton).
  exact (perm_trans (perm_swap 0 2 [1]) (perm_skip 0 (perm_swap 1 2 []))).
Defined.

(** ** What a fill copies *)

Section Copy.
Context {value pixel : Type}.
Variable cast : value → pixel.
Variable zero : pixel.

Lemma lookup_tabulate2 Y X (f : nat → nat → pixel) y x :
  y < Y → x < X → tabulate2 Y X f !! (y * X + x) = Some (f y x).
Proof.
  unfold tabulate2. intros Hy Hx.
  assert (H : ∀ n s y, y < n →
            (seq s n ≫= λ y, f y <$> seq 0 X) !! (y * X + x) = Some (f (s + y) x));
    [|by apply (H Y 0 y)].
  clear y Hy. induction n as [|n IH]; intros s y Hy; [lia|].
  cbn [seq]. rewrite bind_cons. destruct y as [|y].
  - rewrite lookup_app_l by (rewrite length_fmap, length_seq; lia).
    rewrite list_lookup_fmap, lookup_seq_lt by done.
    simpl. by rewrite Nat.add_0_r.
  - rewrite lookup_app_r by (rewrite length_fmap, length_seq; lia).
    rewrite length_fmap, length_seq.
    replace (S y * X + x - X) with (y * X + x) by lia.
    rewrite IH by lia. do 2 f_equal. lia.
Qed.

Lemma strip_ones_short n sh : length sh ≤ n → strip_ones n sh = sh.
Proof.
  intros Hlen. destruct sh as [|[|[|a]] rest]; try done.
  cbn [strip_ones]. rewrite decide_False by lia. done.
Qed.

(** A plane of the cube's size is assigned element by element. *)
Lemma broadcast2_same (src : ndarray value) Y X :
  shape src = [Y; X] →
  ∃ vals, broadcast2 cast zero src Y X = Ok vals
          ∧ length vals = Y * X
          ∧ ∀ y x, y < Y → x < X →
                   vals !! (y * X + x) = Some (from_option cast zero (buf src !! (y * X + x))).
Proof.
  intros Hsh. unfold broadcast2. rewrite Hsh.
  rewrite strip_ones_short by (simpl; lia).
  cbn [length replicate app Nat.sub].
  rewrite decide_True by (split; by left).
  eexists. split; [reflexivity|]. split; [apply length_tabulate2|].
  intros y x Hy Hx. rewrite lookup_tabulate2 by done. do 3 f_equal.
  destruct (decide (Y = 1)), (decide (X = 1)); lia.
Qed.

(** [data[ss, 0, :, :]] of an array of four axes. *)
Lemma getitem_plane_4d (data : ndarray value) n m Y X ss :
  shape data = [n; m; Y; X] → wf_array data → ss < n → 0 < m →
  ∃ src, getitem_plane data ss = Ok src
         ∧ shape src = [Y; X]
         ∧ ∀ j, j < Y * X → buf src !! j = buf data !! (ss * (m * (Y * X)) + j)
                            ∧ is_Some (buf data !! (ss * (m * (Y * X)) + j)).
Proof.
  intros Hsh Hwf Hss Hm. unfold wf_array in Hwf. rewrite Hsh in Hwf.
  cbn [numel foldr] in Hwf.
  unfold getitem_plane. rewrite Hsh. rewrite decide_False by (simpl; lia).
  unfold index0 at 2. rewrite Hsh. rewrite decide_True by done.
  cbn [mbind result_bind]. unfold index0. cbn [shape buf].
  rewrite decide_True by done.
  eexists. split; [reflexivity|]. split; [done|].
  intros j Hj. cbn [buf numel foldr].
  replace (Y * (X * 1)) with (Y * X) by lia.
  assert (Hin : ss * (m * (Y * X)) + j < length (buf data)).
  { rewrite Hwf.
    assert ((ss + 1) * (m * (Y * X)) ≤ n * (m * (Y * X)))
      by (apply Nat.mul_le_mono_r; lia).
    assert (Y * X ≤ m * (Y * X)) by (destruct m; [lia|]; simpl; lia).
    replace (n * (m * (Y * (X * 1)))) with (n * (m * (Y * X))) by lia. lia. }
  split; [|by apply lookup_lt_is_Some_2].
  assert (Y * X ≤ m * (Y * X)) by (destruct m; [lia|]; simpl; lia).
  rewrite lookup_take_lt by lia.
  rewrite lookup_drop, Nat.mul_0_l, Nat.add_0_l.
  rewrite lookup_take_lt by lia.
  by rewrite lookup_drop.
Qed.
End Copy.

Section CopyChannel.
Context {value pixel : Type}.
Variable cast : value → pixel.
Variable zero : pixel.

Lemma plane_write_4d W Z Y X (data : ndarray value) n m ii ss :
  shape data = [n; m; Y; X] → wf_array data → 0 < m →
  ss < n → ss < W → ii < Z →
  ∃ w, plane_write cast zero [W; Z; Y; X] data ii ss = Ok w
       ∧ w.1 = plane_offset [W; Z; Y; X] ss ii
       ∧ length w.2 = Y * X
       ∧ ∀ y x, y < Y → x < X →
                w.2 !! (y * X + x)
                = cast <$> buf data !! (ss * (m * (Y * X)) + (y * X + x)).
Proof.
  intros Hsh Hwf Hm Hn HW HZ.
  destruct (getitem_plane_4d data n m Y X ss Hsh Hwf Hn Hm) as (src & Hg & Hs & Hbuf).
  destruct (broadcast2_same cast zero src Y X Hs) as (vals & Hb & Hlen & Hvals).
  unfold plane_write. rewrite Hg. cbn [mbind result_bind].
  rewrite decide_True by done. rewrite Hb. cbn [mbind result_bind].
  eexists. split; [reflexivity|]. cbn [fst snd].
  split; [done|]. split; [done|].
  intros y x Hy Hx. rewrite Hvals by done.
  assert (Hj : y * X + x < Y * X).
  { assert ((y + 1) * X ≤ Y * X) by (apply Nat.mul_le_mono_r; lia). lia. }
  destruct (Hbuf _ Hj) as [-> [v ->]]. done.
Qed.

Lemma plan_all_ok sh (data : ndarray value) ii planes :
  (∀ ss, ss ∈ planes → ∃ w, plane_write cast zero sh data ii ss = Ok w) →
  (plan cast zero sh data ii planes).2 = Ok ().
Proof.
  induction planes as [|s rest IH]; intros Hok; [done|].
  cbn [plan]. destruct (Hok s) as [w ->]; [by left|].
  cbn [snd]. apply IH. intros ss Hss. apply Hok. by right.
Qed.

(** In the stores of a loop whose planes all copy, what reaches an offset
    of plane [ss] is the store of plane [ss]. *)
Lemma last_cover_plan W Z Y X (data : ndarray value) ii planes ss w k :
  ii < Z → NoDup planes → ss ∈ planes →
  (∀ s, s ∈ planes → ∃ w', plane_write cast zero [W; Z; Y; X] data ii s = Ok w') →
  plane_write cast zero [W; Z; Y; X] data ii ss = Ok w →
  in_plane [W; Z; Y; X] ss ii k →
  last_cover (plan cast zero [W; Z; Y; X] data ii planes).1 k = w.2 !! (k - w.1).
Proof.
  intros Hi Hnd Hin Hok Hw Hk.
  assert (Hcov : cover w k = w.2 !! (k - w.1) ∧ is_Some (w.2 !! (k - w.1))).
  { destruct (plane_write_spec cast zero _ _ _ _ _ Hw) as (? & ? & ? & ? & _ & _ & _ & Ho & Hl).
    unfold in_plane in Hk. rewrite <- Ho, <- Hl in Hk.
    unfold cover. rewrite decide_True by done. split; [done|].
    apply lookup_lt_is_Some_2. lia. }
  destruct Hcov as [Hcov [v Hv]].
  induction planes as [|s rest IH]; [by apply elem_of_nil in Hin|].
  apply NoDup_cons in Hnd as [Hs Hnd].
  cbn [plan]. destruct (Hok s) as [ws Hws]; [by left|]. rewrite Hws. cbn [fst last_cover].
  apply elem_of_cons in Hin as [->|Hin].
  - assert (ws = w) as -> by congruence.
    destruct (last_cover _ k) as [v'|] eqn:Hl; [|done].
    apply plan_covered in Hl as (s' & Hs' & Hp' & _).
    assert (s' = s) as -> by (by eapply in_plane_inj). done.
  - rewrite IH; [by rewrite Hv|done|done|].
    intros s' Hs'. apply Hok. by right.
Qed.
End CopyChannel.

Section CopyTheorems.
Context {value pixel : Type}.
Variable cast : value → pixel.
Variable zero : pixel.
Variable fs : gmap string (ndarray value).
Variable imlist : list string.
Variable nstokes : Z.

Lemma open_update_fits (out : FitsFile pixel) sh :
  open_update out = Ok sh → numel sh ≤ length (body out).
Proof.
  unfold open_update. destruct (header_shape (hdr out)); [|done].
  destruct (decide _); [|done]. by intros [= <-].
Qed.

Lemma cell_offset W Z Y X p d y x :
  y < Y → x < X →
  ((p * Z + d) * Y + y) * X + x = plane_offset [W; Z; Y; X] p d + (y * X + x).
Proof. intros. unfold plane_offset. lia. Qed.

(** One call of [insert_channel] on an input of the cube's plane size. *)
Lemma unit_copies i p (data : ndarray value) (out : FitsFile pixel) W Z Y X n m :
  open_update out = Ok [W; Z; Y; X] →
  imlist !! i = Some p → fs !! p = Some data →
  wf_array data → shape data = [n; m; Y; X] → 0 < m →
  Z.to_nat nstokes ≤ n → Z.to_nat nstokes ≤ W → i < Z →
  (insert_channel cast zero i out fs imlist nstokes).2 = Ok ()
  ∧ ∀ ss y x, ss < Z.to_nat nstokes → y < Y → x < X →
      read_pixel (insert_channel cast zero i out fs imlist nstokes).1 ss i y x
      = cast <$> getitem4 data ss 0 y x.
Proof.
  intros Hopen Hi Hp Hwf Hsh Hm Hn HW HZ.
  assert (Hdata : (q ← list_item imlist i; fits_open_data fs q) = Ok data).
  { unfold list_item, fits_open_data. rewrite Hi. cbn [mbind result_bind]. by rewrite Hp. }
  assert (Hok : ∀ ss, ss ∈ range nstokes →
            ∃ w, plane_write cast zero [W; Z; Y; X] data i ss = Ok w).
  { intros ss Hss. unfold range in Hss. apply elem_of_seq in Hss.
    destruct (plane_write_4d cast zero W Z Y X data n m i ss) as (w & Hw & _); try done; try lia.
    by exists w. }
  rewrite insert_channel_plan, Hopen. unfold unit_plan. rewrite Hdata. cbn [fst snd].
  split; [by apply plan_all_ok|].
  intros ss y x Hss Hy Hx. unfold read_pixel. cbn [hdr body].
  rewrite (open_update_shape out _ Hopen).
  rewrite decide_True by (repeat split; lia).
  pose proof (open_update_fits out _ Hopen) as Hfit.
  pose proof (cell_in_channel W Z Y X ss i y x ltac:(lia) HZ Hy Hx) as Hcell.
  pose proof (in_channel_lt_numel _ _ _ Hcell) as Hlt.
  rewrite lookup_apply_writes by lia.
  destruct (plane_write_4d cast zero W Z Y X data n m i ss) as (w & Hw & Ho & Hl & Hv);
    try done; try lia.
  rewrite (last_cover_plan cast zero W Z Y X data i (range nstokes) ss w).
  - rewrite Ho, (cell_offset W Z Y X ss i y x) by done.
    replace (plane_offset [W; Z; Y; X] ss i + (y * X + x) - plane_offset [W; Z; Y; X] ss i)
      with (y * X + x) by lia.
    rewrite Hv by done.
    unfold getitem4. rewrite Hsh. rewrite decide_True by (repeat split; lia).
    replace (((ss * m + 0) * Y + y) * X + x) with (ss * (m * (Y * X)) + (y * X + x)) by lia.
    assert (Hin : ss * (m * (Y * X)) + (y * X + x) < length (buf data)).
    { unfold wf_array in Hwf. rewrite Hwf, Hsh. cbn [numel foldr].
      assert ((y + 1) * X ≤ Y * X) by (apply Nat.mul_le_mono_r; lia).
      assert (Y * X ≤ m * (Y * X)) by (destruct m; [lia|]; simpl; lia).
      assert ((ss + 1) * (m * (Y * X)) ≤ n * (m * (Y * X)))
        by (apply Nat.mul_le_mono_r; lia).
      replace (n * (m * (Y * (X * 1)))) with (n * (m * (Y * X))) by lia. lia. }
    destruct (lookup_lt_is_Some_2 _ _ Hin) as [v ->]. done.
  - done.
  - apply NoDup_seq.
  - unfold range. apply elem_of_seq. lia.
  - done.
  - done.
  - rewrite (cell_offset W Z Y X ss i y x) by done.
    unfold in_plane, plane_len.
    assert ((y + 1) * X ≤ Y * X) by (apply Nat.mul_le_mono_r; lia). lia.
Qed.

(** Lines 104-106. On an output cube of shape (W, Z, Y, X) and an input of
    shape (n, m, Y, X) that holds the planes asked for, [insert_channel]
    returns normally and afterwards [outdata[ss, i, y, x]] is
    [data[ss, 0, y, x]], converted to the element type of the cube, for
    every plane [ss] in [range(nstokes)] and every pixel of it, whatever
    the cube held before. *)
Theorem insert_channel_copies i p (data : ndarray value) (out : FitsFile pixel)
    W Z Y X n m :
  open_update out = Ok [W; Z; Y; X] →
  imlist !! i = Some p → fs !! p = Some data →
  wf_array data → shape data = [n; m; Y; X] → 0 < m →
  Z.to_nat nstokes ≤ n → Z.to_nat nstokes ≤ W → i < Z →
  (insert_channel cast zero i out fs imlist nstokes).2 = Ok ()
  ∧ ∀ ss y x, ss < Z.to_nat nstokes → y < Y → x < X →
      read_pixel (insert_channel cast zero i out fs imlist nstokes).1 ss i y x
      = cast <$> getitem4 data ss 0 y x.
Proof. apply unit_copies. Qed.
End CopyTheorems.

Lemma insert_channel_copies_witness :
  (insert_channel id 0%Z 1 scenario_skeleton scenario_files scenario_list 2).2 = Ok ()
  ∧ ∀ ss y x, ss < Z.to_nat 2 → y < 4 → x < 4 →
      read_pixel (insert_channel id 0%Z 1 scenario_skeleton scenario_files scenario_list 2).1
        ss 1 y x
      = id <$> getitem4 (const_image 2 4 4 (scenario_value 1)) ss 0 y x.
Proof.
  apply (insert_channel_copies id 0%Z scenario_files scenario_list 2 1 "chan001"
           (const_image 2 4 4 (scenario_value 1)) scenario_skeleton 2 3 4 4 2 1).
  - reflexivity.
  - reflexivity.
  - reflexivity.
  - reflexivity.
  - reflexivity.
  - lia.
  - simpl. lia.
  - simpl. lia.
  - lia.
Defined.

(** ** The whole run *)

Section WholeRun.
Context {value pixel : Type}.
Variable card_image : card → list byte.
Variable cast : value → pixel.
Variable zero : pixel.
Variable fs : gmap string (ndarray value).
Variable imlist : list string.
Variable nstokes : Z.

Lemma skeleton_hdr sk X Y :
  image_dims fs imlist = Ok (X, Y) →
  skeleton zero fs imlist nstokes = Ok sk →
  hdr sk = cube_header X Y imlist nstokes.
Proof.
  intros Hdims. unfold skeleton. rewrite Hdims. cbn [mbind result_bind fst snd].
  intros Hsk. apply Ok_inj in Hsk. by subst sk.
Qed.

(** C2. A run of the pipeline: [make_empty_image] for the list, then
    either fill path. When the path returns, the header of the closed file
    reads CRPIX3 = 1, NAXIS3 = len(imlist) and CTYPE3 = "FREQ". The
    sequential path hands shape[1] + 1 to [update_fits_header] as NAXIS3
    (line 88); the flush puts back the depth the file was created with. *)
Theorem finalized_depth_axis schedule sk :
  skeleton zero fs imlist nstokes = Ok sk →
  let seq_run := fill_cube_with_images cast zero fs imlist nstokes sk in
  let pool_run := fill_cube_with_images_multiprocess cast zero fs imlist nstokes schedule sk in
  (seq_run.2 = Ok () →
   header_get (hdr seq_run.1) "CRPIX3" = Some (HInt 1)
   ∧ header_get (hdr seq_run.1) "NAXIS3" = Some (HInt (Z.of_nat (length imlist)))
   ∧ header_get (hdr seq_run.1) "CTYPE3" = Some (HStr "FREQ"))
  ∧ (pool_run.2 = Ok () →
     header_get (hdr pool_run.1) "CRPIX3" = Some (HInt 1)
     ∧ header_get (hdr pool_run.1) "NAXIS3" = Some (HInt (Z.of_nat (length imlist)))
     ∧ header_get (hdr pool_run.1) "CTYPE3" = Some (HStr "FREQ")).
Proof.
  intros Hsk seq_run pool_run.
  destruct (image_dims fs imlist) as [[X Y]|e] eqn:Hdims.
  - pose proof (skeleton_hdr sk X Y Hdims Hsk) as Hhdr.
    assert (Hn : header_get (hdr sk) "NAXIS" = Some (HInt 4))
      by (rewrite Hhdr; reflexivity).
    assert (H3 : header_get (hdr sk) "NAXIS3" = Some (HInt (Z.of_nat (length imlist))))
      by (rewrite Hhdr; reflexivity).
    split; intros Hok.
    + by apply (sequential_fields cast zero fs imlist nstokes sk).
    + by apply (multiprocess_fields cast zero fs imlist nstokes schedule sk).
  - unfold skeleton in Hsk. rewrite Hdims in Hsk. discriminate Hsk.
Qed.

(** After all units of a schedule, a channel that was scheduled holds its
    input. *)
Lemma run_units_pixel schedule (out : FitsFile pixel) sol i p data W Z Y X n m ss y x :
  open_update out = Ok [W; Z; Y; X] →
  i ∈ schedule →
  imlist !! i = Some p → fs !! p = Some data →
  wf_array data → shape data = [n; m; Y; X] → 0 < m →
  Z.to_nat nstokes ≤ n → Z.to_nat nstokes ≤ W → i < Z →
  ss < Z.to_nat nstokes → y < Y → x < X →
  read_pixel (run_units cast zero fs imlist nstokes schedule out sol).1 ss i y x
  = cast <$> getitem4 data ss 0 y x.
Proof.
  intros Hopen Hin Hi Hp Hwf Hsh Hm Hn HW HZ Hss Hy Hx.
  revert out sol Hopen. induction schedule as [|c rest IH]; intros out sol Hopen.
  - by apply elem_of_nil in Hin.
  - cbn [run_units]. destruct (decide (i ∈ rest)) as [Hrest|Hrest].
    + apply IH; [done|]. unfold run_unit. by rewrite insert_channel_open.
    + apply elem_of_cons in Hin as [->|Hin]; [|done].
      rewrite run_units_read_other by done. unfold run_unit.
      destruct (unit_copies cast zero fs imlist nstokes c p data out W Z Y X n m) as [_ Hv];
        try done.
      by apply Hv.
Qed.

(** The run of [make_empty_image] and the pool path on square images:
    the file written, the shape it opens with, the outcome of every unit
    and of the pool, and the pixels of the cube. *)
Lemma pool_round_trip schedule A :
  let d := (Z.of_nat A * Z.of_nat A * Z.of_nat (length imlist) * nstokes * 4)%Z in
  let header := cube_header (Z.of_nat A) (Z.of_nat A) imlist nstokes in
  image_dims fs imlist = Ok (Z.of_nat A, Z.of_nat A) →
  (∀ i p, imlist !! i = Some p →
          ∃ data n m, fs !! p = Some data ∧ wf_array data
                      ∧ shape data = [n; m; A; A] ∧ 0 < m ∧ Z.to_nat nstokes ≤ n) →
  (0 < d)%Z →
  (Z.of_nat (length (tostring card_image header)) + spec_padded d < 2 ^ 63)%Z →
  Permutation schedule (seq 0 (length imlist)) →
  ∃ sk, skeleton zero fs imlist nstokes = Ok sk
        ∧ make_empty_image card_image fs imlist nstokes
          = (Some (tostring card_image (hdr sk) ++ replicate (4 * length (body sk)) x00),
             Ok ())
        ∧ open_update sk = Ok [Z.to_nat nstokes; length imlist; A; A]
        ∧ (∀ c, c < length imlist →
                (insert_channel cast zero c sk fs imlist nstokes).2 = Ok ())
        ∧ (fill_cube_with_images_multiprocess cast zero fs imlist nstokes schedule sk).2 = Ok ()
        ∧ ∀ i p data ss y x,
            imlist !! i = Some p → fs !! p = Some data →
            ss < Z.to_nat nstokes → y < A → x < A →
            read_pixel (fill_cube_with_images_multiprocess cast zero fs imlist nstokes schedule sk).1
              ss i y x
            = cast <$> getitem4 data ss 0 y x.
Proof.
  intros d header Hdims Hall Hd Hb Hperm.
  assert (Hb' : (spec_padded d < 2 ^ 63)%Z) by lia.
  destruct (skeleton_mapped zero fs imlist nstokes _ _ Hdims Hd Hb')
    as (sk & Hsk & Hopen & Hlen & _).
  rewrite !Nat2Z.id in Hopen.
  pose proof (skeleton_hdr sk _ _ Hdims Hsk) as Hhdr.
  exists sk. split; [done|]. split.
  { rewrite (make_empty_image_bytes card_image fs imlist nstokes _ _ Hdims Hd Hb).
    rewrite Hhdr. do 4 f_equal. fold d in Hlen |- *.
    destruct (spec_padded_mul4 d) as [k Hk]. rewrite Hk in Hlen |- *.
    rewrite Z.mul_comm, Z.div_mul in Hlen by lia. lia. }
  assert (Hunit : ∀ c, c < length imlist →
            (insert_channel cast zero c sk fs imlist nstokes).2 = Ok ()).
  { intros c Hc. destruct (lookup_lt_is_Some_2 imlist c Hc) as [p Hp].
    destruct (Hall c p Hp) as (data & n & m & Hf & Hwf & Hsh & Hm & Hn).
    by destruct (unit_copies cast zero fs imlist nstokes c p data sk _ _ _ _ n m
                   Hopen Hp Hf Hwf Hsh Hm Hn (Nat.le_refl _) Hc). }
  assert (Hfe : first_error (seq 0 (length imlist))
                  (run_units cast zero fs imlist nstokes schedule sk ∅).2 = None).
  { apply first_error_none. intros c Hc. apply elem_of_seq in Hc.
    rewrite run_units_sol, decide_True by (rewrite Hperm; apply elem_of_seq; lia).
    f_equal. apply Hunit. lia. }
  split; [done|]. split; [done|].
  unfold fill_cube_with_images_multiprocess. rewrite Hfe. cbn [fst snd].
  split; [done|].
  intros i p data ss y x Hi Hp Hss Hy Hx.
  pose proof (lookup_lt_Some _ _ _ Hi) as Hlt.
  destruct (Hall i p Hi) as (data' & n & m & Hf & Hwf & Hsh & Hm & Hn).
  assert (data' = data) as -> by congruence.
  rewrite <- (run_units_pixel schedule sk ∅ i p data _ _ _ _ n m ss y x Hopen);
    try done; try lia.
  - unfold read_pixel. rewrite update_fits_header_body.
    set (r1 := (run_units cast zero fs imlist nstokes schedule sk ∅).1).
    assert (Hh1 : hdr r1 = hdr sk) by apply run_units_hdr.
    rewrite (header_shape_finalize r1 _ [Z.to_nat nstokes; length imlist; A; A]).
    + rewrite Hh1. by rewrite (open_update_shape _ _ Hopen).
    + rewrite Hh1, Hhdr. reflexivity.
    + rewrite Hh1. by apply open_update_shape.
  - rewrite Hperm. apply elem_of_seq. lia.
Qed.

(** Lines 144-149, [make_empty_image] then the pool path, on square
    images. When the first image gives (A, A), every input has shape
    (n, m, A, A) with at least [nstokes] planes, and the sizes stay in the
    int64 range, [make_empty_image] writes the file [sk], its header
    followed by the zero bytes of its data region; on that file the pool
    path returns normally for every order of its units, and the cube reads,
    at [outdata[ss, i, y, x]], the pixel [data[ss, 0, y, x]] of input [i]
    converted to the element type of the cube. *)
Theorem pipeline_round_trip schedule A :
  let d := (Z.of_nat A * Z.of_nat A * Z.of_nat (length imlist) * nstokes * 4)%Z in
  let header := cube_header (Z.of_nat A) (Z.of_nat A) imlist nstokes in
  image_dims fs imlist = Ok (Z.of_nat A, Z.of_nat A) →
  (∀ i p, imlist !! i = Some p →
          ∃ data n m, fs !! p = Some data ∧ wf_array data
                      ∧ shape data = [n; m; A; A] ∧ 0 < m ∧ Z.to_nat nstokes ≤ n) →
  (0 < d)%Z →
  (Z.of_nat (length (tostring card_image header)) + spec_padded d < 2 ^ 63)%Z →
  Permutation schedule (seq 0 (length imlist)) →
  ∃ sk, skeleton zero fs imlist nstokes = Ok sk
        ∧ make_empty_image card_image fs imlist nstokes
          = (Some (tostring card_image (hdr sk) ++ replicate (4 * length (body sk)) x00),
             Ok ())
        ∧ (fill_cube_with_images_multiprocess cast zero fs imlist nstokes schedule sk).2 = Ok ()
        ∧ ∀ i p data ss y x,
            imlist !! i = Some p → fs !! p = Some data →
            ss < Z.to_nat nstokes → y < A → x < A →
            read_pixel (fill_cube_with_images_multiprocess cast zero fs imlist nstokes schedule sk).1
              ss i y x
            = cast <$> getitem4 data ss 0 y x.
Proof.
  intros d header Hdims Hall Hd Hb Hperm.
  destruct (pool_round_trip schedule A Hdims Hall Hd Hb Hperm)
    as (sk & Hsk & Hfile & _ & _ & Hok & Hread).
  by exists sk.
Qed.
End WholeRun.

Lemma finalized_depth_axis_witness :
  let seq_run := fill_cube_with_images id 0%Z scenario_files scenario_list 2 scenario_skeleton in
  let pool_run := fill_cube_with_images_multiprocess id 0%Z scenario_files scenario_list 2
                    [2; 0; 1] scenario_skeleton in
  length scenario_list = 3
  ∧ seq_run.2 = Ok () ∧ pool_run.2 = Ok ()
  ∧ header_get (hdr seq_run.1) "CRPIX3" = Some (HInt 1)
  ∧ header_get (hdr seq_run.1) "NAXIS3" = Some (HInt 3)
  ∧ header_get (hdr seq_run.1) "CTYPE3" = Some (HStr "FREQ")
  ∧ header_get (hdr pool_run.1) "CRPIX3" = Some (HInt 1)
  ∧ header_get (hdr pool_run.1) "NAXIS3" = Some (HInt 3)
  ∧ header_get (hdr pool_run.1) "CTYPE3" = Some (HStr "FREQ").
Proof.
  intros seq_run pool_run.
  assert (Hs : seq_run.2 = Ok ()) by (vm_compute; reflexivity).
  assert (Hp : pool_run.2 = Ok ()) by (vm_compute; reflexivity).
  destruct (finalized_depth_axis id 0%Z scenario_files scenario_list 2 [2; 0; 1]
              scenario_skeleton eq_refl) as [Hseq Hpool].
  destruct (Hseq Hs) as (? & ? & ?). destruct (Hpool Hp) as (? & ? & ?).
  repeat split; done.
Defined.

Lemma pipeline_round_trip_witness :
  ∃ sk, skeleton 0%Z scenario_files scenario_list 2 = Ok sk
        ∧ make_empty_image keyword_card scenario_files scenario_list 2
          = (Some (tostring keyword_card (hdr sk) ++ replicate (4 * length (body sk)) x00),
             Ok ())
        ∧ (fill_cube_with_images_multiprocess id 0%Z scenario_files scenario_list 2 [2; 0; 1]
             sk).2 = Ok ()
        ∧ ∀ i p data ss y x,
            scenario_list !! i = Some p → scenario_files !! p = Some data →
            ss < Z.to_nat 2 → y < 4 → x < 4 →
            read_pixel (fill_cube_with_images_multiprocess id 0%Z scenario_files scenario_list 2
                          [2; 0; 1] sk).1 ss i y x
            = id <$> getitem4 data ss 0 y x.
Proof.
  apply (pipeline_round_trip keyword_card id 0%Z scenario_files scenario_list 2 [2; 0; 1] 4).
  - reflexivity.
  - intros i p Hi.
    assert (Hcases : (i = 0 ∧ p = "chan000") ∨ (i = 1 ∧ p = "chan001")
                     ∨ (i = 2 ∧ p = "chan002")).
    { destruct i as [|[|[|i]]]; simpl in Hi; try discriminate;
        injection Hi as <-; auto. }
    destruct Hcases as [[-> ->]|[[-> ->]|[-> ->]]].
    + exists (const_image 2 4 4 (scenario_value 0)), 2, 1.
      repeat split; try reflexivity; simpl; lia.
    + exists (const_image 2 4 4 (scenario_value 1)), 2, 1.
      repeat split; try reflexivity; simpl; lia.
    + exists (const_image 2 4 4 (scenario_value 2)), 2, 1.
      repeat split; try reflexivity; simpl; lia.
  - reflexivity.
  - reflexivity.
  - exact (perm_trans (perm_swap 0 2 [1]) (perm_skip 0 (perm_swap 1 2 []))).
Defined.

(** ** Planes that do not fit the cube *)

Lemma getitem_plane_shape {value : Type} (data : ndarray value) n m a b ss :
  shape data = [n; m; a; b] → ss < n → 0 < m →
  ∃ src, getitem_plane data ss = Ok src ∧ shape src = [a; b].
Proof.
  intros Hsh Hss Hm. unfold getitem_plane. rewrite Hsh.
  rewrite decide_False by (simpl; lia).
  unfold index0 at 2. rewrite Hsh. rewrite decide_True by done.
  cbn [mbind result_bind]. unfold index0. cbn [shape buf].
  rewrite decide_True by done. by eexists.
Qed.

(** Lines 104-106. When the planes of the input have a shape (a, b) that
    cannot be broadcast to the (Y, X) planes of the cube (an axis that is
    neither of the cube's length nor of length one), [insert_channel]
    raises ValueError at the first plane and leaves the file as it was. *)
Theorem insert_channel_shape_mismatch {value pixel : Type} (cast : value → pixel) (zero : pixel)
    (fs : gmap string (ndarray value)) (imlist : list string) (nstokes : Z)
    (i : nat) (p : string) (data : ndarray value) (out : FitsFile pixel)
    (W Z Y X n m a b : nat) :
  open_update out = Ok [W; Z; Y; X] →
  imlist !! i = Some p → fs !! p = Some data →
  shape data = [n; m; a; b] → 0 < n → 0 < m →
  (1 ≤ nstokes)%Z → 0 < W → i < Z →
  ¬ ((a = Y ∨ a = 1) ∧ (b = X ∨ b = 1)) →
  insert_channel cast zero i out fs imlist nstokes = (out, Raise ValueError).
Proof.
  intros Hopen Hi Hp Hsh Hn Hm Hst HW HZ Hbad.
  destruct (getitem_plane_shape data n m a b 0 Hsh Hn Hm) as (src & Hg & Hs).
  assert (Hw : plane_write cast zero [W; Z; Y; X] data i 0 = Raise ValueError).
  { unfold plane_write. rewrite Hg. cbn [mbind result_bind].
    rewrite (decide_True (P := 0 < W ∧ i < Z)) by done.
    unfold broadcast2. rewrite Hs.
    rewrite strip_ones_short by (simpl; lia).
    cbn [length replicate app Nat.sub].
    by rewrite (decide_False (P := (a = Y ∨ a = 1) ∧ (b = X ∨ b = 1))) by done. }
  rewrite insert_channel_plan, Hopen. unfold unit_plan, list_item, fits_open_data.
  rewrite Hi. cbn [mbind result_bind]. rewrite Hp.
  destruct (range_pos nstokes Hst) as [k ->]. cbn [plan]. rewrite Hw.
  cbn [fst snd apply_writes foldl]. by destruct out.
Qed.

Lemma insert_channel_shape_mismatch_witness :
  insert_channel id 0%Z 0 wide_skeleton wide_files ["wide"] 2
  = (wide_skeleton, Raise ValueError).
Proof.
  apply (insert_channel_shape_mismatch id 0%Z wide_files ["wide"] 2 0 "wide"
           (const_image 2 2 3 (scenario_value 0)) wide_skeleton 2 1 3 2 2 1 2 3).
  - reflexivity.
  - reflexivity.
  - reflexivity.
  - reflexivity.
  - lia.
  - lia.
  - lia.
  - lia.
  - lia.
  - lia.
Defined.

(** Lines 88-95. When [fill_cube_with_images] returns normally on a cube
    of shape (W, Z, Y, X), the header of the closed file reads CRPIX3 = 1,
    CTYPE3 = "FREQ" and NAXIS3 = Z, the depth of the cube: line 88 hands
    shape[1] + 1 to [update_fits_header], and the flush puts the axis
    length of the file back. *)
Theorem sequential_header_fields {value pixel : Type} (cast : value → pixel) (zero : pixel)
    (fs : gmap string (ndarray value)) (imlist : list string) (nstokes : Z)
    (out : FitsFile pixel) (W Z Y X : nat) :
  open_update out = Ok [W; Z; Y; X] →
  (fill_cube_with_images cast zero fs imlist nstokes out).2 = Ok () →
  header_get (hdr (fill_cube_with_images cast zero fs imlist nstokes out).1) "CRPIX3"
  = Some (HInt 1)
  ∧ header_get (hdr (fill_cube_with_images cast zero fs imlist nstokes out).1) "NAXIS3"
    = Some (HInt (Z.of_nat Z))
  ∧ header_get (hdr (fill_cube_with_images cast zero fs imlist nstokes out).1) "CTYPE3"
    = Some (HStr "FREQ").
Proof.
  intros Hopen Hok. apply open_update_shape in Hopen.
  destruct (header_shape_4 _ _ _ _ _ Hopen) as [Hn H3].
  by apply (sequential_fields cast zero fs imlist nstokes out).
Qed.

Lemma sequential_header_fields_witness :
  header_get (hdr (fill_cube_with_images id 0%Z scenario_files scenario_list 2
                     scenario_skeleton).1) "CRPIX3" = Some (HInt 1)
  ∧ header_get (hdr (fill_cube_with_images id 0%Z scenario_files scenario_list 2
                       scenario_skeleton).1) "NAXIS3" = Some (HInt (Z.of_nat 3))
  ∧ header_get (hdr (fill_cube_with_images id 0%Z scenario_files scenario_list 2
                       scenario_skeleton).1) "CTYPE3" = Some (HStr "FREQ").
Proof.
  apply (sequential_header_fields id 0%Z scenario_files scenario_list 2 scenario_skeleton
           2 3 4 4).
  - reflexivity.
  - vm_compute. reflexivity.
Defined.

(** ** The two fill paths on the same file *)

Section PathsAgree.
Context {value pixel : Type}.
Variable cast : value → pixel.
Variable zero : pixel.
Variable fs : gmap string (ndarray value).
Variable imlist : list string.
Variable nstokes : Z.

Lemma FitsFile_eq (f g : FitsFile pixel) : hdr f = hdr g → body f = body g → f = g.
Proof. destruct f, g. cbn [hdr body]. by intros -> ->. Qed.

Lemma run_until_error_ok chans (out : FitsFile pixel) :
  (run_until_error cast zero fs imlist nstokes chans out).2 = Ok () →
  ∀ c, c ∈ chans → (insert_channel cast zero c out fs imlist nstokes).2 = Ok ().
Proof.
  revert out. induction chans as [|a rest IH]; intros out Hok c Hc.
  - by apply elem_of_nil in Hc.
  - cbn [run_until_error] in Hok.
    destruct (insert_channel cast zero a out fs imlist nstokes).2 as [[]|e] eqn:Ha;
      [|done].
    apply elem_of_cons in Hc as [->|Hc]; [done|].
    rewrite <- (insert_channel_status cast zero fs imlist nstokes c a out).
    by apply IH.
Qed.

Lemma fill_cube_with_images_units (out : FitsFile pixel) :
  (fill_cube_with_images cast zero fs imlist nstokes out).2 = Ok () →
  ∀ c, c < length imlist → (insert_channel cast zero c out fs imlist nstokes).2 = Ok ().
Proof.
  unfold fill_cube_with_images.
  destruct (open_update out) as [sh|e] eqn:Hopen; [|done].
  destruct (fill_channels_until_error cast zero fs imlist nstokes out sh
              (seq 0 (length imlist)) Hopen) as [-> _].
  cbn [fst snd].
  destruct (run_until_error cast zero fs imlist nstokes (seq 0 (length imlist)) out).2
    as [[]|e] eqn:Hr; [|done].
  intros _ c Hc. apply (run_until_error_ok _ _ Hr). apply elem_of_seq. lia.
Qed.

(** The header of the pipeline once a fill path has finalized it: the
    cards of [make_empty_image], then CRPIX3 and CTYPE3; the NAXIS3 of
    the dictionary leaves no trace. *)
Lemma finalize_cube_header (f : FitsFile pixel) X Y n :
  hdr f = cube_header X Y imlist nstokes →
  hdr (update_fits_header f (fitsheader n))
  = cube_header X Y imlist nstokes ++ [("CRPIX3", HInt 1); ("CTYPE3", HStr "FREQ")].
Proof.
  intros Hh. unfold update_fits_header. rewrite Hh, cube_header_cards. cbv zeta.
  destruct (decide _) as [Heq|_].
  - apply (f_equal length) in Heq. discriminate Heq.
  - reflexivity.
Qed.

(** When the sequential path returns on the file of [make_empty_image],
    the pool path leaves the same file. *)
Lemma paths_same_file schedule sk X Y :
  image_dims fs imlist = Ok (X, Y) →
  skeleton zero fs imlist nstokes = Ok sk →
  Permutation schedule (seq 0 (length imlist)) →
  (fill_cube_with_images cast zero fs imlist nstokes sk).2 = Ok () →
  fill_cube_with_images_multiprocess cast zero fs imlist nstokes schedule sk
  = fill_cube_with_images cast zero fs imlist nstokes sk
  ∧ hdr (fill_cube_with_images cast zero fs imlist nstokes sk).1
    = cube_header X Y imlist nstokes ++ [("CRPIX3", HInt 1); ("CTYPE3", HStr "FREQ")].
Proof.
  intros Hdims Hsk Hperm Hok.
  pose proof (skeleton_hdr zero fs imlist nstokes sk X Y Hdims Hsk) as Hhdr.
  pose proof (fill_cube_with_images_units sk Hok) as Hunits.
  pose proof (fill_cube_with_images_body cast zero fs imlist nstokes sk Hok) as Hbody.
  pose proof (fill_cube_with_images_finalized cast zero fs imlist nstokes sk) as Hfin.
  rewrite Hok in Hfin. destruct Hfin as (sh & depth & out1 & _ & _ & Hh1 & Hseq).
  assert (Hseq_hdr : hdr (fill_cube_with_images cast zero fs imlist nstokes sk).1
                     = cube_header X Y imlist nstokes
                       ++ [("CRPIX3", HInt 1); ("CTYPE3", HStr "FREQ")]).
  { rewrite Hseq. apply finalize_cube_header. by rewrite Hh1. }
  split; [|done].
  assert (Hfe : first_error (seq 0 (length imlist))
                  (run_units cast zero fs imlist nstokes schedule sk ∅).2 = None).
  { apply first_error_none. intros c Hc. apply elem_of_seq in Hc.
    rewrite run_units_sol, decide_True by (rewrite Hperm; apply elem_of_seq; lia).
    f_equal. apply Hunits. lia. }
  unfold fill_cube_with_images_multiprocess. rewrite Hfe.
  destruct (fill_cube_with_images cast zero fs imlist nstokes sk) as [f r] eqn:Hrun.
  cbn [fst snd] in *. subst r. f_equal.
  assert (Hpool_hdr : hdr (update_fits_header
                             (run_units cast zero fs imlist nstokes schedule sk ∅).1
                             (fitsheader (Z.of_nat (length imlist))))
                      = hdr f).
  { rewrite Hseq_hdr. apply finalize_cube_header. by rewrite run_units_hdr. }
  assert (Hpool_body : body (update_fits_header
                               (run_units cast zero fs imlist nstokes schedule sk ∅).1
                               (fitsheader (Z.of_nat (length imlist))))
                       = body f).
  { rewrite update_fits_header_body, Hbody.
    by rewrite (run_units_perm cast zero fs imlist nstokes _ _ sk ∅ Hperm). }
  by apply FitsFile_eq.
Qed.

Lemma run_until_error_all_ok chans (out : FitsFile pixel) :
  (∀ c, c ∈ chans → (insert_channel cast zero c out fs imlist nstokes).2 = Ok ()) →
  (run_until_error cast zero fs imlist nstokes chans out).2 = Ok ().
Proof.
  revert out. induction chans as [|a rest IH]; intros out Hok; [done|].
  cbn [run_until_error]. rewrite (Hok a) by (by left).
  apply IH. intros c Hc. rewrite insert_channel_status. apply Hok. by right.
Qed.

(** The sequential path returns when the cube has a depth axis and the
    copy of every channel returns. *)
Lemma units_ok_sequential (out : FitsFile pixel) sh depth :
  open_update out = Ok sh → sh !! 1 = Some depth →
  (∀ c, c < length imlist → (insert_channel cast zero c out fs imlist nstokes).2 = Ok ()) →
  (fill_cube_with_images cast zero fs imlist nstokes out).2 = Ok ().
Proof.
  intros Hopen Hd Hok. unfold fill_cube_with_images. rewrite Hopen.
  destruct (fill_channels_until_error cast zero fs imlist nstokes out sh
              (seq 0 (length imlist)) Hopen) as [-> _].
  cbn [fst snd]. rewrite run_until_error_all_ok.
  - by rewrite Hd.
  - intros c Hc. apply elem_of_seq in Hc. apply Hok. lia.
Qed.

(** Lines 69-95 against lines 111-139, on the file [make_empty_image]
    leaves. When the sequential path returns, the pool path returns too,
    whatever the order of its units, and leaves the very same file: the
    same data region and the same header, which holds the cards of
    [make_empty_image] followed by CRPIX3 = 1 and CTYPE3 = "FREQ". *)
Theorem paths_agree schedule sk X Y :
  image_dims fs imlist = Ok (X, Y) →
  skeleton zero fs imlist nstokes = Ok sk →
  Permutation schedule (seq 0 (length imlist)) →
  (fill_cube_with_images cast zero fs imlist nstokes sk).2 = Ok () →
  fill_cube_with_images_multiprocess cast zero fs imlist nstokes schedule sk
  = fill_cube_with_images cast zero fs imlist nstokes sk
  ∧ hdr (fill_cube_with_images cast zero fs imlist nstokes sk).1
    = cube_header X Y imlist nstokes ++ [("CRPIX3", HInt 1); ("CTYPE3", HStr "FREQ")].
Proof. apply paths_same_file. Qed.
End PathsAgree.

Lemma paths_agree_witness :
  fill_cube_with_images_multiprocess id 0%Z scenario_files scenario_list 2 [2; 0; 1]
    scenario_skeleton
  = fill_cube_with_images id 0%Z scenario_files scenario_list 2 scenario_skeleton
  ∧ hdr (fill_cube_with_images id 0%Z scenario_files scenario_list 2 scenario_skeleton).1
    = cube_header 4 4 scenario_list 2 ++ [("CRPIX3", HInt 1); ("CTYPE3", HStr "FREQ")].
Proof.
  apply (paths_agree id 0%Z scenario_files scenario_list 2 [2; 0; 1] scenario_skeleton 4 4).
  - reflexivity.
  - reflexivity.
  - exact (perm_trans (perm_swap 0 2 [1]) (perm_skip 0 (perm_swap 1 2 []))).
  - vm_compute. reflexivity.
Defined.

(** ** [make_empty_image] and the sequential path *)

(** Lines 144-149 with the call of line 148 in place of line 149:
    [make_empty_image] then [fill_cube_with_images], on square images.
    When the first image gives (A, A), every input has shape (n, m, A, A)
    with at least [nstokes] planes, and the sizes stay in the int64 range,
    the sequential path returns normally on the file [make_empty_image]
    writes, and the cube reads, at [outdata[ss, i, y, x]], the pixel
    [data[ss, 0, y, x]] of input [i] converted to the element type of the
    cube. *)
Theorem sequential_round_trip {value pixel : Type} (card_image : card → list byte)
    (cast : value → pixel) (zero : pixel) (fs : gmap string (ndarray value))
    (imlist : list string) (nstokes : Z) (A : nat) :
  let d := (Z.of_nat A * Z.of_nat A * Z.of_nat (length imlist) * nstokes * 4)%Z in
  let header := cube_header (Z.of_nat A) (Z.of_nat A) imlist nstokes in
  image_dims fs imlist = Ok (Z.of_nat A, Z.of_nat A) →
  (∀ i p, imlist !! i = Some p →
          ∃ data n m, fs !! p = Some data ∧ wf_array data
                      ∧ shape data = [n; m; A; A] ∧ 0 < m ∧ Z.to_nat nstokes ≤ n) →
  (0 < d)%Z →
  (Z.of_nat (length (tostring card_image header)) + spec_padded d < 2 ^ 63)%Z →
  ∃ sk, skeleton zero fs imlist nstokes = Ok sk
        ∧ make_empty_image card_image fs imlist nstokes
          = (Some (tostring card_image (hdr sk) ++ replicate (4 * length (body sk)) x00),
             Ok ())
        ∧ (fill_cube_with_images cast zero fs imlist nstokes sk).2 = Ok ()
        ∧ ∀ i p data ss y x,
            imlist !! i = Some p → fs !! p = Some data →
            ss < Z.to_nat nstokes → y < A → x < A →
            read_pixel (fill_cube_with_images cast zero fs imlist nstokes sk).1 ss i y x
            = cast <$> getitem4 data ss 0 y x.
Proof.
  intros d header Hdims Hall Hd Hb.
  destruct (pool_round_trip card_image cast zero fs imlist nstokes
              (seq 0 (length imlist)) A Hdims Hall Hd Hb (Permutation_refl _))
    as (sk & Hsk & Hfile & Hopen & Hunits & Hok & Hread).
  assert (Hseq : (fill_cube_with_images cast zero fs imlist nstokes sk).2 = Ok ()).
  { by apply (units_ok_sequential cast zero fs imlist nstokes sk _ (length imlist) Hopen). }
  exists sk. split; [done|]. split; [done|]. split; [done|].
  destruct (paths_same_file cast zero fs imlist nstokes (seq 0 (length imlist)) sk _ _
              Hdims Hsk (Permutation_refl _) Hseq) as [<- _].
  exact Hread.
Qed.

Lemma sequential_round_trip_witness :
  ∃ sk, skeleton 0%Z scenario_files scenario_list 2 = Ok sk
        ∧ make_empty_image keyword_card scenario_files scenario_list 2
          = (Some (tostring keyword_card (hdr sk) ++ replicate (4 * length (body sk)) x00),
             Ok ())
        ∧ (fill_cube_with_images id 0%Z scenario_files scenario_list 2 sk).2 = Ok ()
        ∧ ∀ i p data ss y x,
            scenario_list !! i = Some p → scenario_files !! p = Some data →
            ss < Z.to_nat 2 → y < 4 → x < 4 →
            read_pixel (fill_cube_with_images id 0%Z scenario_files scenario_list 2 sk).1
              ss i y x
            = id <$> getitem4 data ss 0 y x.
Proof.
  apply (sequential_round_trip keyword_card id 0%Z scenario_files scenario_list 2 4).
  - reflexivity.
  - intros i p Hi.
    assert (Hcases : (i = 0 ∧ p = "chan000") ∨ (i = 1 ∧ p = "chan001")
                     ∨ (i = 2 ∧ p = "chan002")).
    { destruct i as [|[|[|i]]]; simpl in Hi; try discriminate;
        injection Hi as <-; auto. }
    destruct Hcases as [[-> ->]|[[-> ->]|[-> ->]]].
    + exists (const_image 2 4 4 (scenario_value 0)), 2, 1.
      repeat split; try reflexivity; simpl; lia.
    + exists (const_image 2 4 4 (scenario_value 1)), 2, 1.
      repeat split; try reflexivity; simpl; lia.
    + exists (const_image 2 4 4 (scenario_value 2)), 2, 1.
      repeat split; try reflexivity; simpl; lia.
  - reflexivity.
  - reflexivity.
Defined.

(** ** The stores of the pool, in any order *)

(** Lines 98-108 and 120-127. The data region the pool leaves does not
    depend on when its processes store: the stores of all units, taken
    element by element and performed in any order whatsoever, leave the
    data region the pool path leaves; so do their interleavings, which
    keep the order of the stores of each unit. *)
Theorem pool_stores_any_order {value pixel : Type} (cast : value → pixel) (zero : pixel)
    (fs : gmap string (ndarray value)) (imlist : list string) (nstokes : Z)
    (schedule : list nat) (out : FitsFile pixel) :
  (∀ ws, Permutation ws (concat (unit_stores cast zero fs imlist nstokes out <$> schedule)) →
         apply_writes ws (body out)
         = body (fill_cube_with_images_multiprocess cast zero fs imlist nstokes schedule out).1)
  ∧ (∀ ws, interleaving (unit_stores cast zero fs imlist nstokes out <$> schedule) ws →
           apply_writes ws (body out)
           = body (fill_cube_with_images_multiprocess cast zero fs imlist nstokes schedule out).1)
  ∧ interleaving (unit_stores cast zero fs imlist nstokes out <$> schedule)
      (concat (unit_stores cast zero fs imlist nstokes out <$> schedule)).
Proof.
  split; [|split].
  - intros ws Hws. rewrite multiprocess_body. by apply stores_any_order.
  - intros ws Hws. rewrite multiprocess_body. apply stores_any_order.
    by apply interleaving_Permutation.
  - apply interleaving_concat.
Qed.
